(** * sveltekit-adapter-cli: the request bridging runtime

    A shallow embedding of the runtime files of the adapter
    ([files/readline.ts], [files/handle.ts], [files/index.ts]) and the
    properties of its line reader, static file resolver, request
    assembler, dispatcher and process lifecycle.

    Conventions.
    - A [Buffer] is a [list byte]; a JavaScript string is a [string]
      (its UTF-8 bytes).
    - A JavaScript number is a double.  The size of a file is a safe
      integer (below 2^53), a [Z]; the numbers that the code reads from a
      header are [Js.number]s: the integers that a double can hold and the
      infinities, with the rounding of the unary [+] and of [+] and [-].
    - [undefined] and [null] are [None]; a thrown exception is the left
      injection of a sum.
    - What the code takes from Bun, Node or the WHATWG classes
      ([path.normalize], [decodeURIComponent], [URL], MIME sniffing,
      [Date.toUTCString], [Bun.Glob], the file system) is a field of the
      [Runtime] class or of the [World] record. *)

From Stdlib Require Import List ZArith Lia Bool.
From Stdlib Require Import Strings.Ascii Strings.String Strings.Byte.
From Stdlib Require Import DecimalString.
From Stdlib Require DecimalPos.
From Equations Require Import Equations.
Import ListNotations.

Local Open Scope Z_scope.

(** ** Line reader ([files/readline.ts]) *)

Module Readline.

Definition inspect {A : Type} (a : A) : { b : A | a = b } :=
  exist _ a eq_refl.

(** [const LF = '\n'.charCodeAt(0)] *)
Definition LF : byte := x0a.

(** [Buffer.prototype.indexOf(value)]: the index of the first occurrence,
    [-1] when there is none. *)
Fixpoint indexOf (buff : list byte) (value : byte) : Z :=
  match buff with
  | [] => -1
  | b :: rest =>
      if Byte.eqb b value then 0
      else let i := indexOf rest value in
           if i <? 0 then -1 else i + 1
  end.

(** [Buffer.prototype.subarray(start, end)] for [0 <= start <= end]. *)
Definition subarray (buff : list byte) (start : Z) (end_ : option Z) : list byte :=
  let from := skipn (Z.to_nat start) buff in
  match end_ with
  | None => from
  | Some e => firstn (Z.to_nat (e - start)) from
  end.

(** The object: its only field is the private [#buff]. *)
Record t : Type := { buff : list byte }.

(** [#buff = Buffer.alloc(0)] *)
Definition init : t := {| buff := [] |}.

Section Decoder.

(** [Buffer.prototype.toString('utf8')] *)
Variable toString : list byte -> string.

(** The [while (lf >= 0)] loop of [_write]: the loop state is [#buff]
    and the lines emitted so far. *)
Equations? while_lf (buff : list byte) (emitted : list string)
  : list string * list byte by wf (List.length buff) lt :=
  while_lf buff emitted with inspect (indexOf buff LF) := {
    | exist _ lf Hlf with inspect (0 <=? lf) := {
        | exist _ true Hge =>
            while_lf (subarray buff (lf + 1) None)
              (emitted ++
                 (if (0 <? Z.of_nat (List.length (subarray buff 0 (Some lf))))
                  then [toString (subarray buff 0 (Some lf))] else []))
        | exist _ false Hge => (emitted, buff) } }.
Proof.
  assert (Hlt : forall bs, indexOf bs LF < Z.of_nat (List.length bs)).
  { induction bs as [|b rest IH]; simpl List.length; simpl indexOf.
    - lia.
    - destruct (Byte.eqb b LF); [lia|].
      destruct (indexOf rest LF <? 0); lia. }
  unfold subarray. rewrite length_skipn.
  match goal with |- (_ - _ < List.length ?b)%nat => specialize (Hlt b) end.
  apply Z.leb_le in Hge. lia.
Qed.

(** [_write(chunk, _, callback)]: the lines emitted by the call, in
    order, and the object afterwards. *)
Definition _write (r : t) (chunk : list byte) : list string * t :=
  let '(emitted, rest) := while_lf (buff r ++ chunk) [] in
  (emitted, {| buff := rest |}).

(** The chunks of a stream written one after the other. *)
Fixpoint feed (r : t) (chunks : list (list byte)) : list string * t :=
  match chunks with
  | [] => ([], r)
  | chunk :: more =>
      let '(emitted, r') := _write r chunk in
      let '(later, r'') := feed r' more in
      (emitted ++ later, r'')
  end.

End Decoder.

(** The specification's reading of the input: the bytes before each
    [\n], and the unterminated bytes after the last one. *)
Fixpoint split_lf (bs : list byte) : list (list byte) * list byte :=
  match bs with
  | [] => ([], [])
  | b :: rest =>
      let '(ls, tail) := split_lf rest in
      if Byte.eqb b LF then ([] :: ls, tail)
      else match ls with
           | [] => ([], b :: tail)
           | l :: ls' => ((b :: l) :: ls', tail)
           end
  end.

Definition complete_lines (bs : list byte) : list (list byte) := fst (split_lf bs).
Definition unterminated (bs : list byte) : list byte := snd (split_lf bs).

Definition nonempty (l : list byte) : bool :=
  match l with [] => false | _ :: _ => true end.

End Readline.

(** ** JavaScript strings and numbers *)

Module Js.

Local Open Scope string_scope.

(** A thrown value: the message of the [Error]. *)
Definition exn : Type := string.

(** An element of a JSON array that the code writes. *)
Inductive atom : Type :=
| Num (n : Z)
| Str (s : string).

(** [s.startsWith(p)] *)
Definition startsWith (s p : string) : bool := String.prefix p s.

(** [s.substring(n)] *)
Fixpoint substring_from (n : nat) (s : string) : string :=
  match n, s with
  | O, _ => s
  | S _, EmptyString => EmptyString
  | S n', String _ s' => substring_from n' s'
  end.

(** [s.endsWith(p)] *)
Definition endsWith (s p : string) : bool :=
  (String.length p <=? String.length s)%nat
  && String.eqb (substring_from (String.length s - String.length p) s) p.

(** [s.includes(p)] *)
Fixpoint includes (s p : string) : bool :=
  String.prefix p s
  || match s with
     | EmptyString => false
     | String _ s' => includes s' p
     end.

(** Truthiness of a string: every string but the empty one. *)
Definition truthy_string (s : string) : bool := negb (String.eqb s "").

(** Truthiness of a safe integer: every number but zero. *)
Definition truthy_number (n : Z) : bool := negb (n =? 0)%Z.

(** A safe integer interpolated into a template literal: its decimal
    digits. *)
Definition show (n : Z) : string := NilZero.string_of_int (Z.to_int n).

Definition is_digit (c : ascii) : bool :=
  (48 <=? nat_of_ascii c)%nat && (nat_of_ascii c <=? 57)%nat.

(** The mathematical value of a string of decimal digits. *)
Fixpoint digits_value (acc : Z) (s : string) : Z :=
  match s with
  | EmptyString => acc
  | String c s' => digits_value (10 * acc + (Z.of_nat (nat_of_ascii c) - 48)) s'
  end.

(** The mathematical value of an optional minus sign followed by
    decimal digits. *)
Definition numeral (s : string) : Z :=
  match s with
  | String "-" d => - digits_value 0 d
  | _ => digits_value 0 s
  end.

(** [Number.MAX_SAFE_INTEGER + 1]: up to here every integer is a double. *)
Definition safe : Z := 2 ^ 53.

(** The doubles end below [2 ^ 1024]. *)
Definition huge : Z := 2 ^ 1024.

(** A Number that arithmetic on integers yields: a double whose value
    is an integer, an infinity, or [NaN].  (The sign of zero makes no
    difference to what the code does with a number.) *)
Inductive number : Type :=
| Finite (z : Z)
| Infinity
| NegInfinity
| NaN.

(** The double nearest to a natural number, ties going to the even
    mantissa of 53 bits; the result is [2 ^ 1024] or more when the
    number rounds beyond the largest double. *)
Definition nearest (z : Z) : Z :=
  if (z <? safe)%Z then z
  else
    let e := (Z.log2 z - 52)%Z in
    let q := (z / 2 ^ e)%Z in
    let r := (z mod 2 ^ e)%Z in
    let half := (2 ^ (e - 1))%Z in
    let up := (half <? r)%Z || ((r =? half)%Z && Z.odd q) in
    ((if up then q + 1 else q) * 2 ^ e)%Z.

Definition neg (x : number) : number :=
  match x with
  | Finite z => Finite (- z)
  | Infinity => NegInfinity
  | NegInfinity => Infinity
  | NaN => NaN
  end.

Definition of_natural (z : Z) : number :=
  let m := nearest z in
  if (m <? huge)%Z then Finite m else Infinity.

(** The Number that an integer rounds to. *)
Definition of_Z (z : Z) : number :=
  if (z <? 0)%Z then neg (of_natural (- z)) else of_natural z.

(** The unary [+] on an optional minus sign followed by decimal digits. *)
Definition to_number (s : string) : number := of_Z (numeral s).

(** [x + y] *)
Definition add (x y : number) : number :=
  match x, y with
  | NaN, _ | _, NaN => NaN
  | Finite a, Finite b => of_Z (a + b)
  | Infinity, NegInfinity | NegInfinity, Infinity => NaN
  | Infinity, _ | _, Infinity => Infinity
  | NegInfinity, _ | _, NegInfinity => NegInfinity
  end.

(** [x - y] *)
Definition sub (x y : number) : number := add x (neg y).

(** [x < y], also for [y] a BigInt literal *)
Definition ltb (x y : number) : bool :=
  match x, y with
  | NaN, _ | _, NaN => false
  | Finite a, Finite b => (a <? b)%Z
  | _, NegInfinity => false
  | NegInfinity, _ => true
  | Infinity, _ => false
  | _, Infinity => true
  end.

(** [x <= y] *)
Definition leb (x y : number) : bool :=
  match x, y with
  | NaN, _ | _, NaN => false
  | Finite a, Finite b => (a <=? b)%Z
  | NegInfinity, _ => true
  | _, Infinity => true
  | _, NegInfinity => false
  | Infinity, _ => false
  end.

(** Truthiness of a Number: every number but zero and [NaN]. *)
Definition truthy (x : number) : bool :=
  match x with
  | Finite z => negb (z =? 0)%Z
  | NaN => false
  | _ => true
  end.

(** The number of decimal digits of a natural number. *)
Definition digits_count (z : Z) : Z := Z.of_nat (String.length (show z)).

(** [Number::toString] looks for the fewest digits [s], [k] of them,
    and the [n] with which [s * 10 ^ (n - k)] is a numeral of the
    double [x]; of two such [s] it takes the one that is closer.  The
    search goes from [k] on; 17 digits always do. *)
Fixpoint shortest (fuel : nat) (k : Z) (x : Z) : Z * Z :=
  match fuel with
  | O => (x, digits_count x)
  | S fuel' =>
      let d := (digits_count x - k)%Z in
      let lo := (x / 10 ^ d)%Z in
      let '(hi, dhi) :=
        if (lo + 1 <? 10 ^ k)%Z then ((lo + 1)%Z, d)
        else ((10 ^ (k - 1))%Z, (d + 1)%Z) in
      let below := (x - lo * 10 ^ d)%Z in
      let above := (hi * 10 ^ dhi - x)%Z in
      let lo_ok := (nearest (lo * 10 ^ d) =? x)%Z in
      let hi_ok := (nearest (hi * 10 ^ dhi) =? x)%Z in
      if lo_ok && ((below <? above)%Z || ((below =? above)%Z && Z.even lo)
                   || negb hi_ok)
      then (lo, (k + d)%Z)
      else if hi_ok then (hi, (k + dhi)%Z)
      else shortest fuel' (k + 1)%Z x
  end.

Fixpoint zeros (n : nat) : string :=
  match n with
  | O => ""
  | S n' => String "0" (zeros n')
  end.

(** [Number::toString] of a double that is an integer of [2 ^ 53] or
    more: the digits and zeros up to 21 digits, the exponent notation
    beyond. *)
Definition show_large (x : Z) : string :=
  let '(s, n) := shortest 17 1 x in
  let digits := show s in
  let k := Z.of_nat (String.length digits) in
  if (n <=? 21)%Z then digits ++ zeros (Z.to_nat (n - k))
  else match digits with
       | String c EmptyString => String c ("e+" ++ show (n - 1))
       | String c rest => String c ("." ++ rest ++ "e+" ++ show (n - 1))
       | EmptyString => ""
       end.

(** A Number interpolated into a template literal. *)
Definition show_number (x : number) : string :=
  match x with
  | Finite z =>
      if (Z.abs z <? safe)%Z then show z
      else if (z <? 0)%Z then "-" ++ show_large (- z)
      else show_large z
  | Infinity => "Infinity"
  | NegInfinity => "-Infinity"
  | NaN => "NaN"
  end.

(** The offset that [Blob.prototype.slice] makes of an argument: the
    integer, kept between the safe integers. *)
Definition clamp (x : number) : Z :=
  match x with
  | Finite z => Z.max (- (safe - 1)) (Z.min z (safe - 1))
  | Infinity => (safe - 1)%Z
  | NegInfinity => (- (safe - 1))%Z
  | NaN => 0%Z
  end.

(** ASCII lower case, byte by byte. *)
Definition lower_ascii (c : ascii) : ascii :=
  let n := nat_of_ascii c in
  if (65 <=? n)%nat && (n <=? 90)%nat then ascii_of_nat (n + 32) else c.

Fixpoint toLowerAscii (s : string) : string :=
  match s with
  | EmptyString => EmptyString
  | String c s' => String (lower_ascii c) (toLowerAscii s')
  end.

(** [s.split(sep)] for a separator of one character *)
Fixpoint split (sep : ascii) (s : string) : list string :=
  match s with
  | EmptyString => [EmptyString]
  | String c s' =>
      match split sep s' with
      | [] => [String c EmptyString]
      | piece :: pieces =>
          if Ascii.eqb c sep then EmptyString :: piece :: pieces
          else String c piece :: pieces
      end
  end.

(** The white space that [trim] strips, within ASCII: tab, line feed,
    vertical tab, form feed, carriage return, space. *)
Definition is_space (c : ascii) : bool :=
  let n := nat_of_ascii c in
  ((9 <=? n)%nat && (n <=? 13)%nat) || (n =? 32)%nat.

Fixpoint trimStart (s : string) : string :=
  match s with
  | String c s' => if is_space c then trimStart s' else s
  | EmptyString => EmptyString
  end.

Fixpoint trimEnd (s : string) : string :=
  match s with
  | EmptyString => EmptyString
  | String c s' =>
      match trimEnd s' with
      | EmptyString => if is_space c then EmptyString else String c EmptyString
      | rest => String c rest
      end
  end.

(** [s.trim()], for strings whose white space is ASCII. *)
Definition trim (s : string) : string := trimEnd (trimStart s).

End Js.

(** ** The [Headers] class (Fetch Standard) *)

Module Headers.

Local Open Scope string_scope.

(** The header list: names in lower case, in insertion order. *)
Definition t : Type := list (string * string).

Definition empty : t := [].

Definition named (name : string) (e : string * string) : bool :=
  String.eqb (fst e) (Js.toLowerAscii name).

(** [headers.has(name)] *)
Definition has (h : t) (name : string) : bool := existsb (named name) h.

Fixpoint join (vs : list string) : string :=
  match vs with
  | [] => ""
  | [v] => v
  | v :: more => v ++ ", " ++ join more
  end.

(** [headers.get(name)]: the values of the name joined by a comma and a
    space, [null] when there is none. *)
Definition get (h : t) (name : string) : option string :=
  match filter (named name) h with
  | [] => None
  | es => Some (join (map snd es))
  end.

(** HTTP white space: tab, line feed, carriage return, space. *)
Definition is_http_space (c : ascii) : bool :=
  let n := nat_of_ascii c in
  (n =? 9)%nat || (n =? 10)%nat || (n =? 13)%nat || (n =? 32)%nat.

Fixpoint strip_start (s : string) : string :=
  match s with
  | String c s' => if is_http_space c then strip_start s' else s
  | EmptyString => EmptyString
  end.

Fixpoint strip_end (s : string) : string :=
  match s with
  | EmptyString => EmptyString
  | String c s' =>
      match strip_end s' with
      | EmptyString => if is_http_space c then EmptyString else String c EmptyString
      | rest => String c rest
      end
  end.

(** A header value is normalised when it is stored: HTTP white space is
    removed at both ends. *)
Definition normalize (value : string) : string := strip_end (strip_start value).

(** A header name is a non-empty token. *)
Definition is_token_char (c : ascii) : bool :=
  let n := nat_of_ascii c in
  ((48 <=? n)%nat && (n <=? 57)%nat)
  || ((65 <=? n)%nat && (n <=? 90)%nat)
  || ((97 <=? n)%nat && (n <=? 122)%nat)
  || existsb (Ascii.eqb c) (list_ascii_of_string "!#$%&'*+-.^_`|~").

Definition valid_name (name : string) : bool :=
  negb (String.eqb name "") && forallb is_token_char (list_ascii_of_string name).

(** A string whose characters are all at most U+00FF, which is what a
    [ByteString] takes: in UTF-8 such a character is one byte below 128,
    or the byte 194 or 195 followed by one continuation byte. *)
Fixpoint is_byte_string (s : string) : bool :=
  match s with
  | EmptyString => true
  | String c s' =>
      let n := nat_of_ascii c in
      if (n <? 128)%nat then is_byte_string s'
      else if (n =? 194)%nat || (n =? 195)%nat then
        match s' with
        | String d s'' =>
            (128 <=? nat_of_ascii d)%nat && (nat_of_ascii d <=? 191)%nat
            && is_byte_string s''
        | EmptyString => false
        end
      else false
  end.

(** A header value is a [ByteString] that, once normalised, holds no
    NUL, line feed or carriage return. *)
Definition valid_value (value : string) : bool :=
  is_byte_string value
  && forallb (fun c => let n := nat_of_ascii c in
                       negb ((n =? 0)%nat || (n =? 10)%nat || (n =? 13)%nat))
             (list_ascii_of_string (normalize value)).

(** [headers.append(name, value)] *)
Definition append (h : t) (name value : string) : t :=
  (h ++ [(Js.toLowerAscii name, normalize value)])%list.

Fixpoint replace_first (name value : string) (h : t) : t :=
  match h with
  | [] => []
  | e :: more =>
      if named name e
      then (fst e, normalize value) :: filter (fun e' => negb (named name e')) more
      else e :: replace_first name value more
  end.

(** [headers.set(name, value)]: the first header of that name takes the
    value and the others are removed; appended when there is none. *)
Definition set (h : t) (name value : string) : t :=
  if has h name then replace_first name value h else append h name value.

(** [new Headers(init)] for an object literal. *)
Definition of_list (init : list (string * string)) : t :=
  fold_left (fun h e => append h (fst e) (snd e)) init empty.

End Headers.

(** ** What the platform provides *)

(** The fields of a [URL] object that the code reads. *)
Record URL : Type := {
  href : string;
  pathname : string;
  search : string
}.

(** Library functions of Bun, Node and the WHATWG classes, which the
    repository calls and does not define. *)
Class Runtime : Type := {
  (** [path.normalize(p)] *)
  path_normalize : string -> string;
  (** [decodeURIComponent(s)]; [None] when it throws [URIError] *)
  decodeURIComponent : string -> option string;
  (** [new URL(s)]; [None] when [URL.canParse(s)] is false *)
  URL_parse : string -> option URL;
  (** [new URL(relative, base).toString()]; [None] when it throws *)
  URL_resolve : string -> URL -> option string;
  (** [Bun.file(path).type] *)
  mime_type : string -> string;
  (** [new Date(ms).toUTCString()] *)
  toUTCString : Z -> string;
  (** [new Bun.Glob(pattern).match(candidate)] *)
  glob_match : string -> string -> bool;
  (** [s.toUpperCase()] *)
  toUpperCase : string -> string;
  (** [Buffer.from(s, 'base64')] *)
  base64_decode : string -> list byte;
  (** [Buffer.from(bytes).toString('base64')] *)
  base64_encode : list byte -> string;
  (** the chunks in which a body stream of these bytes is read *)
  stream_chunks : list byte -> list (list byte)
}.

(** An entry of the file system. *)
Inductive Node : Type :=
| File (content : list byte) (mtimeMs : Z)
| Directory.

(** What a process finds when it starts: the file system (paths as the
    code spells them), [Bun.env.IGNORE_FILES], [manifest.appDir] and
    [globalThis[SYM_BASE_PATH]]. *)
Record World : Type := {
  fs : string -> option Node;
  IGNORE_FILES : option string;
  appDir : string;
  SYM_BASE_PATH : string;
  (** the size of a file is a safe integer, which a Number holds as it is *)
  safe_sizes : forall path content ms,
    fs path = Some (File content ms) -> Z.of_nat (List.length content) < Js.safe
}.

(** ** Static file resolver ([files/handle.ts]) *)

Module Static.

Local Open Scope string_scope.
Local Open Scope Z_scope.

(** The fields of [fs.Stats] that the code reads; [mtimeMs] in whole
    milliseconds, also for the [Date] in [mtime]. *)
Record Stats : Type := {
  size : Z;
  mtimeMs : Z;
  isFile : bool
}.

(** The body of a [Response]. *)
Inductive Body : Type :=
| Text (s : string)
| Bytes (b : list byte)
| BunFile (path : string)
| BunFileSlice (path : string) (start end_ : Z).

Record Response : Type := {
  status : Z;
  statusText : string;
  headers : Headers.t;
  body : option Body
}.

(** The fields of [HandleOptions]. *)
Record HandleOptions : Type := {
  method : string;
  url : URL;
  clientIP : option string;
  static : bool
}.

(** The fields of the [Request] that the resolver reads. *)
Record Request : Type := {
  req_method : string;
  req_headers : Headers.t
}.

Section Resolver.

Context {rt : Runtime}.
Variable w : World.

(** [existsSync(path)] *)
Definition existsSync (path : string) : bool :=
  match fs w path with Some _ => true | None => false end.

(** [statSync(path)], called on existing paths only; of what is no
    regular file the code reads [isFile()] alone *)
Definition statSync (path : string) : option Stats :=
  match fs w path with
  | Some (File content ms) =>
      Some {| size := Z.of_nat (List.length content); mtimeMs := ms; isFile := true |}
  | Some Directory => Some {| size := 0; mtimeMs := 0; isFile := false |}
  | None => None
  end.

(** [Bun.file(path).size]; 0 for what is not a regular file *)
Definition file_size (path : string) : Z :=
  match fs w path with
  | Some (File content _) => Z.of_nat (List.length content)
  | _ => 0
  end.

(** The bytes of [Bun.file(path)] *)
Definition file_bytes (path : string) : list byte :=
  match fs w path with
  | Some (File content _) => content
  | _ => []
  end.

(** [Blob.prototype.slice(start, end)] *)
Definition blob_slice (content : list byte) (start end_ : Z) : list byte :=
  let size := Z.of_nat (List.length content) in
  let rel := fun x => if x <? 0 then Z.max (size + x) 0 else Z.min x size in
  firstn (Z.to_nat (Z.max (rel end_ - rel start) 0))
         (skipn (Z.to_nat (rel start)) content).

(** The bytes that a body delivers. *)
Definition body_bytes (b : option Body) : list byte :=
  match b with
  | None => []
  | Some (Text s) => list_byte_of_string s
  | Some (Bytes bs) => bs
  | Some (BunFile path) => file_bytes path
  | Some (BunFileSlice path start end_) => blob_slice (file_bytes path) start end_
  end.

Definition tryFiles : list string := [".html"; ".htm"; "/index.html"; "/index.htm"].

Definition statFile (path : string) : option Stats :=
  if negb (existsSync path) then None
  else match statSync path with
       | Some stats => if negb (isFile stats) then None else Some stats
       | None => None
       end.

(** The [for] loop of [lookup] over the remaining entries of [tryFiles]. *)
Fixpoint lookup_from (path : string) (tries : list string)
  : string * option Stats :=
  match tries with
  | [] => ("", None)
  | suffix :: more =>
      let tryFile := path ++ suffix in
      match statFile tryFile with
      | Some stats => (tryFile, Some stats)
      | None => lookup_from path more
      end
  end.

Definition lookup (path : string) : string * option Stats :=
  match statFile path with
  | Some stats => (path, Some stats)
  | None => lookup_from path tryFiles
  end.

(** What [/^bytes=(?:(\d+)\-(\d+)?|(\-\d+))/.exec(range)] captures:
    groups 1 and 2 of the first alternative, or group 3. *)
Inductive RangeMatch : Type :=
| FromTo (g1 : string) (g2 : option string)
| Suffix (g3 : string).

Fixpoint span_digits (s : string) : string * string :=
  match s with
  | String c s' =>
      if Js.is_digit c
      then let '(d, rest) := span_digits s' in (String c d, rest)
      else (EmptyString, s)
  | EmptyString => (EmptyString, EmptyString)
  end.

Fixpoint strip_prefix (p s : string) : option string :=
  match p, s with
  | EmptyString, _ => Some s
  | String a p', String b s' => if Ascii.eqb a b then strip_prefix p' s' else None
  | String _ _, EmptyString => None
  end.

Definition exec_range (range : string) : option RangeMatch :=
  match strip_prefix "bytes=" range with
  | None => None
  | Some rest =>
      match span_digits rest with
      | (String c d, String "-" after) =>
          match span_digits after with
          | (EmptyString, _) => Some (FromTo (String c d) None)
          | (g2, _) => Some (FromTo (String c d) (Some g2))
          end
      | (EmptyString, String "-" after) =>
          match span_digits after with
          | (EmptyString, _) => None
          | (d, _) => Some (Suffix (String "-" d))
          end
      | _ => None
      end
  end.

Definition parseRange (header : Headers.t) : option Js.number * option Js.number :=
  if negb (Headers.has header "range") then (None, None)
  else match Headers.get header "range" with
       | None => (None, None)
       | Some range =>
           match exec_range range with
           | None => (None, None)
           | Some (Suffix g3) => (Some (Js.to_number g3), None)
           | Some (FromTo g1 g2) =>
               (Some (Js.to_number g1),
                match g2 with
                | Some d => Some (Js.add (Js.to_number d) (Js.Finite 1))
                | None => None
                end)
           end
       end.

(** Truthiness of [number | null]. *)
Definition truthy (n : option Js.number) : bool :=
  match n with
  | Some x => Js.truthy x
  | None => false
  end.

(** [number | null] as an operand: [null] counts as 0. *)
Definition num (n : option Js.number) : Js.number :=
  match n with Some x => x | None => Js.Finite 0 end.

(** [.replace(/^\/$/, '')]: the pattern matches the string [/] only. *)
Definition replace_root (p : string) : string :=
  if String.eqb p "/" then "" else p.

(** The [if (env.IGNORE_FILES)] block: does a pattern match? *)
Definition ignored (normalized : string) : bool :=
  match IGNORE_FILES w with
  | None => false
  | Some patterns =>
      if Js.truthy_string patterns then
        let ignores := map Js.trim (Js.split "," patterns) in
        let candidate := Js.substring_from 1 normalized in
        existsb (fun pattern => glob_match pattern candidate) ignores
      else false
  end.

Definition header_is (h : Headers.t) (name value : string) : bool :=
  match Headers.get h name with
  | Some v => String.eqb v value
  | None => false
  end.

Definition serveStatic (request : Request) (options : HandleOptions)
  (basePath : string) (cache : bool) : Js.exn + option Response :=
  if negb (existsSync basePath) then inr None
  else if negb (String.eqb (req_method request) "GET")
          && negb (String.eqb (req_method request) "HEAD") then inr None
  else
  match decodeURIComponent (pathname (url options)) with
  | None => inl "URIError"
  | Some decoded =>
  let normalized := replace_root (path_normalize decoded) in
  if ignored normalized then inr None
  else
  let '(resolvedPath, found) := lookup (basePath ++ normalized) in
  match found with
  | None => inr None
  | Some stats =>
  if negb (String.eqb (pathname (url options)) "/")
     && Js.endsWith (pathname (url options)) "/"
  then
    match URL_resolve (normalized ++ search (url options)) (url options) with
    | None => inl "TypeError"
    | Some location =>
        inr (Some {| status := 302; statusText := "";
                     headers := Headers.of_list [("location", location)];
                     body := None |})
    end
  else
  let etag := "W/" ++ Js.show (size stats) ++ "-" ++ Js.show (mtimeMs stats) in
  let '(rangeStart, rangeEnd) := parseRange (req_headers request) in
  let headers :=
    Headers.of_list
      [("content-type", mime_type resolvedPath);
       ("content-length", Js.show (size stats));
       ("last-modified", toUTCString (mtimeMs stats));
       ("etag", etag)] in
  if header_is (req_headers request) "if-non-match" etag then
    inr (Some {| status := 304; statusText := "";
                 headers := Headers.empty; body := None |})
  else if Headers.has (req_headers request) "range" then
    if negb (truthy rangeStart) then
      let headers := Headers.set headers "content-range"
                       ("bytes */" ++ Js.show (size stats)) in
      let headers := Headers.set headers "content-length" "0" in
      inr (Some {| status := 416; statusText := "";
                   headers := headers; body := None |})
    else
      let '(startBytes, endBytes) :=
        if Js.ltb (num rangeStart) (Js.Finite 0)
        then (Js.add (Js.Finite (size stats)) (num rangeStart), Js.Finite (size stats))
        else (num rangeStart,
              if truthy rangeEnd then Js.add (num rangeEnd) (Js.Finite 1)
              else Js.Finite (size stats)) in
      if Js.leb endBytes startBytes || Js.ltb startBytes (Js.Finite 0)
         || Js.ltb (Js.Finite (size stats)) endBytes
      then
        let headers := Headers.set headers "content-range"
                         ("bytes */" ++ Js.show (size stats)) in
        let headers := Headers.set headers "content-length" "0" in
        inr (Some {| status := 416; statusText := "";
                     headers := headers; body := None |})
      else
        let headers := Headers.set headers "content-range"
                         ("bytes " ++ Js.show_number startBytes ++ "-"
                          ++ Js.show_number (Js.sub endBytes (Js.Finite 1))
                          ++ "/" ++ Js.show (size stats)) in
        let headers := Headers.set headers "content-length"
                         (Js.show_number (Js.sub endBytes startBytes)) in
        let headers := Headers.set headers "accept-range" "bytes" in
        inr (Some {| status := 206; statusText := ""; headers := headers;
                     body := Some (BunFileSlice resolvedPath
                                     (Js.clamp startBytes) (Js.clamp endBytes)) |})
  else
  let headers :=
    if cache then
      Headers.set headers "cache-control"
        (if Js.startsWith normalized ("/" ++ appDir w ++ "/immutable/")
         then "public,max-age=604800,immutable"
         else "public,max-age=14400")
    else headers in
  if negb (Headers.has (req_headers request) "accept-encoding") then
    inr (Some {| status := 200; statusText := ""; headers := headers;
                 body := Some (BunFile resolvedPath) |})
  else
  match Headers.get (req_headers request) "accept-encoding" with
  | None => inl "TypeError"
  | Some ac =>
  if existsSync (resolvedPath ++ ".gz") && Js.includes ac "gzip" then
    let headers := Headers.set headers "content-length"
                     (Js.show (file_size (resolvedPath ++ ".gz"))) in
    let headers := Headers.set headers "content-encoding" "gzip" in
    inr (Some {| status := 200; statusText := ""; headers := headers;
                 body := Some (BunFile (resolvedPath ++ ".gz")) |})
  else if existsSync (resolvedPath ++ ".br") && Js.includes ac "br" then
    let headers := Headers.set headers "content-encoding" "br" in
    inr (Some {| status := 200; statusText := ""; headers := headers;
                 body := Some (BunFile (resolvedPath ++ ".br")) |})
  else
    inr (Some {| status := 200; statusText := ""; headers := headers;
                 body := Some (BunFile resolvedPath) |})
  end
  end
  end.

End Resolver.

End Static.

(** ** Promises on a logical clock

    The runtime is single-threaded and event-driven ([handle.ts]
    suspends at [await] and in promise callbacks only).  An asynchronous
    computation is described by the tick at which it settles, by how it
    settles, and by the effects on the process it had until then, each
    with its tick. *)

Module Async.

(** An effect on the process. *)
Inductive Event : Type :=
| Stdout (line : list Js.atom)  (* [process.stdout.write(JSON.stringify(line) + '\n')] *)
| Stderr (e : Js.exn)           (* [console.error(e)] *)
| WaitsAdd (done : nat)         (* [waits.add(p)] for a [p] that settles at [done] *)
| Exit (code : Z).              (* [process.exit(code)] *)

Record t (A : Type) : Type := {
  settles : nat;
  result : Js.exn + A;
  effects : list (nat * Event)
}.
Arguments settles {A} _.
Arguments result {A} _.
Arguments effects {A} _.

(** A promise already fulfilled at [now]. *)
Definition resolved {A : Type} (now : nat) (a : A) : t A :=
  {| settles := now; result := inr a; effects := [] |}.

(** A promise already rejected at [now]. *)
Definition rejected {A : Type} (now : nat) (e : Js.exn) : t A :=
  {| settles := now; result := inl e; effects := [] |}.

(** [p.then(f)]: [f] runs when [p] fulfils, and a rejection passes. *)
Definition then_ {A B : Type} (p : t A) (f : nat -> A -> t B) : t B :=
  match result p with
  | inr a =>
      let q := f (settles p) a in
      {| settles := settles q; result := result q;
         effects := effects p ++ effects q |}
  | inl e =>
      {| settles := settles p; result := inl e; effects := effects p |}
  end.

(** [p.catch(f)]: [f] runs when [p] rejects, and a value passes. *)
Definition catch_ {A : Type} (p : t A) (f : nat -> Js.exn -> t A) : t A :=
  match result p with
  | inr a => p
  | inl e =>
      let q := f (settles p) e in
      {| settles := settles q; result := result q;
         effects := effects p ++ effects q |}
  end.

(** [p.finally(f)]: [f] runs when [p] settles either way; the outcome of
    [p] passes unless [f] rejects. *)
Definition finally_ {A : Type} (p : t A) (f : nat -> t unit) : t A :=
  let q := f (settles p) in
  {| settles := settles q;
     result := match result q with inl e => inl e | inr _ => result p end;
     effects := effects p ++ effects q |}.

(** A promise, by the tick at which it settles. *)
Definition pending {A : Type} (done : nat) (r : Js.exn + A) : t A :=
  {| settles := done; result := r; effects := [] |}.

(** [Promise.allSettled(ps)] called at [now]: fulfils once every
    promise of [ps] has settled, whatever their outcomes. *)
Definition allSettled {A : Type} (now : nat) (ps : list (t A)) : t unit :=
  {| settles := fold_left (fun m p => Nat.max m (settles p)) ps now;
     result := inr tt;
     effects := [] |}.

(** The calls of [process.exit] among some effects. *)
Definition exits (l : list (nat * Event)) : list (nat * Event) :=
  filter (fun ev => match snd ev with Exit _ => true | _ => false end) l.

(** The lines written on standard output among some effects. *)
Definition writes (l : list (nat * Event)) : list (nat * Event) :=
  filter (fun ev => match snd ev with Stdout _ => true | _ => false end) l.

(** The effects of the ticks up to [stop], of the ticks before [stop]:
    what has happened of some effects when the process ends. *)
Definition until (stop : nat) (l : list (nat * Event)) : list (nat * Event) :=
  filter (fun ev => fst ev <=? stop)%nat l.

Definition before (stop : nat) (l : list (nat * Event)) : list (nat * Event) :=
  filter (fun ev => fst ev <? stop)%nat l.

(** A computation that ends the process when it settles: the effects
    of later ticks do not happen. *)
Definition last {A : Type} (p : t A) : t A :=
  {| settles := settles p; result := result p;
     effects := until (settles p) (effects p) |}.

End Async.

(** ** Request assembler, dispatcher, serializer, lifecycle
       ([files/handle.ts]) *)

Module Handle.

Import Static.
Local Open Scope string_scope.
Local Open Scope nat_scope.

(** A promise made by code that is not the adapter's: the ticks it
    takes to settle and how it settles. *)
Record Settles (A : Type) : Type := {
  after : nat;
  outcome : Js.exn + A
}.
Arguments after {A} _.
Arguments outcome {A} _.

(** The promise, started at [now]. *)
Definition start {A : Type} (now : nat) (p : Settles A) : Async.t A :=
  Async.pending (now + after p) (outcome p).

(** The [PassThrough] that is the body of the request, and the state of
    the [AbortController]: the chunks written, whether [end] has been
    called, and whether the stream has been destroyed with an error, which
    makes the body of the request fail. *)
Record Pipe : Type := {
  chunks : list (list byte);
  ended : bool;
  errored : bool;
  aborted : bool
}.

(** The framework's [Server] ([globalThis[SYM_SERVER]]): [init],
    [respond], and the calls of [waitUntil] that handling a request
    makes, each with the ticks after the call of [respond] at which it
    is made and the promise it registers. *)
Record Framework : Type := {
  init : Settles unit;
  respond : Request -> Pipe -> (unit -> Js.exn + string) -> Settles Response;
  waitUntil_calls : Request -> Pipe -> list (nat * Settles unit)
}.

(** The standard output of the process: the ticks a write takes to be
    accepted, and the error that a write made at a tick ends with. *)
Record Host : Type := {
  write_takes : nat;
  write_error : nat -> option Js.exn
}.

Section Process.

Context {rt : Runtime}.
Variable w : World.
Variable server : Framework.
Variable host : Host.

(** [console.error(err)], the console being on standard error *)
Definition console_error (err : Js.exn) (now : nat) : Async.t unit :=
  {| Async.settles := now; Async.result := inr tt;
     Async.effects := [(now, Async.Stderr err)] |}.

(** [wu.waitUntil(promise)], called at [now]:
    [waits.add(promise.catch(console.error))] *)
Definition waitUntil (promise : Settles unit) (now : nat) : list (nat * Async.Event) :=
  let caught := Async.catch_ (start now promise) (fun t err => console_error err t) in
  (now, Async.WaitsAdd (Async.settles caught)) :: Async.effects caught.

(** The members of [waits] at [now], given the effects so far. *)
Fixpoint waits_at (effects : list (nat * Async.Event)) (now : nat) : list (Async.t unit) :=
  match effects with
  | [] => []
  | (added, Async.WaitsAdd done) :: more =>
      if (added <=? now)%nat
      then Async.pending done (inr tt) :: waits_at more now
      else waits_at more now
  | _ :: more => waits_at more now
  end.

Definition notFound : Response :=
  {| status := 404; statusText := "";
     headers := Headers.of_list [("content-type", "text/plain")];
     body := Some (Text "404 Not Found") |}.

Fixpoint firstResolve
  (resolvers : list (option (nat -> Async.t (option Response)))) (now : nat)
  : Async.t Response :=
  match resolvers with
  | [] => Async.resolved now notFound
  | None :: more => firstResolve more now
  | Some resolver :: more =>
      Async.then_ (resolver now)
        (fun t res =>
           match res with
           | Some res => Async.resolved t res
           | None => firstResolve more t
           end)
  end.

Definition getClientAddress (options : HandleOptions) (_ : unit) : Js.exn + string :=
  match clientIP options with
  | Some ip =>
      if Js.truthy_string ip then inr ip
      else inl "Unable to determine client IP."
  | None => inl "Unable to determine client IP."
  end.

(** The third resolver of [serve]: the framework, and the calls of
    [waitUntil] that it makes. *)
Definition respond_with (request : Request) (pipe : Pipe)
  (options : HandleOptions) (now : nat) : Async.t (option Response) :=
  Async.then_ (start now (init server))
    (fun t _ =>
       let answer := start t (respond server request pipe (getClientAddress options)) in
       {| Async.settles := Async.settles answer;
          Async.result :=
            match Async.result answer with
            | inr res => inr (Some res)
            | inl e => inl e
            end;
          Async.effects :=
            flat_map (fun call => waitUntil (snd call) (t + fst call))
                     (waitUntil_calls server request pipe) |}).

Definition serve (request : Request) (pipe : Pipe) (options : HandleOptions)
  (now : nat) : Async.t Response :=
  firstResolve
    [ (if static options
       then Some (fun t =>
              Async.pending t
                (serveStatic w request options (SYM_BASE_PATH w ++ "/client") true))
       else None);
      Some (fun t =>
              Async.pending t
                (serveStatic w request options (SYM_BASE_PATH w ++ "/prerendered") false));
      Some (respond_with request pipe options) ]
    now.

(** [writeOut(data)]: one line on standard output; the promise settles
    when the write has been accepted or has failed. *)
Definition writeOut (data : list Js.atom) (now : nat) : Async.t unit :=
  match write_error host now with
  | Some err => Async.rejected (now + write_takes host) err
  | None =>
      {| Async.settles := now + write_takes host; Async.result := inr tt;
         Async.effects := [(now + write_takes host, Async.Stdout data)] |}
  end.

Fixpoint insert_name (name : string) (names : list string) : list string :=
  match names with
  | [] => [name]
  | n :: more =>
      if String.eqb name n then names
      else if String.ltb name n then name :: names
      else n :: insert_name name more
  end.

(** The order in which [Headers.prototype.forEach] of Bun visits a
    header list: the names other than [set-cookie] in sorted order, the
    values of a name combined; then the [set-cookie] headers, one by one,
    in the order of insertion. *)
Definition forEach (h : Headers.t) : list (string * string) :=
  let cookies := filter (Headers.named "set-cookie") h in
  let others := filter (fun e => negb (Headers.named "set-cookie" e)) h in
  (flat_map
     (fun name =>
        match Headers.get h name with
        | Some value => [(name, value)]
        | None => []
        end)
     (fold_right (fun e names => insert_name (fst e) names) [] others)
   ++ cookies)%list.

(** The [for] loop of [writeResponse] over the header entries. *)
Fixpoint write_headers (entries : list (string * string)) (now : nat) : Async.t unit :=
  match entries with
  | [] => Async.resolved now tt
  | (key, val) :: more =>
      Async.then_ (writeOut [Js.Str "header"; Js.Str key; Js.Str val] now)
        (fun t _ => write_headers more t)
  end.

(** The [while (true)] loop of [writeResponse] over the chunks that
    the reader delivers; the read after the last chunk is [done]. *)
Fixpoint write_body (reads : list (list byte)) (now : nat) : Async.t unit :=
  match reads with
  | [] => writeOut [Js.Str "end-body"] now
  | value :: more =>
      Async.then_ (writeOut [Js.Str "data"; Js.Str (base64_encode value)] now)
        (fun t _ => write_body more t)
  end.

Definition writeResponse (res : Response) (ignoreBody : bool) (now : nat)
  : Async.t unit :=
  Async.then_ (writeOut [Js.Str "status"; Js.Num (status res); Js.Str (statusText res)] now)
    (fun t _ =>
  Async.then_ (write_headers (forEach (headers res)) t)
    (fun t _ =>
  Async.then_ (writeOut [Js.Str "start-body"] t)
    (fun t _ =>
  match body res with
  | None => writeOut [Js.Str "end-body"] t
  | Some b =>
      if ignoreBody then writeOut [Js.Str "end-body"] t
      else write_body (stream_chunks (body_bytes w (Some b))) t
  end))).

(** The promise that the [start-body] case builds, up to [.catch]:
    [serve(req, options).then(...).catch(...)]. *)
Definition answered (request : Request) (pipe : Pipe) (options : HandleOptions)
  (now : nat) : Async.t unit :=
  Async.catch_
    (Async.then_ (serve request pipe options now)
       (fun t res => writeResponse res (String.eqb (req_method request) "HEAD") t))
    (fun t err => console_error err t).

(** [process.exit(code)] *)
Definition process_exit (code : Z) (now : nat) : Async.t unit :=
  {| Async.settles := now; Async.result := inr tt;
     Async.effects := [(now, Async.Exit code)] |}.

(** The whole chain of the [start-body] case, with its [.finally]:
    [await Promise.allSettled(waits); process.exit(0)].  The exit ends
    the process: what serving the request would do at later ticks (a
    late call of [waitUntil], the log of a late rejection) does not
    happen. *)
Definition dispatch (request : Request) (pipe : Pipe) (options : HandleOptions)
  (now : nat) : Async.t unit :=
  let chain := answered request pipe options now in
  Async.last
    (Async.finally_ chain
       (fun t =>
          Async.then_ (Async.allSettled t (waits_at (Async.effects chain) t))
            (fun t' _ => process_exit 0 t'))).

End Process.

(** The variables that the ['line'] listener of [handle] closes over:
    [headers], [bodyStart], the pipe with the abort controller, and the
    requests that it has passed to [serve], the latest last. *)
Record Assembler : Type := {
  headers : Headers.t;
  bodyStart : bool;
  pipe : Pipe;
  served : list Request
}.

Definition assembler0 : Assembler :=
  {| headers := Headers.empty; bodyStart := false;
     pipe := {| chunks := []; ended := false; errored := false; aborted := false |};
     served := [] |}.

Definition is_cmd (cmd : option string) (name : string) : bool :=
  match cmd with
  | Some c => String.eqb c name
  | None => false
  end.

(** A parameter handed to a function that takes a string. *)
Definition to_string (param : option string) : string :=
  match param with
  | Some s => s
  | None => "undefined"
  end.

(** [pipe.write(chunk)]: a write after [end] destroys the stream with
    the error [ERR_STREAM_WRITE_AFTER_END]; a destroyed stream takes
    nothing. *)
Definition pipe_write (p : Pipe) (chunk : list byte) : Pipe :=
  if errored p then p
  else if ended p then
    {| chunks := chunks p; ended := true; errored := true; aborted := aborted p |}
  else
    {| chunks := chunks p ++ [chunk]; ended := false; errored := false;
       aborted := aborted p |}.

(** [pipe.end()] *)
Definition pipe_end (p : Pipe) : Pipe :=
  {| chunks := chunks p; ended := true; errored := errored p; aborted := aborted p |}.

(** [abort.abort()] *)
Definition abort_abort (p : Pipe) : Pipe :=
  {| chunks := chunks p; ended := ended p; errored := errored p; aborted := true |}.

Section Listener.

Context {rt : Runtime}.
Variable options : HandleOptions.

(** The ['line'] listener.  Its argument is what [JSON.parse(line)]
    gives, an array of strings, or [None] when [JSON.parse] throws. *)
Definition listener (line : option (list string)) (a : Assembler)
  : Js.exn + Assembler :=
  match line with
  | None => inl "SyntaxError"
  | Some array =>
      let cmd := hd_error array in
      let params := tl array in
      if negb (bodyStart a) then
        if is_cmd cmd "header" then
          let name := to_string (nth_error params 0) in
          let value := to_string (nth_error params 1) in
          if Headers.valid_name name && Headers.valid_value value
          then inr {| headers := Headers.append (headers a) name value;
                      bodyStart := bodyStart a; pipe := pipe a;
                      served := served a |}
          else inl "TypeError"
        else if is_cmd cmd "start-body" then
          let req := {| req_method := method options;
                        req_headers := headers a |} in
          inr {| headers := headers a; bodyStart := true; pipe := pipe a;
                 served := served a ++ [req] |}
        else inr a
      else if negb (aborted (pipe a)) then
        if is_cmd cmd "data" then
          match nth_error params 0 with
          | Some payload =>
              inr {| headers := headers a; bodyStart := bodyStart a;
                     pipe := pipe_write (pipe a) (base64_decode payload);
                     served := served a |}
          | None => inl "TypeError"
          end
        else if is_cmd cmd "end-body" then
          inr {| headers := headers a; bodyStart := bodyStart a;
                 pipe := pipe_end (pipe a); served := served a |}
        else if is_cmd cmd "abort" then
          inr {| headers := headers a; bodyStart := bodyStart a;
                 pipe := abort_abort (pipe_end (pipe a)); served := served a |}
        else inr a
      else inr a
  end.

(** The listener over the lines of the inbound stream, in order; an
    exception that leaves the listener ends the process. *)
Fixpoint run (lines : list (option (list string))) (a : Assembler)
  : Assembler * option Js.exn :=
  match lines with
  | [] => (a, None)
  | line :: more =>
      match listener line a with
      | inr a' => run more a'
      | inl e => (a, Some e)
      end
  end.

(** [handle(options)], for the lines that arrive on standard input: the
    listener's variables at the end, and the exception that ended the
    process if one did.  The promise chain that the [start-body] case
    starts for the request it passes to [serve] is [dispatch]. *)
Definition handle (lines : list (option (list string)))
  : Assembler * option Js.exn :=
  run lines assembler0.

End Listener.

Section Program.

Context {rt : Runtime}.
Variable w : World.
Variable server : Framework.
Variable host : Host.
Variable options : HandleOptions.

(** An exception that nothing catches: the runtime reports it on
    standard error and the process ends with status 1. *)
Definition uncaught (e : Js.exn) (now : nat) : list (nat * Async.Event) :=
  [(now, Async.Stderr e); (now, Async.Exit 1)].

(** The request that a call of the listener has passed to [serve]. *)
Definition passed (a a' : Assembler) : option Request :=
  hd_error (skipn (List.length (served a)) (served a')).

(** The body of the request: the pipe with what the lines that follow
    put into it. *)
Definition body_of (more : list (nat * option (list string))) (a : Assembler) : Pipe :=
  pipe (fst (run options (map snd more) a)).

Definition effects_of (chain : option (Async.t unit)) : list (nat * Async.Event) :=
  match chain with
  | Some p => Async.effects p
  | None => []
  end.

(** Has the chain ended the process before [now]? *)
Definition exited (chain : option (Async.t unit)) (now : nat) : bool :=
  match chain with
  | Some p => Async.settles p <? now
  | None => false
  end.

(** The process from the call of [handle(options)] on.  The input is
    the lines that the reader emits, each with the tick at which the
    listener gets it; [chain] is the promise chain of the [start-body]
    case once it has started.  A line of a tick is handled before the
    promise callbacks of that tick.  The process ends when the chain
    calls [process.exit], or when an exception leaves the listener;
    what it does when the input ends before either is left open. *)
Fixpoint process (input : list (nat * option (list string))) (a : Assembler)
  (chain : option (Async.t unit)) : list (nat * Async.Event) :=
  match input with
  | [] => effects_of chain
  | (now, line) :: more =>
      if exited chain now then effects_of chain
      else
        match listener options line a with
        | inl e => (Async.before now (effects_of chain) ++ uncaught e now)%list
        | inr a' =>
            process more a'
              (match passed a a' with
               | Some req =>
                   Some (dispatch w server host req (body_of more a') options now)
               | None => chain
               end)
        end
  end.

(** [handle(options)] with the input of the process: all its effects. *)
Definition program (input : list (nat * option (list string)))
  : list (nat * Async.Event) :=
  process input assembler0 None.

End Program.

End Handle.

(** ** The [render] command ([files/index.ts]) *)

Module Cli.

Local Open Scope string_scope.

(** What the argument parser leaves in a field of [opts]. *)
Inductive value : Type :=
| Undefined
| Flag (b : bool)
| Number (n : Z)
| Text (s : string).

Record Opts : Type := {
  url : value;
  method : value;
  clientIp : value;
  static : value
}.

Definition methods : list string := ["GET"; "HEAD"; "POST"; "PUT"; "PATCH"; "OPTIONS"].

(** A value interpolated into a template literal. *)
Definition interpolate (v : value) : string :=
  match v with
  | Undefined => "undefined"
  | Flag true => "true"
  | Flag false => "false"
  | Number n => Js.show n
  | Text s => s
  end.

(** [Boolean(v)] *)
Definition Boolean (v : value) : bool :=
  match v with
  | Undefined => false
  | Flag b => b
  | Number n => Js.truthy_number n
  | Text s => Js.truthy_string s
  end.

Section Action.

Context {rt : Runtime}.

(** The action of the [render] command: it throws, or it calls
    [handle] with these options. *)
Definition action (opts : Opts) : Js.exn + Static.HandleOptions :=
  match url opts with
  | Text u =>
      match URL_parse u with
      | None => inl "url option need to be a valid url."
      | Some parsed =>
          match method opts with
          | Text m =>
              let method := toUpperCase m in
              if negb (existsb (String.eqb method) methods)
              then inl ("invalid method: " ++ method)
              else
                let serveStatic := Boolean (static opts) in
                let clientIP := interpolate (clientIp opts) in
                inr {| Static.method := method;
                       Static.url := parsed;
                       Static.clientIP := Some clientIP;
                       Static.static := serveStatic |}
          | _ => inl "method must be a string."
          end
      end
  | _ => inl "url option need to be a valid url."
  end.

(** The [render] command: an exception of the action is caught by
    nothing; otherwise the process is that of [handle]. *)
Definition render (w : World) (server : Handle.Framework) (host : Handle.Host)
  (opts : Opts) (input : list (nat * option (list string)))
  : list (nat * Async.Event) :=
  match action opts with
  | inl e => Handle.uncaught e 0
  | inr options => Handle.program w server host options input
  end.

End Action.

End Cli.

(** ** A POSIX host for the examples

    An instance of [Runtime] and a [World] on which the definitions can
    be run.  [path_normalize] is the POSIX algorithm; base64 is RFC 4648.
    The other fields agree with the platform on the domain that each
    comment states, and the examples stay inside it. *)

Module Sample.

Local Open Scope string_scope.

Fixpoint join_with (sep : string) (pieces : list string) : string :=
  match pieces with
  | [] => ""
  | [p] => p
  | p :: more => p ++ sep ++ join_with sep more
  end.

(** [normalizeString] of Node's [path.posix], on the segments in
    reverse order. *)
Fixpoint normalize_segments (absolute : bool) (done : list string)
  (segments : list string) : list string :=
  match segments with
  | [] => rev done
  | seg :: more =>
      if String.eqb seg "" || String.eqb seg "." then
        normalize_segments absolute done more
      else if String.eqb seg ".." then
        match done with
        | [] => normalize_segments absolute (if absolute then [] else [".."]) more
        | last :: before =>
            if String.eqb last ".."
            then normalize_segments absolute (".." :: done) more
            else normalize_segments absolute before more
        end
      else normalize_segments absolute (seg :: done) more
  end.

(** [path.posix.normalize] *)
Definition normalize (path : string) : string :=
  if String.eqb path "" then "."
  else
    let absolute := Js.startsWith path "/" in
    let trailing := Js.endsWith path "/" in
    let body := join_with "/" (normalize_segments absolute [] (Js.split "/" path)) in
    if String.eqb body "" then
      if absolute then "/" else if trailing then "./" else "."
    else
      let body := if trailing then body ++ "/" else body in
      if absolute then "/" ++ body else body.

(** [decodeURIComponent] on strings without a percent sign, which it
    returns as they are; other strings are outside the examples. *)
Definition decode (s : string) : option string :=
  if Js.includes s "%" then None else Some s.

Fixpoint until (stop : ascii -> bool) (s : string) : string * string :=
  match s with
  | EmptyString => (EmptyString, EmptyString)
  | String c s' =>
      if stop c then (EmptyString, s)
      else let '(before, rest) := until stop s' in (String c before, rest)
  end.

Definition scheme_rest (s : string) : option (string * string) :=
  match Static.strip_prefix "http://" s with
  | Some rest => Some ("http://", rest)
  | None =>
      match Static.strip_prefix "https://" s with
      | Some rest => Some ("https://", rest)
      | None => None
      end
  end.

(** [new URL(s)] on [http://host/path?query] and [https://...] with a
    lower-case host, no port, credentials, fragment, dot segment or
    character that the URL parser would rewrite. *)
Definition parse_url (s : string) : option URL :=
  match scheme_rest s with
  | None => None
  | Some (scheme, rest) =>
      let '(host, after_host) :=
        until (fun c => Ascii.eqb c "/" || Ascii.eqb c "?") rest in
      if String.eqb host "" then None
      else
        let '(path, query) := until (fun c => Ascii.eqb c "?") after_host in
        let path := if String.eqb path "" then "/" else path in
        Some {| href := scheme ++ host ++ path ++ query;
                pathname := path;
                search := if String.eqb query "?" then "" else query |}
  end.

Definition origin (u : URL) : string :=
  match scheme_rest (href u) with
  | None => ""
  | Some (scheme, rest) =>
      scheme ++ fst (until (fun c => Ascii.eqb c "/" || Ascii.eqb c "?") rest)
  end.

(** [new URL(relative, base).toString()] on a relative reference that
    is empty, a query, or an absolute path with at most a query, under
    the restrictions of [parse_url]. *)
Definition resolve_url (relative : string) (base : URL) : option string :=
  if String.eqb relative "" then Some (href base)
  else if Js.startsWith relative "//" then None
  else if Js.startsWith relative "/" then Some (origin base ++ relative)
  else if Js.startsWith relative "?" then Some (origin base ++ pathname base ++ relative)
  else None.

(** [Bun.file(path).type] for a few extensions. *)
Definition mime (path : string) : string :=
  if Js.endsWith path ".html" then "text/html;charset=utf-8"
  else if Js.endsWith path ".txt" then "text/plain;charset=utf-8"
  else if Js.endsWith path ".js" then "text/javascript;charset=utf-8"
  else "application/octet-stream".

Definition two_digits (n : Z) : string :=
  if (n <? 10)%Z then "0" ++ Js.show n else Js.show n.

(** [new Date(ms).toUTCString()] within the first day of the epoch. *)
Definition utc_string (ms : Z) : string :=
  let s := (ms / 1000)%Z in
  "Thu, 01 Jan 1970 " ++ two_digits (s / 3600 mod 24)%Z ++ ":"
    ++ two_digits (s / 60 mod 60)%Z ++ ":" ++ two_digits (s mod 60)%Z ++ " GMT".

(** [s.toUpperCase()] on ASCII. *)
Definition upper_ascii (c : ascii) : ascii :=
  let n := nat_of_ascii c in
  if (97 <=? n)%nat && (n <=? 122)%nat then ascii_of_nat (n - 32) else c.

Fixpoint upper (s : string) : string :=
  match s with
  | EmptyString => EmptyString
  | String c s' => String (upper_ascii c) (upper s')
  end.

Definition alphabet : list ascii :=
  list_ascii_of_string
    "ABCDEFGHIJKLMNOPQRSTUVWXYZabcdefghijklmnopqrstuvwxyz0123456789+/".

Definition digit64 (n : N) : ascii := nth (N.to_nat (n mod 64)) alphabet "="%char.

Definition byte_of (n : N) : byte :=
  match Byte.of_N (n mod 256) with
  | Some b => b
  | None => x00
  end.

(** [Buffer.from(bytes).toString('base64')] *)
Fixpoint encode64 (bytes : list byte) : string :=
  match bytes with
  | [] => ""
  | [a] =>
      let n := (Byte.to_N a * 65536)%N in
      String (digit64 (n / 262144)) (String (digit64 (n / 4096)) "==")
  | [a; b] =>
      let n := (Byte.to_N a * 65536 + Byte.to_N b * 256)%N in
      String (digit64 (n / 262144))
        (String (digit64 (n / 4096)) (String (digit64 (n / 64)) "="))
  | a :: b :: c :: more =>
      let n := (Byte.to_N a * 65536 + Byte.to_N b * 256 + Byte.to_N c)%N in
      String (digit64 (n / 262144))
        (String (digit64 (n / 4096))
           (String (digit64 (n / 64)) (String (digit64 n) (encode64 more))))
  end.

Fixpoint position (c : ascii) (l : list ascii) (i : N) : option N :=
  match l with
  | [] => None
  | d :: more => if Ascii.eqb c d then Some i else position c more (i + 1)%N
  end.

(** The digits of a base64 string up to the padding; the URL-safe
    digits count and what is no digit is skipped, as [Buffer.from] does. *)
Fixpoint sextets (s : string) : list N :=
  match s with
  | EmptyString => []
  | String c s' =>
      if Ascii.eqb c "=" then []
      else if Ascii.eqb c "-" then 62%N :: sextets s'
      else if Ascii.eqb c "_" then 63%N :: sextets s'
      else match position c alphabet 0 with
           | Some n => n :: sextets s'
           | None => sextets s'
           end
  end.

Fixpoint bytes_of (digits : list N) : list byte :=
  match digits with
  | a :: b :: c :: d :: more =>
      let n := (a * 262144 + b * 4096 + c * 64 + d)%N in
      byte_of (n / 65536) :: byte_of (n / 256) :: byte_of n :: bytes_of more
  | [a; b; c] =>
      let n := (a * 262144 + b * 4096 + c * 64)%N in
      [byte_of (n / 65536); byte_of (n / 256)]
  | [a; b] =>
      let n := (a * 262144 + b * 4096)%N in
      [byte_of (n / 65536)]
  | _ => []
  end.

(** [Buffer.from(s, 'base64')] *)
Definition decode64 (s : string) : list byte := bytes_of (sextets s).

(** A body that is read in one chunk. *)
Definition one_chunk (bytes : list byte) : list (list byte) :=
  match bytes with
  | [] => []
  | _ => [bytes]
  end.

Definition runtime : Runtime :=
  {| path_normalize := normalize;
     decodeURIComponent := decode;
     URL_parse := parse_url;
     URL_resolve := resolve_url;
     mime_type := mime;
     toUTCString := utc_string;
     glob_match := String.eqb;   (* a pattern without wildcards *)
     toUpperCase := upper;
     base64_decode := decode64;
     base64_encode := encode64;
     stream_chunks := one_chunk |}.

(** The path that the kernel resolves: no empty segment. *)
Definition canonical (path : string) : string :=
  "/" ++ join_with "/"
           (filter (fun seg => negb (String.eqb seg "")) (Js.split "/" path)).

(** A file system given by its entries, for paths without [.], [..]
    and symbolic links; a path with a trailing slash names a directory. *)
Definition fs_of (entries : list (string * Node)) (path : string) : option Node :=
  match find (fun e => String.eqb (fst e) (canonical path)) entries with
  | Some (_, Directory) => Some Directory
  | Some (_, File content ms) =>
      if Js.endsWith path "/" then None else Some (File content ms)
  | None => None
  end.

Definition entries : list (string * Node) :=
  [ ("/srv", Directory);
    ("/srv/client", Directory);
    ("/srv/client/data.txt", File (list_byte_of_string "0123456789") 1000);
    ("/srv/client/data.txt.gz", File (list_byte_of_string "GZIP") 1000);
    ("/srv/client/data.txt.br", File (list_byte_of_string "BRO") 1000);
    ("/srv/client/foo", Directory);
    ("/srv/client/foo/index.html", File (list_byte_of_string "<p>foo</p>") 2000);
    ("/srv/prerendered", Directory);
    ("/srv/prerendered/about.html", File (list_byte_of_string "<p>about</p>") 3000) ].

Definition safe_entry (e : string * Node) : bool :=
  match snd e with
  | File content _ => (Z.of_nat (List.length content) <? Js.safe)%Z
  | Directory => true
  end.

Lemma fs_of_safe (entries : list (string * Node)) :
  forallb safe_entry entries = true ->
  forall path content ms,
    fs_of entries path = Some (File content ms) ->
    (Z.of_nat (List.length content) < Js.safe)%Z.
Proof.
  intros Hall path content ms. unfold fs_of.
  destruct (find (fun e => String.eqb (fst e) (canonical path)) entries)
    as [[name node]|] eqn:Hfind; [|discriminate].
  apply find_some in Hfind. destruct Hfind as [Hin _].
  rewrite forallb_forall in Hall. specialize (Hall _ Hin).
  unfold safe_entry in Hall. cbn [snd] in Hall.
  destruct node as [c m|]; [|discriminate].
  destruct (Js.endsWith path "/"); [discriminate|].
  intros [= <- <-]. apply Z.ltb_lt. exact Hall.
Qed.

Definition world : World :=
  {| fs := fs_of entries; IGNORE_FILES := None; appDir := "_app";
     SYM_BASE_PATH := "/srv"; safe_sizes := fs_of_safe entries eq_refl |}.

Definition url_of (s : string) : URL :=
  match parse_url s with
  | Some u => u
  | None => {| href := s; pathname := "/"; search := "" |}
  end.

(** A [GET] request for a URL with the given headers, and its options. *)
Definition get (headers : list (string * string)) : Static.Request :=
  {| Static.req_method := "GET"; Static.req_headers := Headers.of_list headers |}.

Definition options (u : string) (ip : option string) : Static.HandleOptions :=
  {| Static.method := "GET"; Static.url := url_of u;
     Static.clientIP := ip; Static.static := true |}.

(** Standard output that takes every write, one tick each. *)
Definition host : Handle.Host :=
  {| Handle.write_takes := 1; Handle.write_error := fun _ => None |}.

(** A request without a body. *)
Definition no_body : Handle.Pipe :=
  {| Handle.chunks := []; Handle.ended := true; Handle.errored := false;
     Handle.aborted := false |}.

Definition hello : Static.Response :=
  {| Static.status := 200; Static.statusText := "OK";
     Static.headers := Headers.of_list [("content-type", "text/plain")];
     Static.body := Some (Static.Text "hello") |}.

(** A framework that is ready after 1 tick and answers after 2 more,
    and that registers, [registers] ticks after it was asked, a
    background promise that rejects 50 ticks later. *)
Definition framework (registers : nat) : Handle.Framework :=
  {| Handle.init := {| Handle.after := 1; Handle.outcome := inr tt |};
     Handle.respond := fun _ _ _ => {| Handle.after := 2; Handle.outcome := inr hello |};
     Handle.waitUntil_calls :=
       fun _ _ => [(registers, {| Handle.after := 50; Handle.outcome := inl "flush failed" |})] |}.

(** A framework that is ready after 1 tick and answers after 2 more,
    and that registers two background promises: one when it is asked,
    which fulfils 50 ticks later, and one 20 ticks after it was asked,
    which fulfils 1000 ticks later. *)
Definition lingering : Handle.Framework :=
  {| Handle.init := {| Handle.after := 1; Handle.outcome := inr tt |};
     Handle.respond := fun _ _ _ => {| Handle.after := 2; Handle.outcome := inr hello |};
     Handle.waitUntil_calls :=
       fun _ _ => [(0%nat, {| Handle.after := 50; Handle.outcome := inr tt |});
                   (20%nat, {| Handle.after := 1000; Handle.outcome := inr tt |})] |}.

(** A framework whose handler throws. *)
Definition failing : Handle.Framework :=
  {| Handle.init := {| Handle.after := 1; Handle.outcome := inr tt |};
     Handle.respond := fun _ _ _ => {| Handle.after := 2; Handle.outcome := inl "boom" |};
     Handle.waitUntil_calls := fun _ _ => [] |}.

End Sample.

(** * Properties *)

(** ** Line reader *)

Module ReadlineFacts.

Import Readline.

Lemma indexOf_absent (bs : list byte) :
  indexOf bs LF < 0 -> split_lf bs = ([], bs).
Proof.
  induction bs as [|b rest IH]; simpl; [reflexivity|].
  destruct (Byte.eqb b LF) eqn:Hb; [lia|].
  destruct (indexOf rest LF <? 0) eqn:Hi.
  - intros _. apply Z.ltb_lt in Hi. rewrite (IH Hi). reflexivity.
  - apply Z.ltb_ge in Hi. lia.
Qed.

Lemma indexOf_present (bs : list byte) :
  0 <= indexOf bs LF ->
  split_lf bs =
    (subarray bs 0 (Some (indexOf bs LF))
       :: fst (split_lf (subarray bs (indexOf bs LF + 1) None)),
     snd (split_lf (subarray bs (indexOf bs LF + 1) None))).
Proof.
  unfold subarray.
  induction bs as [|b rest IH]; simpl indexOf; [lia|].
  destruct (Byte.eqb b LF) eqn:Hb.
  - intros _. simpl. rewrite Hb.
    destruct (split_lf rest) as [ls tail]. reflexivity.
  - destruct (indexOf rest LF <? 0) eqn:Hi; [lia|].
    apply Z.ltb_ge in Hi. intros _. specialize (IH Hi).
    replace (Z.to_nat (indexOf rest LF + 1 + 1)) with (S (Z.to_nat (indexOf rest LF + 1))) by lia.
    replace (Z.to_nat (indexOf rest LF + 1 - 0)) with (S (Z.to_nat (indexOf rest LF - 0))) by lia.
    simpl skipn. simpl firstn.
    change (split_lf (b :: rest)) with
      (let '(ls, tail) := split_lf rest in
       if Byte.eqb b LF then ([] :: ls, tail)
       else match ls with
            | [] => ([], b :: tail)
            | l :: ls' => ((b :: l) :: ls', tail)
            end).
    rewrite IH, Hb. simpl skipn. reflexivity.
Qed.

Lemma nonempty_length (l : list byte) :
  (0 <? Z.of_nat (List.length l)) = nonempty l.
Proof. destruct l; reflexivity. Qed.

Section Decoder.

Variable toString : list byte -> string.

(** The lines that the reader emits for a buffer: its complete
    lines that are not empty, decoded. *)
Definition emitted_of (bs : list byte) : list string :=
  map toString (filter nonempty (complete_lines bs)).

Lemma while_lf_spec (bs : list byte) (emitted : list string) :
  while_lf toString bs emitted = (emitted ++ emitted_of bs, unterminated bs).
Proof.
  funelim (while_lf toString bs emitted); rename buff0 into bs.
  - rewrite H. clear H Heqcall.
    match goal with E : _ = _ :> sigma _ |- _ => clear E end.
    apply Z.leb_le in Hge.
    unfold emitted_of, complete_lines, unterminated.
    rewrite (indexOf_present bs Hge).
    set (line := subarray bs 0 (Some (indexOf bs LF))).
    set (rest := subarray bs (indexOf bs LF + 1) None).
    cbn [fst snd filter]. rewrite nonempty_length.
    destruct (nonempty line); cbn [map].
    + rewrite <- app_assoc. reflexivity.
    + rewrite app_nil_r. reflexivity.
  - clear Heqcall.
    match goal with E : _ = _ :> sigma _ |- _ => clear E end.
    apply Z.leb_gt in Hge.
    unfold emitted_of, complete_lines, unterminated.
    rewrite (indexOf_absent bs Hge). simpl. rewrite app_nil_r. reflexivity.
Qed.

End Decoder.

(** Splitting a concatenation: the lines of the first part, then the
    lines of what the first part left with the second part. *)
Lemma split_lf_app (a b : list byte) :
  split_lf (a ++ b) =
    (fst (split_lf a) ++ fst (split_lf (snd (split_lf a) ++ b)),
     snd (split_lf (snd (split_lf a) ++ b))).
Proof.
  induction a as [|x a IH]; simpl.
  - destruct (split_lf b); reflexivity.
  - rewrite IH. destruct (split_lf a) as [l1 t1]. simpl fst. simpl snd.
    destruct (Byte.eqb x LF) eqn:Hx; simpl fst; simpl snd.
    + reflexivity.
    + destruct l1 as [|l l1']; simpl.
      * rewrite Hx. destruct (split_lf (t1 ++ b)) as [l2 t2]. simpl.
        destruct l2; reflexivity.
      * reflexivity.
Qed.

(** [split_lf] loses nothing and cuts at every line feed. *)
Lemma split_lf_join (bs : list byte) :
  bs = flat_map (fun l => l ++ [LF]) (complete_lines bs) ++ unterminated bs.
Proof.
  unfold complete_lines, unterminated.
  induction bs as [|b rest IH]; simpl; [reflexivity|].
  destruct (split_lf rest) as [ls tail]. simpl in IH.
  destruct (Byte.eqb b LF) eqn:Hb.
  - apply Byte.byte_dec_bl in Hb. subst b. simpl. f_equal. exact IH.
  - destruct ls as [|l ls']; simpl in *; f_equal; exact IH.
Qed.

Lemma split_lf_no_lf (bs : list byte) :
  Forall (fun l => ~ In LF l) (complete_lines bs) /\ ~ In LF (unterminated bs).
Proof.
  unfold complete_lines, unterminated.
  induction bs as [|b rest [IHl IHt]]; simpl.
  - split; [constructor | intros []].
  - destruct (split_lf rest) as [ls tail]. simpl in IHl, IHt.
    destruct (Byte.eqb b LF) eqn:Hb; simpl.
    + split; [constructor; [intros [] | exact IHl] | exact IHt].
    + assert (Hne : b <> LF).
      { intros ->. discriminate Hb. }
      destruct ls as [|l ls']; simpl.
      * split; [constructor | intros [H|H]; [congruence | exact (IHt H)]].
      * inversion IHl as [|? ? Hl Hls]; subst.
        split; [constructor; [intros [H|H]; [congruence | exact (Hl H)] | exact Hls]
               | exact IHt].
Qed.

Section Feed.

Variable toString : list byte -> string.

Lemma emitted_of_app (a b : list byte) :
  emitted_of toString (a ++ b) =
    emitted_of toString a ++ emitted_of toString (unterminated a ++ b).
Proof.
  unfold emitted_of, complete_lines, unterminated.
  rewrite split_lf_app. simpl fst. rewrite filter_app, map_app. reflexivity.
Qed.

Lemma unterminated_app (a b : list byte) :
  unterminated (a ++ b) = unterminated (unterminated a ++ b).
Proof. unfold unterminated. rewrite split_lf_app. reflexivity. Qed.

Lemma _write_spec (r : t) (chunk : list byte) :
  _write toString r chunk =
    (emitted_of toString (buff r ++ chunk), {| buff := unterminated (buff r ++ chunk) |}).
Proof. unfold _write. rewrite while_lf_spec. reflexivity. Qed.

Lemma lf_free (bs : list byte) : ~ In LF bs -> split_lf bs = ([], bs).
Proof.
  induction bs as [|b rest IH]; simpl; [reflexivity|].
  intros Hno. rewrite IH by tauto.
  destruct (Byte.eqb b LF) eqn:Hb; [|reflexivity].
  apply Byte.byte_dec_bl in Hb. tauto.
Qed.

Lemma feed_spec (chunks : list (list byte)) (r : t) :
  ~ In LF (buff r) ->
  feed toString r chunks =
    (emitted_of toString (buff r ++ List.concat chunks),
     {| buff := unterminated (buff r ++ List.concat chunks) |}).
Proof.
  revert r. induction chunks as [|chunk more IH]; intros r Hr.
  - simpl. rewrite app_nil_r.
    unfold emitted_of, complete_lines, unterminated.
    rewrite (lf_free _ Hr). destruct r; reflexivity.
  - simpl feed. rewrite _write_spec.
    rewrite IH by (simpl; apply split_lf_no_lf).
    simpl buff. simpl List.concat.
    rewrite (app_assoc (buff r)).
    rewrite (emitted_of_app (buff r ++ chunk)).
    rewrite (unterminated_app (buff r ++ chunk)). reflexivity.
Qed.

End Feed.

(** C8: chunk-boundary independence.  Whatever the way a byte sequence
    is cut into chunks, writing the chunks in order to a fresh line
    reader emits the same lines, in the same order, as writing the whole
    sequence as one chunk, and leaves the same bytes buffered. *)
Theorem chunk_boundary_independence
  (toString : list byte -> string) (chunks : list (list byte)) :
  feed toString init chunks = feed toString init [List.concat chunks].
Proof.
  rewrite !feed_spec by (simpl; tauto).
  simpl List.concat. rewrite app_nil_r. reflexivity.
Qed.

Lemma feed_app (toString : list byte -> string) (chunks more : list (list byte)) (r : t) :
  feed toString r (chunks ++ more) =
    (fst (feed toString r chunks)
       ++ fst (feed toString (snd (feed toString r chunks)) more),
     snd (feed toString (snd (feed toString r chunks)) more)).
Proof.
  revert r. induction chunks as [|chunk chunks IH]; intros r; simpl.
  - destruct (feed toString r more); reflexivity.
  - destruct (_write toString r chunk) as [emitted r']. rewrite IH.
    destruct (feed toString r' chunks) as [later r'']. simpl.
    rewrite app_assoc. reflexivity.
Qed.

(** C7, as the code has it: after any sequence of chunks, the line
    reader has emitted, in order, exactly the complete lines of the
    bytes received so far that are not empty, each decoded without its
    line feed, and it holds the bytes after the last line feed in its
    buffer; the complete lines and the buffered bytes make up the whole
    input, and none of them contains a line feed; the chunks that follow
    only add to what has been emitted. *)
Theorem readline_emits_nonempty_complete_lines
  (toString : list byte -> string) (chunks more : list (list byte)) :
  feed toString init chunks =
    (map toString (filter nonempty (complete_lines (List.concat chunks))),
     {| buff := unterminated (List.concat chunks) |})
  /\ List.concat chunks =
       flat_map (fun l => l ++ [LF]) (complete_lines (List.concat chunks))
       ++ unterminated (List.concat chunks)
  /\ Forall (fun l => ~ In LF l) (complete_lines (List.concat chunks))
  /\ ~ In LF (unterminated (List.concat chunks))
  /\ fst (feed toString init (chunks ++ more)) =
       fst (feed toString init chunks)
       ++ fst (feed toString (snd (feed toString init chunks)) more).
Proof.
  split; [|split; [|split; [|split]]].
  - rewrite feed_spec by (simpl; tauto). reflexivity.
  - apply split_lf_join.
  - apply split_lf_no_lf.
  - apply split_lf_no_lf.
  - rewrite feed_app. reflexivity.
Qed.

(** C7 as stated fails: an empty line is complete and is not emitted.
    Of the three complete lines of [a\n\nb\n] the reader emits two. *)
Lemma readline_skips_empty_lines :
  let chunks := [[x61; x0a]; [x0a]; [x62; x0a]] in
  complete_lines (List.concat chunks) = [[x61]; []; [x62]]
  /\ fst (feed string_of_list_byte init chunks) = ["a"; "b"]%string
  /\ fst (feed string_of_list_byte init chunks)
     <> map string_of_list_byte (complete_lines (List.concat chunks)).
Proof.
  split; [reflexivity|]. split; [reflexivity|]. discriminate.
Qed.

End ReadlineFacts.

(** ** Static file resolver *)

Module StaticFacts.

Import Static.
Local Open Scope string_scope.
Local Open Scope Z_scope.

(** What the resolver answers on the sample host for [/data.txt], a
    file of 10 bytes under [/srv/client], with the given request headers. *)
Definition data_txt (request_headers : list (string * string))
  : Js.exn + option Response :=
  serveStatic (rt := Sample.runtime) Sample.world (Sample.get request_headers)
    (Sample.options "http://localhost/data.txt" None) "/srv/client" true.

Definition header (r : Js.exn + option Response) (name : string) : option string :=
  match r with
  | inr (Some res) => Headers.get (headers res) name
  | _ => None
  end.

Definition status_of (r : Js.exn + option Response) : option Z :=
  match r with
  | inr (Some res) => Some (status res)
  | _ => None
  end.

Definition bytes_of (r : Js.exn + option Response) : list byte :=
  match r with
  | inr (Some res) => body_bytes Sample.world (body res)
  | _ => []
  end.

(** [parseRange] hands [bytes=a-b] over as [a] and [b + 1]. *)
Lemma parseRange_0_4 :
  parseRange (Headers.of_list [("range", "bytes=0-4")])
  = (Some (Js.Finite 0), Some (Js.Finite 5)).
Proof. reflexivity. Qed.

(** C1, on the code: [bytes=0-4] on a file of 10 bytes is answered 416,
    with [content-range: bytes */10] and [content-length: 0], because the
    start 0 is falsy in [if (!rangeStart)]; and [bytes=1-4] is answered
    206 with [content-range: bytes 1-5/10], [content-length: 5] and the
    five bytes 1 to 5, because the end is incremented in [parseRange] and
    again in [serveStatic]. *)
Theorem range_0_4_of_10_bytes_is_416 :
  let first := data_txt [("range", "bytes=0-4")] in
  let inner := data_txt [("range", "bytes=1-4")] in
  file_size Sample.world "/srv/client/data.txt" = 10
  /\ status_of first = Some 416
  /\ header first "content-range" = Some "bytes */10"
  /\ header first "content-length" = Some "0"
  /\ bytes_of first = []
  /\ status_of inner = Some 206
  /\ header inner "content-range" = Some "bytes 1-5/10"
  /\ header inner "content-length" = Some "5"
  /\ bytes_of inner = list_byte_of_string "12345".
Proof. repeat split; reflexivity. Qed.

(** C4, on the code: with [accept-encoding: br] the sibling [.br] file
    (3 bytes) is the body and [content-encoding] is [br], and
    [content-length] is still the size of the original file (10); with
    [accept-encoding: gzip] the [.gz] sibling (4 bytes) is served with
    its own size. *)
Theorem brotli_variant_keeps_original_length :
  let br := data_txt [("accept-encoding", "br")] in
  let gz := data_txt [("accept-encoding", "gzip")] in
  status_of br = Some 200
  /\ header br "content-encoding" = Some "br"
  /\ bytes_of br = list_byte_of_string "BRO"
  /\ file_size Sample.world "/srv/client/data.txt.br" = 3
  /\ header br "content-length" = Some "10"
  /\ header gz "content-encoding" = Some "gzip"
  /\ file_size Sample.world "/srv/client/data.txt.gz" = 4
  /\ header gz "content-length" = Some "4".
Proof. repeat split; reflexivity. Qed.

(** C6, on the code: a request whose [if-none-match] equals the
    validator [W/10-1000] of the file is answered 200 with the whole
    file; it is the header [if-non-match] that the code compares. *)
Theorem if_none_match_is_not_compared :
  let standard := data_txt [("if-none-match", "W/10-1000")] in
  let misspelt := data_txt [("if-non-match", "W/10-1000")] in
  header (data_txt []) "etag" = Some "W/10-1000"
  /\ status_of standard = Some 200
  /\ bytes_of standard = list_byte_of_string "0123456789"
  /\ status_of misspelt = Some 304
  /\ bytes_of misspelt = [].
Proof. repeat split; reflexivity. Qed.

(** Case analysis on the tests of [serveStatic], in the order of the code. *)
Ltac branches H :=
  repeat match type of H with
    | context [if ?c then _ else _] => destruct c eqn:?
    | context [match ?x with _ => _ end] => destruct x eqn:?
    end;
  try discriminate H.

(** C3, as the code has it.  For a request whose URL path is not [/] and
    ends with [/]: a response of the resolver is a 302 without a body
    that carries a [location] header, and there is one only when
    [lookup], with its [.html], [.htm] and index file candidates, has
    found a file for the normalised path; a [GET] or [HEAD] that gets to
    the lookup is answered with that redirect when [lookup] finds a file
    (unless the URL constructor throws), and is passed on when it finds
    none.  The redirect comes after the lookup. *)
Theorem trailing_slash_redirect_follows_lookup {rt : Runtime}
  (w : World) (request : Request) (options : HandleOptions)
  (basePath : string) (cache : bool) :
  pathname (url options) <> "/" ->
  Js.endsWith (pathname (url options)) "/" = true ->
  (forall res,
     serveStatic w request options basePath cache = inr (Some res) ->
     status res = 302 /\ body res = None
     /\ Headers.has (headers res) "location" = true
     /\ exists decoded resolvedPath stats,
          decodeURIComponent (pathname (url options)) = Some decoded
          /\ lookup w (basePath ++ replace_root (path_normalize decoded))
             = (resolvedPath, Some stats))
  /\ (forall decoded,
        existsSync w basePath = true ->
        req_method request = "GET" \/ req_method request = "HEAD" ->
        decodeURIComponent (pathname (url options)) = Some decoded ->
        ignored w (replace_root (path_normalize decoded)) = false ->
        match lookup w (basePath ++ replace_root (path_normalize decoded)) with
        | (_, Some _) =>
            (exists res, serveStatic w request options basePath cache = inr (Some res))
            \/ serveStatic w request options basePath cache = inl "TypeError"
        | (_, None) => serveStatic w request options basePath cache = inr None
        end).
Proof.
  intros Hroot Hslash.
  assert (Hneq : String.eqb (pathname (url options)) "/" = false).
  { apply String.eqb_neq. exact Hroot. }
  split.
  - intros res H. unfold serveStatic in H.
    destruct (negb (existsSync w basePath)); [discriminate|].
    destruct (negb (String.eqb (req_method request) "GET")
              && negb (String.eqb (req_method request) "HEAD")); [discriminate|].
    destruct (decodeURIComponent (pathname (url options))) as [decoded|] eqn:Hdec;
      [|discriminate].
    destruct (ignored w (replace_root (path_normalize decoded))); [discriminate|].
    destruct (lookup w (basePath ++ replace_root (path_normalize decoded)))
      as [resolvedPath found] eqn:Hlook.
    destruct found as [stats|]; [|discriminate].
    rewrite Hneq, Hslash in H. simpl negb in H. simpl andb in H.
    destruct (URL_resolve (replace_root (path_normalize decoded) ++ search (url options))
                (url options)) as [location|]; [|discriminate].
    injection H as <-. cbn [status body headers].
    repeat split. exists decoded, resolvedPath, stats. auto.
  - intros decoded Hbase Hmethod Hdec Hignored. unfold serveStatic.
    rewrite Hbase. cbn [negb].
    replace (negb (String.eqb (req_method request) "GET")
             && negb (String.eqb (req_method request) "HEAD")) with false
      by (destruct Hmethod as [-> | ->]; reflexivity).
    rewrite Hdec. cbv zeta. rewrite Hignored.
    destruct (lookup w (basePath ++ replace_root (path_normalize decoded)))
      as [resolvedPath [stats|]]; [|reflexivity].
    rewrite Hneq, Hslash. cbn [negb andb].
    destruct (URL_resolve (replace_root (path_normalize decoded) ++ search (url options))
                (url options)) as [location|]; [left; eexists; reflexivity | right; reflexivity].
Qed.

(** The theorem at [/foo/?a=1] on the sample host, where [lookup] finds
    [/foo/index.html]. *)
Lemma trailing_slash_redirect_follows_lookup_witness :
  let options := Sample.options "http://localhost/foo/?a=1" None in
  (exists res,
     serveStatic (rt := Sample.runtime) Sample.world (Sample.get []) options
       "/srv/client" true = inr (Some res)
     /\ status res = 302 /\ body res = None
     /\ Headers.has (headers res) "location" = true)
  /\ snd (lookup Sample.world "/srv/client/foo/") <> None.
Proof.
  intros options.
  destruct (trailing_slash_redirect_follows_lookup (rt := Sample.runtime)
              Sample.world (Sample.get []) options "/srv/client" true)
    as [Hres Hgets].
  - simpl. discriminate.
  - reflexivity.
  - split; [|vm_compute; discriminate].
    specialize (Hgets "/foo/" eq_refl (or_introl eq_refl) eq_refl eq_refl).
    vm_compute lookup in Hgets.
    destruct Hgets as [[res Hserve]|Hthrow]; [|vm_compute in Hthrow; discriminate Hthrow].
    exists res. split; [exact Hserve|].
    destruct (Hres res Hserve) as (H1 & H2 & H3 & _). auto.
Defined.

(** The sample world without [/srv/client/foo/index.html]. *)
Definition world_without_index : World :=
  {| fs := Sample.fs_of
             (filter (fun e => negb (String.eqb (fst e) "/srv/client/foo/index.html"))
                     Sample.entries);
     IGNORE_FILES := None; appDir := "_app"; SYM_BASE_PATH := "/srv";
     safe_sizes :=
       Sample.fs_of_safe
         (filter (fun e => negb (String.eqb (fst e) "/srv/client/foo/index.html"))
                 Sample.entries) eq_refl |}.

(** C3 as stated fails.  For [/foo/], where [/foo/index.html] exists and
    [/foo] is no file, the file that [lookup] finds is the index file,
    and the [location] of the redirect is [/foo/], the path of the
    request, not [/foo]; without the index file there is no redirect. *)
Lemma trailing_slash_redirect_counterexample :
  let options := Sample.options "http://localhost/foo/" None in
  let answer :=
    serveStatic (rt := Sample.runtime) Sample.world (Sample.get []) options
      "/srv/client" true in
  fst (lookup Sample.world "/srv/client/foo/") = "/srv/client/foo//index.html"
  /\ status_of answer = Some 302
  /\ header answer "location" = Some "http://localhost/foo/"
  /\ header answer "location" <> Some "http://localhost/foo"
  /\ serveStatic (rt := Sample.runtime) world_without_index (Sample.get []) options
       "/srv/client" true = inr None.
Proof. repeat split; try reflexivity. discriminate. Qed.

Lemma get_some_has (h : Headers.t) (name value : string) :
  Headers.get h name = Some value -> Headers.has h name = true.
Proof.
  unfold Headers.get, Headers.has.
  induction h as [|e h IH]; simpl; [discriminate|].
  destruct (Headers.named name e); [reflexivity|]. exact IH.
Qed.

(** On every host: the resolver answers 304 only to a request that
    carries the header [if-non-match]. *)
Lemma not_modified_needs_if_non_match {rt : Runtime}
  (w : World) (request : Request) (options : HandleOptions)
  (basePath : string) (cache : bool) (res : Response) :
  serveStatic w request options basePath cache = inr (Some res) ->
  status res = 304 ->
  Headers.has (req_headers request) "if-non-match" = true.
Proof.
  intros H Hstatus. unfold serveStatic in H.
  branches H; injection H as <-; simpl in Hstatus; try discriminate Hstatus.
  all: match goal with
       | E : header_is _ _ _ = true |- _ => unfold header_is in E
       end.
  all: destruct (Headers.get (req_headers request) "if-non-match") eqn:Hget;
    [|discriminate].
  all: eapply get_some_has; exact Hget.
Qed.

(** On every host: a range that starts at byte 0 is never answered 206. *)
Lemma range_from_zero_is_never_206 {rt : Runtime}
  (w : World) (request : Request) (options : HandleOptions)
  (basePath : string) (cache : bool) (res : Response) (rangeEnd : option Js.number) :
  serveStatic w request options basePath cache = inr (Some res) ->
  parseRange (req_headers request) = (Some (Js.Finite 0), rangeEnd) ->
  status res <> 206.
Proof.
  intros H Hrange. unfold serveStatic in H. rewrite Hrange in H.
  change (truthy (Some (Js.Finite 0))) with false in H.
  branches H; injection H as <-; simpl; discriminate.
Qed.

End StaticFacts.

(** ** Dispatcher and lifecycle *)

Module HandleFacts.

Import Static Handle.
Local Open Scope string_scope.
Local Open Scope nat_scope.

(** Effects that are neither a write on standard output nor an exit:
    all that serving a request does before the response is written. *)
Definition silent (ev : nat * Async.Event) : Prop :=
  match snd ev with
  | Async.Stdout _ | Async.Exit _ => False
  | _ => True
  end.

(** Effects that are no exit. *)
Definition running (ev : nat * Async.Event) : Prop :=
  match snd ev with
  | Async.Exit _ => False
  | _ => True
  end.

Lemma silent_running (l : list (nat * Async.Event)) :
  Forall silent l -> Forall running l.
Proof.
  apply Forall_impl. intros [t ev]. unfold silent, running. simpl.
  destruct ev; tauto.
Qed.

Lemma until_running (stop : nat) (l : list (nat * Async.Event)) :
  Forall running l -> Forall running (Async.until stop l).
Proof.
  intros H. apply Forall_forall. intros ev Hin.
  apply filter_In in Hin. rewrite Forall_forall in H. apply H, Hin.
Qed.

Lemma before_running (stop : nat) (l : list (nat * Async.Event)) :
  Forall running l -> Forall running (Async.before stop l).
Proof.
  intros H. apply Forall_forall. intros ev Hin.
  apply filter_In in Hin. rewrite Forall_forall in H. apply H, Hin.
Qed.

Lemma running_exits (l : list (nat * Async.Event)) :
  Forall running l -> Async.exits l = [].
Proof.
  induction 1 as [|[t ev] l Hev _ IH]; [reflexivity|].
  unfold Async.exits in *. simpl. unfold running in Hev. simpl in Hev.
  destruct ev; try exact IH. contradiction.
Qed.

Lemma silent_writes (l : list (nat * Async.Event)) :
  Forall silent l -> Async.writes l = [].
Proof.
  induction 1 as [|[t ev] l Hev _ IH]; [reflexivity|].
  unfold Async.writes in *. simpl. unfold silent in Hev. simpl in Hev.
  destruct ev; try exact IH. contradiction.
Qed.

Section Combinators.

Variable Q : nat * Async.Event -> Prop.

Lemma then_effects {A B : Type} (p : Async.t A) (f : nat -> A -> Async.t B) :
  Forall Q (Async.effects p) ->
  (forall t a, Forall Q (Async.effects (f t a))) ->
  Forall Q (Async.effects (Async.then_ p f)).
Proof.
  intros Hp Hf. unfold Async.then_.
  destruct (Async.result p); simpl; [exact Hp|].
  apply Forall_app. split; [exact Hp | apply Hf].
Qed.

Lemma catch_effects {A : Type} (p : Async.t A) (f : nat -> Js.exn -> Async.t A) :
  Forall Q (Async.effects p) ->
  (forall t e, Forall Q (Async.effects (f t e))) ->
  Forall Q (Async.effects (Async.catch_ p f)).
Proof.
  intros Hp Hf. unfold Async.catch_.
  destruct (Async.result p); simpl; [|exact Hp].
  apply Forall_app. split; [exact Hp | apply Hf].
Qed.

End Combinators.

Section Process.

Context {rt : Runtime}.
Variable w : World.
Variable server : Framework.
Variable host : Host.

Lemma waitUntil_unfold (promise : Settles unit) (now : nat) :
  waitUntil promise now =
    (now, Async.WaitsAdd (now + after promise))
      :: match outcome promise with
         | inl err => [(now + after promise, Async.Stderr err)]
         | inr _ => []
         end.
Proof.
  unfold waitUntil, start, Async.catch_, Async.pending, console_error. simpl.
  destruct (outcome promise); reflexivity.
Qed.

Lemma waitUntil_silent (promise : Settles unit) (now : nat) :
  Forall silent (waitUntil promise now).
Proof.
  rewrite waitUntil_unfold.
  destruct (outcome promise); repeat constructor.
Qed.

Lemma respond_with_silent (request : Request) (pipe : Pipe)
  (options : HandleOptions) (now : nat) :
  Forall silent (Async.effects (respond_with server request pipe options now)).
Proof.
  unfold respond_with. apply then_effects.
  - constructor.
  - intros t _. simpl. apply Forall_flat_map.
    apply Forall_forall. intros call _. apply waitUntil_silent.
Qed.

Lemma firstResolve_silent
  (resolvers : list (option (nat -> Async.t (option Response)))) :
  Forall (fun r => match r with
                   | Some f => forall t, Forall silent (Async.effects (f t))
                   | None => True
                   end) resolvers ->
  forall now, Forall silent (Async.effects (firstResolve resolvers now)).
Proof.
  induction 1 as [|r rs Hr _ IH]; intros now; simpl.
  - constructor.
  - destruct r as [f|]; [|apply IH].
    apply then_effects; [apply Hr|].
    intros t [res|]; [constructor | apply IH].
Qed.

Lemma serve_silent (request : Request) (pipe : Pipe)
  (options : HandleOptions) (now : nat) :
  Forall silent (Async.effects (serve w server request pipe options now)).
Proof.
  unfold serve. apply firstResolve_silent.
  repeat constructor.
  - destruct (static options); [intros t; constructor | exact I].
  - intros t. apply respond_with_silent.
Qed.

Lemma writeOut_running (data : list Js.atom) (now : nat) :
  Forall running (Async.effects (writeOut host data now)).
Proof.
  unfold writeOut. destruct (write_error host now); repeat constructor.
Qed.

Lemma write_headers_running (entries : list (string * string)) (now : nat) :
  Forall running (Async.effects (write_headers host entries now)).
Proof.
  revert now. induction entries as [|[key val] more IH]; intros now; simpl.
  - constructor.
  - apply then_effects; [apply writeOut_running | intros t _; apply IH].
Qed.

Lemma write_body_running (reads : list (list byte)) (now : nat) :
  Forall running (Async.effects (write_body host reads now)).
Proof.
  revert now. induction reads as [|value more IH]; intros now; simpl.
  - apply writeOut_running.
  - apply then_effects; [apply writeOut_running | intros t _; apply IH].
Qed.

Lemma writeResponse_running (res : Response) (ignoreBody : bool) (now : nat) :
  Forall running (Async.effects (writeResponse w host res ignoreBody now)).
Proof.
  unfold writeResponse.
  apply then_effects; [apply writeOut_running | intros t1 _].
  apply then_effects; [apply write_headers_running | intros t2 _].
  apply then_effects; [apply writeOut_running | intros t3 _].
  destruct (body res); [destruct ignoreBody|];
    first [apply writeOut_running | apply write_body_running].
Qed.

Lemma answered_running (request : Request) (pipe : Pipe)
  (options : HandleOptions) (now : nat) :
  Forall running (Async.effects (answered w server host request pipe options now)).
Proof.
  unfold answered. apply catch_effects.
  - apply then_effects.
    + apply silent_running, serve_silent.
    + intros t res. apply writeResponse_running.
  - intros t e. repeat constructor.
Qed.

(** The tick of the exit: the latest of the end of the chain and of
    the promises in [waits] then. *)
Lemma dispatch_effects (request : Request) (pipe : Pipe)
  (options : HandleOptions) (now : nat) :
  let chain := answered w server host request pipe options now in
  let run := dispatch w server host request pipe options now in
  Async.settles run =
    fold_left (fun m p => Nat.max m (Async.settles p))
      (waits_at (Async.effects chain) (Async.settles chain)) (Async.settles chain)
  /\ Async.effects run =
       (Async.until (Async.settles run) (Async.effects chain)
        ++ [(Async.settles run, Async.Exit 0%Z)])%list.
Proof.
  split; [reflexivity|].
  unfold dispatch, Async.last, Async.finally_, Async.then_, Async.allSettled, process_exit.
  cbn [Async.settles Async.result Async.effects app].
  unfold Async.until. rewrite filter_app. cbn [filter fst].
  rewrite Nat.leb_refl. reflexivity.
Qed.

Lemma dispatch_exits (request : Request) (pipe : Pipe)
  (options : HandleOptions) (now : nat) :
  Async.exits (Async.effects (dispatch w server host request pipe options now)) =
    [(Async.settles (dispatch w server host request pipe options now),
      Async.Exit 0%Z)].
Proof.
  rewrite (proj2 (dispatch_effects request pipe options now)).
  unfold Async.exits. rewrite filter_app.
  match goal with
  | |- (filter ?f ?l ++ _)%list = _ => fold (Async.exits l); rewrite (running_exits l)
  end.
  - reflexivity.
  - apply until_running, answered_running.
Qed.

End Process.

Lemma fold_max_init {A : Type} (ps : list (Async.t A)) (now : nat) :
  now <= fold_left (fun m p => Nat.max m (Async.settles p)) ps now.
Proof.
  revert now. induction ps as [|p ps IH]; intros now; simpl; [lia|].
  specialize (IH (Nat.max now (Async.settles p))). lia.
Qed.

Lemma fold_max_member {A : Type} (ps : list (Async.t A)) (now : nat) (p : Async.t A) :
  In p ps ->
  Async.settles p <= fold_left (fun m q => Nat.max m (Async.settles q)) ps now.
Proof.
  revert now. induction ps as [|q ps IH]; intros now; simpl; [tauto|].
  intros [->|Hin].
  - pose proof (fold_max_init ps (Nat.max now (Async.settles p))). lia.
  - apply IH. exact Hin.
Qed.

Lemma waits_at_member (effects : list (nat * Async.Event)) (now added done : nat) :
  In (added, Async.WaitsAdd done) effects ->
  added <= now ->
  In (Async.pending done (inr tt)) (waits_at effects now).
Proof.
  intros Hin Hle. induction effects as [|[t ev] more IH]; simpl in *; [tauto|].
  destruct Hin as [Heq|Hin].
  - injection Heq as -> ->.
    destruct (Nat.leb_spec added now); [left; reflexivity | lia].
  - destruct ev; try (apply IH; exact Hin).
    destruct (t <=? now); [right|]; apply IH; exact Hin.
Qed.

(** C9, as the code has it: the chain of the request calls
    [process.exit] only when every promise that was registered through
    [waitUntil] by the time the response had been written has settled,
    and it calls it with status 0.  Registering a promise puts
    into [waits] a promise that settles when the promise does and that
    never rejects; when the promise rejects, the error goes to the
    console and nowhere else. *)
Theorem exit_awaits_registered_promises {rt : Runtime}
  (w : World) (server : Framework) (host : Host)
  (request : Request) (pipe : Pipe) (options : HandleOptions) (now : nat)
  (added done : nat) (promise : Settles unit) (t : nat) :
  let chain := answered w server host request pipe options now in
  let run := dispatch w server host request pipe options now in
  In (added, Async.WaitsAdd done) (Async.effects chain) ->
  added <= Async.settles chain ->
  done <= Async.settles run
  /\ Async.settles chain <= Async.settles run
  /\ Async.exits (Async.effects run) = [(Async.settles run, Async.Exit 0%Z)]
  /\ waitUntil promise t =
       (t, Async.WaitsAdd (t + after promise))
         :: match outcome promise with
            | inl err => [(t + after promise, Async.Stderr err)]
            | inr _ => []
            end.
Proof.
  intros chain run Hin Hle.
  destruct (dispatch_effects w server host request pipe options now) as [Hsettles _].
  fold chain run in Hsettles.
  split; [|split; [|split]].
  - rewrite Hsettles.
    apply (fold_max_member _ _ (Async.pending done (inr tt))).
    apply (waits_at_member _ _ added); assumption.
  - rewrite Hsettles. apply fold_max_init.
  - exact (dispatch_exits w server host request pipe options now).
  - exact (waitUntil_unfold promise t).
Qed.

(** The theorem on the sample host: the framework registers, 1 tick
    after it was asked, a promise that rejects at tick 52; the response
    has been written at tick 8 and the process exits at tick 52. *)
Lemma exit_awaits_registered_promises_witness :
  let chain :=
    answered (rt := Sample.runtime) Sample.world (Sample.framework 1) Sample.host
      (Sample.get []) Sample.no_body (Sample.options "http://localhost/api" None) 0 in
  let run :=
    dispatch (rt := Sample.runtime) Sample.world (Sample.framework 1) Sample.host
      (Sample.get []) Sample.no_body (Sample.options "http://localhost/api" None) 0 in
  (Async.settles chain = 8 /\ Async.settles run = 52)
  /\ (52 <= Async.settles run
      /\ Async.settles chain <= Async.settles run
      /\ Async.exits (Async.effects run) = [(Async.settles run, Async.Exit 0%Z)]
      /\ waitUntil {| after := 50; outcome := inl "flush failed" |} 2 =
           [(2, Async.WaitsAdd 52); (52, Async.Stderr "flush failed")]).
Proof.
  split; [split; vm_compute; reflexivity|].
  apply (exit_awaits_registered_promises (rt := Sample.runtime)
           Sample.world (Sample.framework 1) Sample.host (Sample.get [])
           Sample.no_body (Sample.options "http://localhost/api" None) 0
           2 52 {| after := 50; outcome := inl "flush failed" |} 2).
  - vm_compute. tauto.
  - vm_compute. repeat constructor.
Defined.

(** C9 as stated fails: the set is read once, when the response has
    been written, and a promise that is registered after that is not
    awaited.  Here the framework registers a promise at tick 1, which
    settles at tick 51, and another at tick 21, which settles at tick
    1021; the response has been written at tick 8; the process waits for
    the first promise and exits at tick 51, long before the second has
    settled. *)
Lemma registration_after_the_response_is_not_awaited :
  let chain :=
    answered (rt := Sample.runtime) Sample.world Sample.lingering Sample.host
      (Sample.get []) Sample.no_body (Sample.options "http://localhost/api" None) 0 in
  let run :=
    dispatch (rt := Sample.runtime) Sample.world Sample.lingering Sample.host
      (Sample.get []) Sample.no_body (Sample.options "http://localhost/api" None) 0 in
  Async.settles chain = 8
  /\ In (21, Async.WaitsAdd 1021) (Async.effects run)
  /\ Async.exits (Async.effects run) = [(51, Async.Exit 0%Z)]
  /\ ~ 1021 <= Async.settles run.
Proof.
  split; [|split; [|split]]; vm_compute; [reflexivity | tauto | reflexivity |].
  intros H. repeat (apply le_S_n in H). inversion H.
Qed.

Lemma methods_member (m : string) :
  existsb (String.eqb m) Cli.methods = true <-> In m Cli.methods.
Proof.
  rewrite existsb_exists. split.
  - intros [x [Hin Heq]]. apply String.eqb_eq in Heq. subst x. exact Hin.
  - intros Hin. exists m. split; [exact Hin | apply String.eqb_refl].
Qed.

Section Assembler.

Context {rt : Runtime}.
Variable options : HandleOptions.

(** What holds of the listener's variables at any time: no request
    before [bodyStart], one at most, and with the headers collected. *)
Definition coherent (a : Assembler) : Prop :=
  (bodyStart a = false -> served a = [])
  /\ List.length (served a) <= 1
  /\ Forall (fun req => req_headers req = Handle.headers a) (served a).

Lemma coherent_start : coherent assembler0.
Proof. repeat split; simpl; auto. Qed.

Lemma listener_started (line : option (list string)) (a a' : Assembler) :
  bodyStart a = true ->
  listener options line a = inr a' ->
  Handle.headers a' = Handle.headers a /\ served a' = served a
  /\ bodyStart a' = true.
Proof.
  intros Hstarted H. unfold listener in H. rewrite Hstarted in H.
  cbn [negb] in H.
  repeat match type of H with
    | context [if ?c then _ else _] => destruct c
    | context [match ?x with _ => _ end] => destruct x
    end;
    try discriminate H; injection H as <-; auto.
Qed.

Lemma listener_coherent (line : option (list string)) (a a' : Assembler) :
  coherent a ->
  listener options line a = inr a' ->
  coherent a'.
Proof.
  intros [Hnone [Hone Hsame]] H.
  destruct (bodyStart a) eqn:Hstarted.
  - destruct (listener_started line a a' Hstarted H) as [Hh [Hs Hb]].
    unfold coherent. rewrite Hh, Hs, Hb. repeat split; auto; discriminate.
  - specialize (Hnone eq_refl).
    unfold listener in H. rewrite Hstarted in H. cbn [negb] in H.
    repeat match type of H with
      | context [if ?c then _ else _] => destruct c
      | context [match ?x with _ => _ end] => destruct x
      end;
      try discriminate H; injection H as <-;
      unfold coherent; cbn [bodyStart served Handle.headers];
      rewrite ?Hnone; simpl; repeat split; auto; try discriminate.
Qed.

Lemma listener_start_body (params : list string) (a : Assembler) :
  exists a', listener options (Some ("start-body" :: params)) a = inr a'
             /\ bodyStart a' = true.
Proof.
  unfold listener. cbn [hd_error tl is_cmd String.eqb Ascii.eqb Bool.eqb].
  destruct (bodyStart a) eqn:Hstarted; cbn [negb].
  - destruct (aborted (Handle.pipe a)); cbn [negb]; eauto.
  - eauto.
Qed.

Lemma run_app (l1 l2 : list (option (list string))) (a : Assembler) :
  run options (l1 ++ l2) a =
    match run options l1 a with
    | (a', None) => run options l2 a'
    | (a', Some e) => (a', Some e)
    end.
Proof.
  revert a. induction l1 as [|line l1 IH]; intros a; simpl; [reflexivity|].
  destruct (listener options line a); [reflexivity | apply IH].
Qed.

Lemma run_started (lines : list (option (list string))) (a : Assembler) :
  bodyStart a = true ->
  Handle.headers (fst (run options lines a)) = Handle.headers a
  /\ served (fst (run options lines a)) = served a.
Proof.
  revert a. induction lines as [|line more IH]; intros a Hstarted; simpl; [auto|].
  destruct (listener options line a) as [e|a'] eqn:Hline; [auto|].
  destruct (listener_started line a a' Hstarted Hline) as [Hh [Hs Hb]].
  rewrite <- Hh, <- Hs. apply IH. exact Hb.
Qed.

Lemma run_coherent (lines : list (option (list string))) (a : Assembler) :
  coherent a -> coherent (fst (run options lines a)).
Proof.
  revert a. induction lines as [|line more IH]; intros a Ha; simpl; [exact Ha|].
  destruct (listener options line a) as [e|a'] eqn:Hline; [exact Ha|].
  apply IH. eapply listener_coherent; eassumption.
Qed.

End Assembler.

(** C10: whatever lines the host sends, [serve] is called at most once;
    from the line that holds a [start-body] command on, no line changes
    the header collection or what was passed to [serve], whose request
    carries the headers collected until then; and once [bodyStart] is set,
    a [header] or [start-body] command leaves every variable of the
    listener as it was. *)
Theorem start_body_freezes_the_request {rt : Runtime}
  (options : HandleOptions)
  (lines before after : list (option (list string))) (params : list string)
  (collected : Headers.t) (body : Pipe) (passed : list Request) :
  let start := Some ("start-body" :: params) in
  let started := fst (handle options (before ++ [start])) in
  let final := fst (handle options (before ++ start :: after)) in
  let streaming := {| Handle.headers := collected; bodyStart := true;
                      Handle.pipe := body; served := passed |} in
  List.length (served (fst (handle options lines))) <= 1
  /\ Handle.headers final = Handle.headers started
  /\ served final = served started
  /\ Forall (fun req => req_headers req = Handle.headers final) (served final)
  /\ listener options (Some ("header" :: params)) streaming = inr streaming
  /\ listener options start streaming = inr streaming.
Proof.
  intros start started final streaming. unfold handle in *.
  split; [apply (run_coherent options lines), coherent_start|].
  assert (Hfrozen : Handle.headers final = Handle.headers started
                    /\ served final = served started).
  { unfold final, started. rewrite !run_app.
    destruct (run options before assembler0) as [a1 [e|]]; [auto|].
    destruct (listener_start_body options params a1) as [a2 [Hline Hb]].
    unfold start. cbn [run]. rewrite Hline. cbn [run fst].
    apply run_started. exact Hb. }
  destruct Hfrozen as [Hh Hs]. repeat split; auto.
  - apply (run_coherent options (before ++ start :: after)), coherent_start.
  - unfold listener, streaming. cbn. destruct (aborted body); reflexivity.
  - unfold listener, streaming, start. cbn. destruct (aborted body); reflexivity.
Qed.

(** Nothing that a computation does comes after it settles, and it
    does not settle before it starts. *)
Definition timely {A : Type} (now : nat) (p : Async.t A) : Prop :=
  now <= Async.settles p
  /\ Forall (fun ev => fst ev <= Async.settles p) (Async.effects p).

Lemma then_timely {A B : Type} (now : nat) (p : Async.t A) (f : nat -> A -> Async.t B) :
  timely now p -> (forall t a, timely t (f t a)) -> timely now (Async.then_ p f).
Proof.
  intros [Hp Heff] Hf. unfold Async.then_.
  destruct (Async.result p) as [e|a]; cbn [Async.settles Async.effects];
    [split; assumption|].
  destruct (Hf (Async.settles p) a) as [Hq Hqeff].
  unfold timely. cbn [Async.settles Async.effects].
  split; [lia|]. apply Forall_app. split; [|exact Hqeff].
  eapply Forall_impl; [|exact Heff]. cbv beta. intros ev Hev. lia.
Qed.

Lemma until_keeps (stop : nat) (l : list (nat * Async.Event)) :
  Forall (fun ev => fst ev <= stop) l -> Async.until stop l = l.
Proof.
  induction 1 as [|ev l Hev _ IH]; [reflexivity|].
  unfold Async.until in *. cbn [filter].
  replace (fst ev <=? stop) with true by (symmetry; apply Nat.leb_le; exact Hev).
  rewrite IH. reflexivity.
Qed.

Lemma until_app (stop : nat) (a b : list (nat * Async.Event)) :
  Async.until stop (a ++ b) = (Async.until stop a ++ Async.until stop b)%list.
Proof. apply filter_app. Qed.

Section Outcome.

Context {rt : Runtime}.
Variable w : World.
Variable server : Framework.
Variable host : Host.

Lemma writeOut_timely (data : list Js.atom) (now : nat) :
  timely now (writeOut host data now).
Proof.
  unfold writeOut, timely.
  destruct (write_error host now); cbn [Async.settles Async.effects Async.rejected];
    split; try lia; repeat constructor.
Qed.

Lemma write_headers_timely (entries : list (string * string)) (now : nat) :
  timely now (write_headers host entries now).
Proof.
  revert now. induction entries as [|[key val] more IH]; intros now; cbn [write_headers].
  - split; [simpl; lia | constructor].
  - apply then_timely; [apply writeOut_timely | intros t _; apply IH].
Qed.

Lemma write_body_timely (reads : list (list byte)) (now : nat) :
  timely now (write_body host reads now).
Proof.
  revert now. induction reads as [|value more IH]; intros now; cbn [write_body].
  - apply writeOut_timely.
  - apply then_timely; [apply writeOut_timely | intros t _; apply IH].
Qed.

Lemma writeResponse_timely (res : Response) (ignoreBody : bool) (now : nat) :
  timely now (writeResponse w host res ignoreBody now).
Proof.
  unfold writeResponse.
  apply then_timely; [apply writeOut_timely | intros t1 _].
  apply then_timely; [apply write_headers_timely | intros t2 _].
  apply then_timely; [apply writeOut_timely | intros t3 _].
  destruct (body res); [destruct ignoreBody|];
    first [apply writeOut_timely | apply write_body_timely].
Qed.

(** What the chain of a request does, by the outcome of [serve] and of
    the serializer: an error of either is caught and logged; whatever
    they do, the chain then calls [process.exit(0)], and nothing that
    serving the request would do later happens. *)
Lemma dispatch_outcome (request : Request) (pipe : Pipe)
  (options : HandleOptions) (now : nat) :
  let served := serve w server request pipe options now in
  let run := dispatch w server host request pipe options now in
  let stop := Async.settles run in
  Async.writes (Async.until stop (Async.effects served)) = []
  /\ match Async.result served with
     | inl err =>
         Async.effects run =
           (Async.until stop (Async.effects served)
            ++ [(Async.settles served, Async.Stderr err); (stop, Async.Exit 0%Z)])%list
     | inr res =>
         let written :=
           writeResponse w host res (String.eqb (req_method request) "HEAD")
             (Async.settles served) in
         Async.effects run =
           (Async.until stop (Async.effects served)
            ++ Async.effects written
            ++ match Async.result written with
               | inl err => [(Async.settles written, Async.Stderr err)]
               | inr _ => []
               end
            ++ [(stop, Async.Exit 0%Z)])%list
     end.
Proof.
  intros served run stop.
  split.
  { apply silent_writes. apply Forall_forall. intros ev Hin.
    apply filter_In in Hin.
    pose proof (serve_silent w server request pipe options now) as Hsilent.
    rewrite Forall_forall in Hsilent. apply Hsilent, Hin. }
  destruct (dispatch_effects w server host request pipe options now) as [Hstop Heff].
  cbv zeta in Hstop, Heff. fold run in Hstop, Heff. fold stop in Hstop, Heff.
  assert (Hchain : Async.settles (answered w server host request pipe options now) <= stop).
  { rewrite Hstop. apply fold_max_init. }
  rewrite Heff. clear Heff Hstop.
  unfold answered in *. fold served in Hchain |- *.
  unfold Async.catch_, Async.then_ in *.
  destruct (Async.result served) as [err|res] eqn:Hres;
    cbn [Async.result Async.effects Async.settles] in *.
  - unfold console_error in *. cbn [Async.effects Async.settles] in *.
    rewrite until_app, <- app_assoc. f_equal.
    unfold Async.until. cbn [filter fst].
    replace (Async.settles served <=? stop) with true
      by (symmetry; apply Nat.leb_le; exact Hchain).
    reflexivity.
  - set (written := writeResponse w host res (String.eqb (req_method request) "HEAD")
                      (Async.settles served)) in *.
    destruct (writeResponse_timely res (String.eqb (req_method request) "HEAD")
                (Async.settles served)) as [_ Hticks].
    fold written in Hticks.
    destruct (Async.result written) as [err|u];
      cbn [Async.result Async.effects Async.settles console_error] in *.
    + rewrite !until_app, <- !app_assoc. f_equal. f_equal.
      * apply until_keeps. eapply Forall_impl; [|exact Hticks]. cbv beta. intros; lia.
      * unfold Async.until. cbn [filter fst app].
        replace (Async.settles written <=? stop) with true
          by (symmetry; apply Nat.leb_le; exact Hchain).
        reflexivity.
    + rewrite !until_app, <- !app_assoc. f_equal. f_equal.
      apply until_keeps. eapply Forall_impl; [|exact Hticks]. cbv beta. intros; lia.
Qed.

End Outcome.

Section Program.

Context {rt : Runtime}.
Variable w : World.
Variable server : Framework.
Variable host : Host.
Variable options : HandleOptions.

(** The request that a [start-body] command builds from the listener's
    variables, and the variables after it. *)
Definition request_of (a : Assembler) : Request :=
  {| req_method := method options; req_headers := Handle.headers a |}.

Definition streaming (a : Assembler) : Assembler :=
  {| Handle.headers := Handle.headers a; bodyStart := true;
     Handle.pipe := Handle.pipe a; served := served a ++ [request_of a] |}.

Lemma listener_start (params : list string) (a : Assembler) :
  bodyStart a = false ->
  listener options (Some ("start-body" :: params)) a = inr (streaming a).
Proof.
  intros Hstart. unfold listener. cbn [hd_error tl is_cmd]. rewrite Hstart.
  cbn [negb]. reflexivity.
Qed.

Lemma passed_streaming (a : Assembler) : passed a (streaming a) = Some (request_of a).
Proof.
  unfold passed, streaming. cbn [served].
  rewrite skipn_app, skipn_all, Nat.sub_diag. reflexivity.
Qed.

Lemma passed_same (a a' : Assembler) : served a' = served a -> passed a a' = None.
Proof. intros H. unfold passed. rewrite H, skipn_all. reflexivity. Qed.

Lemma listener_quiet (line : option (list string)) (a a' : Assembler) :
  listener options line a = inr a' -> bodyStart a' = false ->
  bodyStart a = false /\ served a' = served a.
Proof.
  intros H Hquiet. destruct (bodyStart a) eqn:Hstarted.
  - destruct (listener_started options line a a' Hstarted H) as (_ & _ & Hb).
    congruence.
  - split; [reflexivity|].
    unfold listener in H. rewrite Hstarted in H. cbn [negb] in H.
    repeat match type of H with
      | context [if ?c then _ else _] => destruct c
      | context [match ?x with _ => _ end] => destruct x
      end;
      try discriminate H; injection H as <-; try reflexivity;
      discriminate Hquiet.
Qed.

Lemma run_streaming (lines : list (option (list string))) (a : Assembler) :
  bodyStart a = true -> bodyStart (fst (run options lines a)) = true.
Proof.
  revert a. induction lines as [|line more IH]; intros a Hstarted; cbn [run];
    [exact Hstarted|].
  destruct (listener options line a) as [e|a'] eqn:Hline; [exact Hstarted|].
  apply IH. apply (listener_started options line a a' Hstarted Hline).
Qed.

(** Before [start-body] the process reads on. *)
Lemma process_quiet (before more : list (nat * option (list string)))
  (a a' : Assembler) :
  run options (map snd before) a = (a', None) -> bodyStart a' = false ->
  process w server host options (before ++ more) a None
  = process w server host options more a' None.
Proof.
  revert a. induction before as [|[t line] before IH]; intros a Hrun Hquiet;
    cbn [map snd run app process exited] in *.
  - injection Hrun as <-. reflexivity.
  - destruct (listener options line a) as [e|a1] eqn:Hline; [discriminate Hrun|].
    assert (Hb : bodyStart a1 = false).
    { destruct (bodyStart a1) eqn:Hb; [|reflexivity].
      pose proof (run_streaming (map snd before) a1 Hb) as Hs.
      rewrite Hrun in Hs. cbn [fst] in Hs. congruence. }
    destruct (listener_quiet line a a1 Hline Hb) as [_ Hserved].
    rewrite (passed_same a a1 Hserved). apply IH; assumption.
Qed.

(** While the chain runs, the process reads on. *)
Lemma process_running (chain : Async.t unit)
  (lines more : list (nat * option (list string))) (a a' : Assembler) :
  bodyStart a = true ->
  run options (map snd lines) a = (a', None) ->
  Forall (fun l => fst l <= Async.settles chain) lines ->
  process w server host options (lines ++ more) a (Some chain)
  = process w server host options more a' (Some chain).
Proof.
  revert a. induction lines as [|[t line] lines IH]; intros a Hstarted Hrun Hticks;
    cbn [map snd run app process exited] in *.
  - injection Hrun as <-. reflexivity.
  - inversion Hticks as [|? ? Ht Hrest]; subst. cbn [fst] in Ht.
    replace (Async.settles chain <? t) with false
      by (symmetry; apply Nat.ltb_ge; exact Ht).
    destruct (listener options line a) as [e|a1] eqn:Hline; [discriminate Hrun|].
    destruct (listener_started options line a a1 Hstarted Hline) as (_ & Hserved & Hb).
    rewrite (passed_same a a1 Hserved). apply IH; assumption.
Qed.

(** Without an exception the process does what the chain does. *)
Lemma process_done (chain : Async.t unit)
  (lines : list (nat * option (list string))) (a : Assembler) :
  bodyStart a = true ->
  snd (run options (map snd lines) a) = None ->
  process w server host options lines a (Some chain) = Async.effects chain.
Proof.
  revert a. induction lines as [|[t line] lines IH]; intros a Hstarted Hrun;
    cbn [map snd run process exited effects_of] in *; [reflexivity|].
  destruct (Async.settles chain <? t); [reflexivity|].
  destruct (listener options line a) as [e|a1] eqn:Hline; [discriminate Hrun|].
  destruct (listener_started options line a a1 Hstarted Hline) as (_ & Hserved & Hb).
  rewrite (passed_same a a1 Hserved). apply IH; assumption.
Qed.

(** The process up to the command [start-body], which starts the chain. *)
Lemma process_start (before following : list (nat * option (list string)))
  (t0 : nat) (params : list string) (a : Assembler) :
  run options (map snd before) assembler0 = (a, None) -> bodyStart a = false ->
  program w server host options
    (before ++ (t0, Some ("start-body" :: params)) :: following)
  = process w server host options following (streaming a)
      (Some (dispatch w server host (request_of a)
               (Handle.pipe (fst (run options (map snd following) (streaming a))))
               options t0)).
Proof.
  intros Hrun Hquiet. unfold program.
  rewrite (process_quiet before _ assembler0 a Hrun Hquiet).
  cbn [process exited]. rewrite (listener_start params a Hquiet), passed_streaming.
  reflexivity.
Qed.

Lemma uncaught_exits (request : Request) (pipe : Pipe)
  (now t : nat) (e : Js.exn) :
  t <= Async.settles (dispatch w server host request pipe options now) ->
  Async.exits
    (Async.before t (Async.effects (dispatch w server host request pipe options now))
     ++ uncaught e t)
  = [(t, Async.Exit 1%Z)].
Proof.
  intros Ht.
  rewrite (proj2 (dispatch_effects w server host request pipe options now)).
  unfold Async.before at 1. rewrite filter_app. cbn [filter fst].
  replace (Async.settles (dispatch w server host request pipe options now) <? t)
    with false by (symmetry; apply Nat.ltb_ge; exact Ht).
  rewrite app_nil_r. unfold Async.exits. rewrite filter_app.
  match goal with
  | |- (filter ?f ?l ++ _)%list = _ => fold (Async.exits l); rewrite (running_exits l)
  end.
  - reflexivity.
  - apply before_running, until_running, answered_running.
Qed.

End Program.

(** C2, as the code has it.  The [render] action throws exactly when the
    URL or the method is not valid, and nothing catches that: the process
    ends with status 1.  Otherwise the process is that of [handle].  The
    chain that [start-body] starts ends in one call of [process.exit],
    with status 0, whatever the outcome: when [serve] resolved a response
    (a 404 or a 416 as well), the serializer writes it, and an error of
    the serializer is logged; when [serve] threw, nothing is written and
    the error is logged.  So the process ends with status 0 when no
    exception leaves the line listener before that exit; and it ends with
    status 1 at the first line on which the listener throws, be it before
    [start-body] or while the chain runs: then the chain goes no further.
    Lines without a [start-body] command, and on which the listener does
    not throw, make the process do nothing. *)
Theorem exit_status_of_the_process {rt : Runtime}
  (w : World) (server : Framework) (host : Host)
  (opts : Cli.Opts) (options : HandleOptions)
  (before following middle after : list (nat * option (list string)))
  (t0 t : nat) (params : list string) (line : option (list string))
  (a : Assembler) (e : Js.exn) :
  let start := (t0, Some ("start-body" :: params)) in
  let request := request_of options a in
  let body := Handle.pipe (fst (run options (map snd following) (streaming options a))) in
  let served := serve w server request body options t0 in
  let chain := dispatch w server host request body options t0 in
  let stop := Async.settles chain in
  match Cli.action opts with
  | inl err =>
      (forall input, Cli.render w server host opts input = uncaught err 0)
      /\ ((forall u, Cli.url opts = Cli.Text u -> URL_parse u = None)
          \/ (forall m, Cli.method opts = Cli.Text m ->
                        ~ In (toUpperCase m) Cli.methods))
  | inr started =>
      (forall input,
         Cli.render w server host opts input = program w server host started input)
      /\ exists u m,
           Cli.url opts = Cli.Text u /\ URL_parse u = Some (url started)
           /\ Cli.method opts = Cli.Text m /\ method started = toUpperCase m
           /\ In (toUpperCase m) Cli.methods
  end
  /\ Async.exits (uncaught e t) = [(t, Async.Exit 1%Z)]
  /\ Async.exits (Async.effects chain) = [(stop, Async.Exit 0%Z)]
  /\ Async.writes (Async.until stop (Async.effects served)) = []
  /\ match Async.result served with
     | inl err =>
         Async.effects chain =
           (Async.until stop (Async.effects served)
            ++ [(Async.settles served, Async.Stderr err); (stop, Async.Exit 0%Z)])%list
     | inr res =>
         let written :=
           writeResponse w host res (String.eqb (req_method request) "HEAD")
             (Async.settles served) in
         Async.effects chain =
           (Async.until stop (Async.effects served)
            ++ Async.effects written
            ++ match Async.result written with
               | inl err => [(Async.settles written, Async.Stderr err)]
               | inr _ => []
               end
            ++ [(stop, Async.Exit 0%Z)])%list
     end
  /\ (run options (map snd before) assembler0 = (a, None) ->
      bodyStart a = false ->
      program w server host options before = []
      /\ (listener options line a = inl e ->
          program w server host options (before ++ (t, line) :: after) = uncaught e t)
      /\ (snd (run options (map snd following) (streaming options a)) = None ->
          program w server host options (before ++ start :: following)
          = Async.effects chain)
      /\ (following = (middle ++ (t, line) :: after)%list ->
          snd (run options (map snd middle) (streaming options a)) = None ->
          Forall (fun l => fst l <= stop) middle ->
          (stop < t ->
           program w server host options (before ++ start :: following)
           = Async.effects chain)
          /\ (t <= stop ->
              listener options line
                (fst (run options (map snd middle) (streaming options a))) = inl e ->
              program w server host options (before ++ start :: following)
              = (Async.before t (Async.effects chain) ++ uncaught e t)%list
              /\ Async.exits (Async.before t (Async.effects chain) ++ uncaught e t)
                 = [(t, Async.Exit 1%Z)]))).
Proof.
  intros start request body served chain stop.
  split; [|split; [reflexivity|split; [|split; [|split]]]].
  - unfold Cli.render, Cli.action.
    destruct (Cli.url opts) as [| | |u] eqn:Hurl;
      try (split; [reflexivity | left; intros u' Hu'; discriminate Hu']).
    destruct (URL_parse u) as [parsed|] eqn:Hparse.
    + destruct (Cli.method opts) as [| | |m] eqn:Hmethod;
        try (split; [reflexivity | right; intros m' Hm'; discriminate Hm']).
      destruct (existsb (String.eqb (toUpperCase m)) Cli.methods) eqn:Hin;
        cbn [negb]; (split; [reflexivity|]).
      * exists u, m. cbn [url method]. repeat split; try assumption.
        apply methods_member. exact Hin.
      * right. intros m' Hm' Hmem. injection Hm' as <-.
        apply methods_member in Hmem. congruence.
    + split; [reflexivity|]. left. intros u' Hu'. injection Hu' as <-. exact Hparse.
  - exact (dispatch_exits w server host request body options t0).
  - exact (proj1 (dispatch_outcome w server host request body options t0)).
  - exact (proj2 (dispatch_outcome w server host request body options t0)).
  - intros Hbefore Hquiet. split; [|split; [|split]].
    + unfold program. rewrite <- (app_nil_r before).
      rewrite (process_quiet w server host options before _ assembler0 a Hbefore Hquiet).
      reflexivity.
    + intros Hline. unfold program.
      rewrite (process_quiet w server host options before _ assembler0 a Hbefore Hquiet).
      cbn [process exited effects_of]. rewrite Hline. reflexivity.
    + intros Hfollowing. unfold start.
      rewrite (process_start w server host options before following t0 params a
                 Hbefore Hquiet).
      apply process_done; [reflexivity | exact Hfollowing].
    + intros Hsplit Hmiddle Hticks.
      destruct (run options (map snd middle) (streaming options a))
        as [a2 thrown] eqn:Hrun.
      cbn [snd fst] in *. subst thrown.
      assert (Hgoes :
        program w server host options (before ++ start :: following)
        = process w server host options ((t, line) :: after) a2 (Some chain)).
      { unfold start.
        rewrite (process_start w server host options before following t0 params a
                   Hbefore Hquiet).
        fold request body chain. rewrite Hsplit.
        apply process_running; [reflexivity | exact Hrun | exact Hticks]. }
      rewrite Hgoes. cbn [process exited effects_of]. fold stop.
      split.
      * intros Hlate.
        replace (stop <? t) with true by (symmetry; apply Nat.ltb_lt; exact Hlate).
        reflexivity.
      * intros Hearly Hline.
        replace (stop <? t) with false by (symmetry; apply Nat.ltb_ge; exact Hearly).
        rewrite Hline. split; [reflexivity|].
        apply uncaught_exits. exact Hearly.
Qed.

(** The theorem on the sample host, for a [header] command, [start-body]
    at tick 1 and two more lines.  With [data] and [end-body] the process
    ends at tick 53 with status 0.  With a [data] command that has no
    payload, at tick 2, the listener throws and the process ends there
    with status 1, before anything is written. *)
Lemma exit_status_of_the_process_witness :
  let options := Sample.options "http://localhost/api" None in
  let header := (0, Some ["header"; "accept"; "*/*"]) in
  let start := (1, Some ["start-body"]) in
  Async.exits
    (program (rt := Sample.runtime) Sample.world (Sample.framework 1) Sample.host options
       [header; start; (2, Some ["data"; "aGVs"]); (3, Some ["end-body"])])
  = [(53, Async.Exit 0%Z)]
  /\ program (rt := Sample.runtime) Sample.world (Sample.framework 1) Sample.host options
       [header; start; (2, Some ["data"]); (3, Some ["end-body"])]
     = [(2, Async.Stderr "TypeError"); (2, Async.Exit 1%Z)].
Proof.
  intros options header start.
  pose (a := {| Handle.headers := [("accept", "*/*")]; bodyStart := false;
                Handle.pipe := Handle.pipe assembler0; served := [] |}).
  pose (opts := {| Cli.url := Cli.Text "http://localhost/api";
                   Cli.method := Cli.Text "get"; Cli.clientIp := Cli.Undefined;
                   Cli.static := Cli.Flag true |}).
  split.
  - destruct (exit_status_of_the_process (rt := Sample.runtime)
                Sample.world (Sample.framework 1) Sample.host opts options
                [header] [(2, Some ["data"; "aGVs"]); (3, Some ["end-body"])] [] []
                1 0 [] None a "")
      as (_ & _ & Hexits & _ & _ & Hprocess).
    destruct (Hprocess eq_refl eq_refl) as (_ & _ & Hdone & _).
    change ([header; start; (2, Some ["data"; "aGVs"]); (3, Some ["end-body"])])
      with ([header] ++ start :: [(2, Some ["data"; "aGVs"]); (3, Some ["end-body"])])%list.
    unfold start. rewrite (Hdone eq_refl), Hexits.
    vm_compute. reflexivity.
  - destruct (exit_status_of_the_process (rt := Sample.runtime)
                Sample.world (Sample.framework 1) Sample.host opts options
                [header] [(2, Some ["data"]); (3, Some ["end-body"])] []
                [(3, Some ["end-body"])] 1 2 [] (Some ["data"]) a "TypeError")
      as (_ & _ & _ & _ & _ & Hprocess).
    destruct (Hprocess eq_refl eq_refl) as (_ & _ & _ & Hthrown).
    destruct (Hthrown eq_refl eq_refl (Forall_nil _)) as (_ & Hearly).
    destruct Hearly as (Hprogram & _); [vm_compute; lia | reflexivity |].
    change ([header; start; (2, Some ["data"]); (3, Some ["end-body"])])
      with ([header] ++ start :: [(2, Some ["data"]); (3, Some ["end-body"])])%list.
    unfold start. rewrite Hprogram. vm_compute. reflexivity.
Defined.

(** C2 as stated fails: [render --url http://localhost/api --method get]
    with a framework whose handler throws.  The dispatch throws before
    anything is serialized, the error is logged, nothing is written, and
    the process exits with status 0. *)
Lemma dispatch_failure_exits_zero :
  let opts := {| Cli.url := Cli.Text "http://localhost/api";
                 Cli.method := Cli.Text "get"; Cli.clientIp := Cli.Undefined;
                 Cli.static := Cli.Flag true |} in
  let output :=
    Cli.render (rt := Sample.runtime) Sample.world Sample.failing Sample.host opts
      [(0, Some ["start-body"])] in
  output = [(3, Async.Stderr "boom"); (3, Async.Exit 0%Z)]
  /\ Async.writes output = []
  /\ Async.exits output = [(3, Async.Exit 0%Z)].
Proof. repeat split; vm_compute; reflexivity. Qed.

End HandleFacts.

(** ** The [render] command and the client address *)

Module CliFacts.

Import Static.
Local Open Scope string_scope.

(** On every host: the options that the action hands to [handle]
    always carry a client address, the interpolation of [opts.clientIp]. *)
Lemma action_client_ip {rt : Runtime} (opts : Cli.Opts) (options : HandleOptions) :
  Cli.action opts = inr options ->
  clientIP options = Some (Cli.interpolate (Cli.clientIp opts)).
Proof.
  unfold Cli.action. intros H.
  repeat match type of H with
    | context [if ?c then _ else _] => destruct c
    | context [match ?x with _ => _ end] => destruct x
    end;
    try discriminate H.
  injection H as <-. reflexivity.
Qed.

(** On every host: with [--client-ip] set to a text that is not empty,
    the resolver returns that text. *)
Lemma configured_client_ip {rt : Runtime}
  (opts : Cli.Opts) (options : HandleOptions) (ip : string) :
  Cli.action opts = inr options ->
  Cli.clientIp opts = Cli.Text ip ->
  ip <> "" ->
  Handle.getClientAddress options tt = inr ip.
Proof.
  intros H Hip Hne. unfold Handle.getClientAddress.
  rewrite (action_client_ip opts options H), Hip. simpl.
  unfold Js.truthy_string. apply String.eqb_neq in Hne. rewrite Hne. reflexivity.
Qed.

(** On every host: without [--client-ip] the resolver returns the text
    [undefined]. *)
Lemma missing_client_ip {rt : Runtime} (opts : Cli.Opts) (options : HandleOptions) :
  Cli.action opts = inr options ->
  Cli.clientIp opts = Cli.Undefined ->
  Handle.getClientAddress options tt = inr "undefined".
Proof.
  intros H Hip. unfold Handle.getClientAddress.
  rewrite (action_client_ip opts options H), Hip. reflexivity.
Qed.

(** C5, on the code: for [render --url http://localhost/ --method get],
    without [--client-ip], the action hands [handle] the client address
    [undefined], a text, and the resolver returns it; the resolver throws
    only for options without a client address or with an empty one,
    which the action never builds from a missing option. *)
Theorem missing_client_ip_is_the_text_undefined :
  let opts := {| Cli.url := Cli.Text "http://localhost/";
                 Cli.method := Cli.Text "get";
                 Cli.clientIp := Cli.Undefined;
                 Cli.static := Cli.Flag true |} in
  exists options,
    Cli.action (rt := Sample.runtime) opts = inr options
    /\ clientIP options = Some "undefined"
    /\ Handle.getClientAddress options tt = inr "undefined"
    /\ Handle.getClientAddress
         {| method := method options; url := url options;
            clientIP := None; static := static options |} tt
       = inl "Unable to determine client IP.".
Proof. eexists. repeat split; reflexivity. Qed.

End CliFacts.

(** ** Decimal numerals *)

Module JsFacts.

Local Open Scope string_scope.
Local Open Scope Z_scope.

Lemma digits_value_acc (d : Decimal.uint) (p : positive) :
  Js.digits_value (Z.pos p) (NilEmpty.string_of_uint d) = Z.pos (Pos.of_uint_acc d p).
Proof.
  revert p.
  induction d; intros p; cbn [NilEmpty.string_of_uint Js.digits_value Pos.of_uint_acc];
    [reflexivity | rewrite <- IHd; f_equal ..].
  all: match goal with
       | |- context [Z.of_nat (nat_of_ascii ?c)] =>
           let v := eval vm_compute in (Z.of_nat (nat_of_ascii c)) in
           change (Z.of_nat (nat_of_ascii c)) with v
       end; lia.
Qed.

Lemma digits_value_uint (d : Decimal.uint) :
  Js.digits_value 0 (NilEmpty.string_of_uint d) = Z.of_N (Pos.of_uint d).
Proof.
  induction d; cbn [NilEmpty.string_of_uint Js.digits_value Pos.of_uint];
    [reflexivity | exact IHd | cbn [Z.of_N]; rewrite <- digits_value_acc; f_equal ..].
  all: match goal with
       | |- context [Z.of_nat (nat_of_ascii ?c)] =>
           let v := eval vm_compute in (Z.of_nat (nat_of_ascii c)) in
           change (Z.of_nat (nat_of_ascii c)) with v
       end; lia.
Qed.

(** The numeral of a natural number: digits, and at least one. *)
Lemma show_digits (n : Z) :
  0 <= n ->
  exists d, d <> Decimal.Nil /\ Js.show n = NilEmpty.string_of_uint d
            /\ Z.of_N (Pos.of_uint d) = n.
Proof.
  intros Hn. destruct n as [|p|p]; [| |lia].
  - exists (Decimal.D0 Decimal.Nil). repeat split. discriminate.
  - exists (Pos.to_uint p). split; [apply DecimalPos.Unsigned.to_uint_nonnil|].
    split.
    + unfold Js.show. cbn [Z.to_int NilZero.string_of_int NilZero.string_of_uint].
      pose proof (DecimalPos.Unsigned.to_uint_nonnil p) as Hnil.
      destruct (Pos.to_uint p); [contradiction | reflexivity ..].
    + rewrite DecimalPos.Unsigned.of_to. reflexivity.
Qed.

Lemma numeral_digits (d : Decimal.uint) :
  Js.numeral (NilEmpty.string_of_uint d) = Js.digits_value 0 (NilEmpty.string_of_uint d).
Proof. destruct d; reflexivity. Qed.

(** The numeral that a template literal prints has the value printed. *)
Lemma numeral_show (n : Z) : Js.numeral (Js.show n) = n.
Proof.
  destruct (Z.le_gt_cases 0 n) as [Hn|Hn].
  - destruct (show_digits n Hn) as [d [_ [-> Hd]]].
    rewrite numeral_digits, digits_value_uint. exact Hd.
  - destruct n as [|p|p]; try lia.
    unfold Js.show. cbn [Z.to_int NilZero.string_of_int NilZero.string_of_uint].
    pose proof (DecimalPos.Unsigned.to_uint_nonnil p) as Hnil.
    assert (Hs : Js.numeral (String "-" (NilEmpty.string_of_uint (Pos.to_uint p)))
                 = - Z.pos p).
    { cbn [Js.numeral]. rewrite digits_value_uint, DecimalPos.Unsigned.of_to.
      reflexivity. }
    destruct (Pos.to_uint p); [contradiction | exact Hs ..].
Qed.

(** The unary [+] reads back what a template literal has printed, as
    the Number nearest to it. *)
Lemma to_number_show (n : Z) : Js.to_number (Js.show n) = Js.of_Z n.
Proof. unfold Js.to_number. rewrite numeral_show. reflexivity. Qed.

Lemma safe_bounds : 2 <= Js.safe /\ Js.safe < Js.huge /\ Js.safe = 2 ^ 52 * 2.
Proof. repeat split; vm_compute; congruence. Qed.

(** Up to [2 ^ 53] every natural number is a double. *)
Lemma nearest_exact (z : Z) : z <= Js.safe -> Js.nearest z = z.
Proof.
  intros Hz. unfold Js.nearest.
  destruct (z <? Js.safe) eqn:Hlt; [reflexivity|].
  apply Z.ltb_ge in Hlt. assert (z = Js.safe) as -> by lia.
  vm_compute. reflexivity.
Qed.

(** Rounding keeps a number above [2 ^ 53] above it. *)
Lemma nearest_large (z : Z) : Js.safe <= z -> Js.safe <= Js.nearest z.
Proof.
  intros Hz. unfold Js.nearest.
  destruct (z <? Js.safe) eqn:Hlt; [apply Z.ltb_lt in Hlt; lia|].
  destruct safe_bounds as (H2 & _ & Hsafe).
  assert (Hpos : 0 < z) by lia.
  assert (Hlog : 53 <= Z.log2 z).
  { change 53 with (Z.log2 Js.safe). apply Z.log2_le_mono. exact Hz. }
  set (e := Z.log2 z - 52).
  assert (He : 1 <= e) by (unfold e; lia).
  assert (Hpow : 0 < 2 ^ e) by (apply Z.pow_pos_nonneg; lia).
  assert (Hq : 2 ^ 52 <= z / 2 ^ e).
  { apply Z.div_le_lower_bound; [exact Hpow|].
    rewrite <- Z.pow_add_r by lia.
    replace (e + 52) with (Z.log2 z) by (unfold e; lia).
    apply Z.log2_spec. exact Hpos. }
  assert (H2e : 2 <= 2 ^ e).
  { change 2 with (2 ^ 1) at 1. apply Z.pow_le_mono_r; lia. }
  set (q := z / 2 ^ e) in *.
  assert (Hmul : forall k, q <= k -> Js.safe <= k * 2 ^ e).
  { intros k Hk. rewrite Hsafe.
    apply Z.mul_le_mono_nonneg; first [lia | apply Z.pow_nonneg; lia]. }
  destruct ((2 ^ (e - 1) <? z mod 2 ^ e) || ((z mod 2 ^ e =? 2 ^ (e - 1)) && Z.odd q));
    apply Hmul; lia.
Qed.

Lemma of_natural_exact (z : Z) : 0 <= z <= Js.safe -> Js.of_natural z = Js.Finite z.
Proof.
  intros Hz. unfold Js.of_natural. rewrite nearest_exact by lia.
  destruct safe_bounds as (_ & Hhuge & _).
  replace (z <? Js.huge) with true by (symmetry; apply Z.ltb_lt; lia).
  reflexivity.
Qed.

Lemma of_natural_large (z : Z) :
  Js.safe <= z ->
  Js.of_natural z = Js.Infinity
  \/ exists m, Js.of_natural z = Js.Finite m /\ Js.safe <= m.
Proof.
  intros Hz. unfold Js.of_natural.
  destruct (Js.nearest z <? Js.huge); [right | left; reflexivity].
  exists (Js.nearest z). split; [reflexivity | apply nearest_large; exact Hz].
Qed.

(** A safe integer is a Number as it is. *)
Lemma of_Z_exact (z : Z) : - Js.safe <= z <= Js.safe -> Js.of_Z z = Js.Finite z.
Proof.
  intros Hz. unfold Js.of_Z. destruct (z <? 0) eqn:Hneg.
  - apply Z.ltb_lt in Hneg. rewrite of_natural_exact by lia.
    cbn [Js.neg]. rewrite Z.opp_involutive. reflexivity.
  - apply Z.ltb_ge in Hneg. apply of_natural_exact. lia.
Qed.

(** Above the safe integers a Number stays above them. *)
Lemma of_Z_above (z : Z) :
  Js.safe <= z ->
  Js.of_Z z = Js.Infinity \/ exists m, Js.of_Z z = Js.Finite m /\ Js.safe <= m.
Proof.
  intros Hz. destruct safe_bounds as (H2 & _). unfold Js.of_Z.
  replace (z <? 0) with false by (symmetry; apply Z.ltb_ge; lia).
  apply of_natural_large. exact Hz.
Qed.

(** Below the safe integers a Number stays below them. *)
Lemma of_Z_below (z : Z) :
  z <= - Js.safe ->
  Js.of_Z z = Js.NegInfinity \/ exists m, Js.of_Z z = Js.Finite m /\ m <= - Js.safe.
Proof.
  intros Hz. destruct safe_bounds as (H2 & _). unfold Js.of_Z.
  replace (z <? 0) with true by (symmetry; apply Z.ltb_lt; lia).
  destruct (of_natural_large (- z)) as [-> | [m [-> Hm]]]; [lia | left; reflexivity |].
  right. exists (- m). split; [reflexivity | lia].
Qed.

Lemma of_Z_not_NaN (z : Z) : Js.of_Z z <> Js.NaN.
Proof.
  unfold Js.of_Z, Js.of_natural.
  destruct (z <? 0); [destruct (Js.nearest (- z) <? Js.huge)
                     | destruct (Js.nearest z <? Js.huge)]; discriminate.
Qed.

Lemma of_Z_negative (z : Z) : z < 0 -> Js.ltb (Js.of_Z z) (Js.Finite 0) = true.
Proof.
  intros Hz. destruct safe_bounds as (H2 & _).
  destruct (Z.le_gt_cases (- Js.safe) z) as [Hsafe|Hsafe].
  - rewrite of_Z_exact by lia. apply Z.ltb_lt. exact Hz.
  - destruct (of_Z_below z) as [-> | [m [-> Hm]]]; [lia | reflexivity |].
    apply Z.ltb_lt. lia.
Qed.

Lemma of_Z_natural (z : Z) : 0 <= z -> Js.ltb (Js.of_Z z) (Js.Finite 0) = false.
Proof.
  intros Hz. destruct safe_bounds as (H2 & _).
  destruct (Z.le_gt_cases z Js.safe) as [Hsafe|Hsafe].
  - rewrite of_Z_exact by lia. apply Z.ltb_ge. exact Hz.
  - destruct (of_Z_above z) as [-> | [m [-> Hm]]]; [lia | reflexivity |].
    apply Z.ltb_ge. lia.
Qed.

Lemma of_Z_truthy (z : Z) : z <> 0 -> Js.truthy (Js.of_Z z) = true.
Proof.
  intros Hz. destruct safe_bounds as (H2 & _).
  destruct (Z.le_gt_cases z (- Js.safe - 1)) as [Hlow|Hlow].
  - destruct (of_Z_below z) as [-> | [m [-> Hm]]]; [lia | reflexivity |].
    apply negb_true_iff, Z.eqb_neq. lia.
  - destruct (Z.le_gt_cases z Js.safe) as [Hsafe|Hsafe].
    + rewrite of_Z_exact by lia. apply negb_true_iff, Z.eqb_neq. exact Hz.
    + destruct (of_Z_above z) as [-> | [m [-> Hm]]]; [lia | reflexivity |].
      apply negb_true_iff, Z.eqb_neq. lia.
Qed.

(** A number that is at least a safe integer compares so. *)
Lemma of_Z_at_least (size z : Z) :
  0 <= size < Js.safe -> size <= z -> Js.leb (Js.Finite size) (Js.of_Z z) = true.
Proof.
  intros Hsize Hz.
  destruct (Z.le_gt_cases z Js.safe) as [Hsafe|Hsafe].
  - rewrite of_Z_exact by lia. apply Z.leb_le. exact Hz.
  - destruct (of_Z_above z) as [-> | [m [-> Hm]]]; [lia | reflexivity |].
    apply Z.leb_le. lia.
Qed.

(** A safe integer less a larger number is negative. *)
Lemma add_of_Z_negative (size n : Z) :
  0 <= size < Js.safe -> size < n ->
  Js.ltb (Js.add (Js.Finite size) (Js.of_Z (- n))) (Js.Finite 0) = true.
Proof.
  intros Hsize Hn.
  destruct (Z.le_gt_cases n Js.safe) as [Hsafe|Hsafe].
  - rewrite of_Z_exact by lia. cbn [Js.add]. apply of_Z_negative. lia.
  - destruct (of_Z_below (- n)) as [-> | [m [-> Hm]]]; [lia | reflexivity |].
    cbn [Js.add]. apply of_Z_negative. lia.
Qed.

Lemma add_finite (a b : Z) :
  - Js.safe <= a + b <= Js.safe -> Js.add (Js.Finite a) (Js.Finite b) = Js.Finite (a + b).
Proof. intros H. cbn [Js.add]. apply of_Z_exact. exact H. Qed.

Lemma sub_finite (a b : Z) :
  - Js.safe <= a - b <= Js.safe -> Js.sub (Js.Finite a) (Js.Finite b) = Js.Finite (a - b).
Proof.
  intros H. unfold Js.sub. cbn [Js.neg]. rewrite add_finite by lia.
  f_equal.
Qed.

(** A safe integer prints as its decimal digits. *)
Lemma show_number_safe (z : Z) :
  - Js.safe < z < Js.safe -> Js.show_number (Js.Finite z) = Js.show z.
Proof.
  intros H. cbn [Js.show_number].
  replace (Z.abs z <? Js.safe) with true by (symmetry; apply Z.ltb_lt; lia).
  reflexivity.
Qed.

Lemma clamp_safe (z : Z) : - Js.safe < z < Js.safe -> Js.clamp (Js.Finite z) = z.
Proof. intros H. cbn [Js.clamp]. lia. Qed.

Lemma add_not_NaN (x : Js.number) (b : Z) :
  x <> Js.NaN -> Js.add x (Js.Finite b) <> Js.NaN.
Proof.
  destruct x as [a| | |]; cbn [Js.add]; try discriminate; [|contradiction].
  intros _. apply of_Z_not_NaN.
Qed.

End JsFacts.

(** ** Header lists *)

Module HeadersFacts.

Local Open Scope string_scope.

(** A string that [strip_end] keeps whole: not empty, no HTTP white
    space at its end. *)
Definition kept (s : string) : Prop := s <> "" /\ Headers.strip_end s = s.

Lemma kept_app (a b : string) : kept b -> kept (a ++ b).
Proof.
  intros [Hne Hb]. induction a as [|c a [IHne IH]]; [split; assumption|].
  split; [discriminate|].
  cbn [append Headers.strip_end]. rewrite IH.
  destruct (a ++ b); [contradiction | reflexivity].
Qed.

Lemma kept_digits (d : Decimal.uint) :
  d <> Decimal.Nil -> kept (NilEmpty.string_of_uint d).
Proof.
  induction d; intros Hd; [contradiction | ..];
    (split; [discriminate|]);
    cbn [NilEmpty.string_of_uint Headers.strip_end];
    (destruct d; [reflexivity | ..]);
    match goal with
    | IH : _ -> kept _ |- _ =>
        destruct IH as [Hne ->]; [discriminate|];
        destruct (NilEmpty.string_of_uint _); [contradiction | reflexivity]
    end.
Qed.

Lemma kept_show (n : Z) : kept (Js.show n).
Proof.
  destruct n as [|p|p].
  - split; [discriminate | reflexivity].
  - destruct (JsFacts.show_digits (Z.pos p)) as [d [Hd [-> _]]]; [lia|].
    apply kept_digits. exact Hd.
  - unfold Js.show. cbn [Z.to_int NilZero.string_of_int].
    change (kept ("-" ++ NilZero.string_of_uint (Pos.to_uint p))).
    apply kept_app.
    destruct (JsFacts.show_digits (Z.pos p)) as [d [Hd [Hs _]]]; [lia|].
    unfold Js.show in Hs. cbn [Z.to_int NilZero.string_of_int] in Hs.
    rewrite Hs. apply kept_digits. exact Hd.
Qed.

Lemma normalize_kept (c : ascii) (s : string) :
  Headers.is_http_space c = false -> kept (String c s) ->
  Headers.normalize (String c s) = String c s.
Proof.
  intros Hc [_ Hs]. unfold Headers.normalize.
  cbn [Headers.strip_start]. rewrite Hc. exact Hs.
Qed.

(** A numeral is stored as it is. *)
Lemma normalize_show (n : Z) : Headers.normalize (Js.show n) = Js.show n.
Proof.
  pose proof (kept_show n) as Hk.
  destruct n as [|p|p]; [reflexivity | |].
  - destruct (JsFacts.show_digits (Z.pos p)) as [d [Hd [Hs _]]]; [lia|].
    rewrite Hs in *.
    destruct d; [contradiction | apply normalize_kept; [reflexivity | exact Hk] ..].
  - unfold Js.show in *. cbn [Z.to_int NilZero.string_of_int] in *.
    apply normalize_kept; [reflexivity | exact Hk].
Qed.

Lemma named_lower (name : string) (value : string) :
  Headers.named name (Js.toLowerAscii name, value) = true.
Proof. unfold Headers.named. apply String.eqb_refl. Qed.

Lemma has_filter (h : Headers.t) (name : string) :
  Headers.has h name = false -> filter (Headers.named name) h = [].
Proof.
  unfold Headers.has. induction h as [|e h IH]; simpl; [reflexivity|].
  destruct (Headers.named name e); [discriminate | exact IH].
Qed.

(** [set] then [get]: the value, normalised, and alone. *)
Lemma get_set_same (h : Headers.t) (name value : string) :
  Headers.get (Headers.set h name value) name = Some (Headers.normalize value).
Proof.
  unfold Headers.get, Headers.set.
  destruct (Headers.has h name) eqn:Hhas.
  - unfold Headers.has in Hhas.
    induction h as [|e h IH]; [discriminate|].
    cbn [Headers.replace_first]. cbn [existsb] in Hhas.
    destruct (Headers.named name e) eqn:He.
    + cbn [filter]. unfold Headers.named at 1. cbn [fst]. fold (Headers.named name e).
      rewrite He.
      replace (filter (Headers.named name)
                 (filter (fun e' => negb (Headers.named name e')) h)) with (@nil (string * string)).
      * reflexivity.
      * clear. induction h as [|e h IH]; [reflexivity|].
        cbn [filter]. destruct (Headers.named name e) eqn:He; cbn [negb filter];
          [exact IH | rewrite He; exact IH].
    + cbn [filter]. rewrite He. apply IH. exact Hhas.
  - unfold Headers.append. rewrite filter_app, (has_filter _ _ Hhas).
    cbn [filter app]. rewrite named_lower. reflexivity.
Qed.

(** [set] leaves the headers of other names as they are. *)
Lemma get_set_other (h : Headers.t) (name value other : string) :
  Js.toLowerAscii name <> Js.toLowerAscii other ->
  Headers.get (Headers.set h name value) other = Headers.get h other.
Proof.
  intros Hne.
  assert (Hexcl : forall e, Headers.named other e = true -> Headers.named name e = false).
  { intros e He. unfold Headers.named in *. apply String.eqb_eq in He.
    apply String.eqb_neq. congruence. }
  assert (Hfilter : filter (Headers.named other) (Headers.set h name value)
                    = filter (Headers.named other) h).
  { unfold Headers.set. destruct (Headers.has h name).
    - induction h as [|e h IH]; [reflexivity|].
      cbn [Headers.replace_first].
      destruct (Headers.named name e) eqn:He.
      + cbn [filter].
        assert (Ho : Headers.named other e = false).
        { destruct (Headers.named other e) eqn:Ho; [|reflexivity].
          rewrite (Hexcl e Ho) in He. discriminate. }
        unfold Headers.named at 1. cbn [fst]. fold (Headers.named other e).
        rewrite Ho. clear IH.
        induction h as [|e' h IH]; [reflexivity|].
        cbn [filter]. destruct (Headers.named other e') eqn:Ho'.
        * rewrite (Hexcl e' Ho'). cbn [negb filter]. rewrite Ho', IH. reflexivity.
        * destruct (negb (Headers.named name e')); cbn [filter]; rewrite ?Ho'; exact IH.
      + cbn [filter]. rewrite IH. reflexivity.
    - unfold Headers.append. rewrite filter_app. cbn [filter].
      unfold Headers.named at 2. cbn [fst].
      assert (Hb : String.eqb (Js.toLowerAscii name) (Js.toLowerAscii other) = false)
        by (apply String.eqb_neq; exact Hne).
      rewrite Hb. apply app_nil_r. }
  unfold Headers.get. rewrite Hfilter. reflexivity.
Qed.

End HeadersFacts.

(** ** Static file resolver: lookup, ranges, negotiation *)

Module ResolverFacts.

Import Static.
Local Open Scope string_scope.
Local Open Scope Z_scope.

(** The tests of a function body, one at a time and in the order of the
    code: the test at the head of [H] is decided, and the branches that
    give no response are closed. *)
Ltac head H :=
  cbv beta iota zeta in H;
  match type of H with
  | (let '(_, _) := (if ?c then _ else _) in _) = _ => destruct c eqn:?
  | (if ?c then _ else _) = _ => destruct c eqn:?
  | (match ?x with _ => _ end) = _ => destruct x eqn:?
  end;
  try discriminate H.

Ltac walk H := repeat head H.

Lemma statFile_file (w : World) (path : string) (stats : Stats) :
  statFile w path = Some stats ->
  exists content ms,
    fs w path = Some (File content ms)
    /\ stats = {| size := Z.of_nat (List.length content); mtimeMs := ms; isFile := true |}.
Proof.
  unfold statFile, existsSync, statSync.
  destruct (fs w path) as [[content ms|]|]; simpl; try discriminate.
  intros [= <-]. exists content, ms. split; reflexivity.
Qed.

Lemma lookup_from_first (w : World) (path : string) (tries : list string) :
  match lookup_from w path tries with
  | (resolved, Some stats) =>
      exists before suffix after,
        tries = (before ++ suffix :: after)%list
        /\ resolved = path ++ suffix
        /\ statFile w resolved = Some stats
        /\ Forall (fun s => statFile w (path ++ s) = None) before
  | (resolved, None) =>
      resolved = "" /\ Forall (fun s => statFile w (path ++ s) = None) tries
  end.
Proof.
  induction tries as [|suffix more IH]; cbn [lookup_from].
  - split; [reflexivity | constructor].
  - destruct (statFile w (path ++ suffix)) as [stats|] eqn:Hstat.
    + exists [], suffix, more. repeat split; auto.
    + destruct (lookup_from w path more) as [resolved [stats|]].
      * destruct IH as [before [s [after [-> [-> [Hs Hbefore]]]]]].
        exists (suffix :: before), s, after. repeat split; auto.
      * destruct IH as [-> Hall]. split; [reflexivity|]. constructor; assumption.
Qed.

(** X1: [lookup] resolves to the first candidate that is a regular file, in
    the order: the path itself, then the path with [.html], [.htm],
    [/index.html], [/index.htm]; the stats are those of that file; when no
    candidate is a regular file the result is the empty path without stats. *)
Theorem lookup_first_regular_file (w : World) (path : string) :
  match lookup w path with
  | (resolved, Some stats) =>
      (exists content ms,
          fs w resolved = Some (File content ms)
          /\ stats = {| size := Z.of_nat (List.length content);
                        mtimeMs := ms; isFile := true |})
      /\ (resolved = path
          \/ (statFile w path = None
              /\ exists before suffix after,
                   tryFiles = (before ++ suffix :: after)%list
                   /\ resolved = path ++ suffix
                   /\ Forall (fun s => statFile w (path ++ s) = None) before))
  | (resolved, None) =>
      resolved = ""
      /\ statFile w path = None
      /\ Forall (fun s => statFile w (path ++ s) = None) tryFiles
  end.
Proof.
  unfold lookup. destruct (statFile w path) as [stats|] eqn:Hpath.
  - split; [apply statFile_file; exact Hpath | left; reflexivity].
  - pose proof (lookup_from_first w path tryFiles) as Hfrom.
    destruct (lookup_from w path tryFiles) as [resolved [stats|]].
    + destruct Hfrom as [before [suffix [after [Htries [-> [Hstat Hbefore]]]]]].
      split; [apply statFile_file; exact Hstat|].
      right. split; [reflexivity|]. exists before, suffix, after. auto.
    + destruct Hfrom as [-> Hall]. auto.
Qed.

(** X2: Every response of the resolver is a 200 or a 206 with a body, or a
    302, a 304 or a 416 without one; and there is a response only for a
    [GET] or a [HEAD], under an existing base directory, for a path that
    decodes, that no ignore pattern matches and for which [lookup] found
    a regular file. *)
Theorem serveStatic_answers {rt : Runtime}
  (w : World) (request : Request) (options : HandleOptions)
  (basePath : string) (cache : bool) (res : Response) :
  serveStatic w request options basePath cache = inr (Some res) ->
  ((In (status res) [200; 206] /\ body res <> None)
   \/ (In (status res) [302; 304; 416] /\ body res = None))
  /\ (req_method request = "GET" \/ req_method request = "HEAD")
  /\ existsSync w basePath = true
  /\ exists decoded resolved stats,
       decodeURIComponent (pathname (url options)) = Some decoded
       /\ ignored w (replace_root (path_normalize decoded)) = false
       /\ lookup w (basePath ++ replace_root (path_normalize decoded))
          = (resolved, Some stats).
Proof.
  intros H. unfold serveStatic in H.
  head H. head H. head H. head H. head H. head H.
  split; [|split; [|split]].
  2: { match goal with
       | E : negb (String.eqb _ "GET") && _ = false |- _ =>
           apply andb_false_iff in E; destruct E as [E|E];
           apply negb_false_iff, String.eqb_eq in E; auto
       end. }
  2: { match goal with
       | E : negb (existsSync _ _) = false |- _ => apply negb_false_iff in E; exact E
       end. }
  2: { eauto 10. }
  walk H; injection H as <-; cbn [status body];
    first [ left; split; [simpl; tauto | discriminate]
          | right; split; [simpl; tauto | reflexivity] ].
Qed.

(** The sample host answers [GET /data.txt]. *)
Lemma serveStatic_answers_witness :
  ((In 200 [200; 206] /\ Some (BunFile "/srv/client/data.txt") <> None)
   \/ (In 200 [302; 304; 416] /\ Some (BunFile "/srv/client/data.txt") = None))
  /\ ("GET" = "GET" \/ "GET" = "HEAD")
  /\ existsSync Sample.world "/srv/client" = true
  /\ exists decoded resolved stats,
       Sample.decode "/data.txt" = Some decoded
       /\ ignored (rt := Sample.runtime) Sample.world
            (replace_root (Sample.normalize decoded)) = false
       /\ lookup Sample.world ("/srv/client" ++ replace_root (Sample.normalize decoded))
          = (resolved, Some stats).
Proof.
  apply (serveStatic_answers (rt := Sample.runtime) Sample.world (Sample.get [])
           (Sample.options "http://localhost/data.txt" None) "/srv/client" true
           {| status := 200; statusText := "";
              headers :=
                [("content-type", "text/plain;charset=utf-8");
                 ("content-length", "10");
                 ("last-modified", "Thu, 01 Jan 1970 00:00:01 GMT");
                 ("etag", "W/10-1000");
                 ("cache-control", "public,max-age=14400")];
              body := Some (BunFile "/srv/client/data.txt") |}).
  vm_compute. reflexivity.
Defined.

Lemma kept_cons (c : ascii) (s : string) :
  HeadersFacts.kept s -> HeadersFacts.kept (String c s).
Proof. apply (HeadersFacts.kept_app (String c "")). Qed.

(** The header [name] of a response whose headers were built by [set]. *)
Ltac pick :=
  repeat (rewrite HeadersFacts.get_set_other by (vm_compute; discriminate));
  rewrite HeadersFacts.get_set_same.

(** A value that is a numeral, or a text that ends with one, is stored
    as it is. *)
Ltac stored :=
  cbn [append]; f_equal;
  first [ apply HeadersFacts.normalize_show
        | apply HeadersFacts.normalize_kept;
          [ reflexivity
          | repeat first [apply kept_cons | apply HeadersFacts.kept_app];
            apply HeadersFacts.kept_show ] ].

Lemma lookup_file (w : World) (path resolved : string) (stats : Stats) :
  lookup w path = (resolved, Some stats) ->
  size stats = Z.of_nat (List.length (file_bytes w resolved))
  /\ file_size w resolved = size stats.
Proof.
  intros H.
  assert (Hstat : statFile w resolved = Some stats).
  { unfold lookup in H. destruct (statFile w path) as [st|] eqn:Hpath.
    - injection H as <- <-. exact Hpath.
    - pose proof (lookup_from_first w path tryFiles) as Hfrom. rewrite H in Hfrom.
      destruct Hfrom as [_ [_ [_ [_ [_ [Hs _]]]]]]. exact Hs. }
  destruct (statFile_file w resolved stats Hstat) as [content [ms [Hfs ->]]].
  unfold file_bytes, file_size. rewrite Hfs. split; reflexivity.
Qed.

(** The size of a file that [lookup] has found is a safe integer. *)
Lemma lookup_safe (w : World) (path resolved : string) (stats : Stats) :
  lookup w path = (resolved, Some stats) -> 0 <= size stats < Js.safe.
Proof.
  intros H.
  assert (Hstat : statFile w resolved = Some stats).
  { unfold lookup in H. destruct (statFile w path) as [st|] eqn:Hpath.
    - injection H as <- <-. exact Hpath.
    - pose proof (lookup_from_first w path tryFiles) as Hfrom. rewrite H in Hfrom.
      destruct Hfrom as [_ [_ [_ [_ [_ [Hs _]]]]]]. exact Hs. }
  destruct (statFile_file w resolved stats Hstat) as [content [ms [Hfs ->]]].
  cbn [size]. split; [lia | exact (safe_sizes w _ _ _ Hfs)].
Qed.

(** [parseRange] gives no [NaN]. *)
Lemma parseRange_numbers (h : Headers.t) (rs re : option Js.number) :
  parseRange h = (rs, re) -> rs <> Some Js.NaN /\ re <> Some Js.NaN.
Proof.
  unfold parseRange. intros H.
  repeat match type of H with
    | context [if ?c then _ else _] => destruct c
    | context [match ?x with _ => _ end] => destruct x
    end;
    injection H as <- <-; split; try discriminate;
    intros [= Hnan]; revert Hnan;
    first [apply JsFacts.of_Z_not_NaN | apply JsFacts.add_not_NaN, JsFacts.of_Z_not_NaN].
Qed.

(** The window that [serveStatic] computes from a range, when it gets
    past the test for a range that cannot be satisfied: two safe
    integers inside the file. *)
Lemma window (size : Z) (rs re : option Js.number) (startBytes endBytes : Js.number) :
  0 <= size < Js.safe ->
  rs <> Some Js.NaN -> re <> Some Js.NaN ->
  (if Js.ltb (num rs) (Js.Finite 0)
   then (Js.add (Js.Finite size) (num rs), Js.Finite size)
   else (num rs,
         if truthy re then Js.add (num re) (Js.Finite 1) else Js.Finite size))
  = (startBytes, endBytes) ->
  Js.leb endBytes startBytes || Js.ltb startBytes (Js.Finite 0)
  || Js.ltb (Js.Finite size) endBytes = false ->
  exists s e, startBytes = Js.Finite s /\ endBytes = Js.Finite e
              /\ 0 <= s < e /\ e <= size.
Proof.
  intros Hsize Hrs Hre Hpair Hguard.
  destruct JsFacts.safe_bounds as (H2 & _).
  apply orb_false_iff in Hguard. destruct Hguard as [Hguard Hend].
  apply orb_false_iff in Hguard. destruct Hguard as [Hempty Hneg].
  assert (Hfinite : forall z,
    (exists m, Js.of_Z z = Js.Finite m /\ (m = z \/ (Js.safe <= m /\ Js.safe <= z)
                                          \/ (m <= - Js.safe /\ z <= - Js.safe)))
    \/ (Js.of_Z z = Js.Infinity /\ Js.safe <= z)
    \/ (Js.of_Z z = Js.NegInfinity /\ z <= - Js.safe)).
  { intros z. destruct (Z.le_gt_cases z (- Js.safe - 1)) as [Hlow|Hlow].
    - destruct (JsFacts.of_Z_below z) as [-> | [m [-> Hm]]]; [lia | right; right; split; [reflexivity | lia] |].
      left. exists m. split; [reflexivity | right; right; lia].
    - destruct (Z.le_gt_cases z Js.safe) as [Hsafe|Hsafe].
      + left. exists z. split; [apply JsFacts.of_Z_exact; lia | left; reflexivity].
      + destruct (JsFacts.of_Z_above z) as [-> | [m [-> Hm]]]; [lia | right; left; split; [reflexivity | lia] |].
        left. exists m. split; [reflexivity | right; left; lia]. }
  destruct rs as [[r| | |]|]; cbn [num Js.ltb] in Hpair; try contradiction.
  - (* a finite start *)
    destruct (r <? 0) eqn:Hr.
    + apply Z.ltb_lt in Hr. injection Hpair as <- <-. cbn [Js.add] in *.
      destruct (Hfinite (size + r)) as [[m [Hm Hcase]] | [[Hm ?] | [Hm ?]]];
        rewrite Hm in *; cbn [Js.leb Js.ltb] in *; try discriminate; try lia.
      apply Z.leb_gt in Hempty. apply Z.ltb_ge in Hneg.
      exists m, size. repeat split; lia.
    + apply Z.ltb_ge in Hr. injection Hpair as <- <-.
      destruct (truthy re) eqn:Htruthy.
      * destruct re as [[x| | |]|]; cbn [num Js.add] in *; try discriminate;
          try contradiction.
        destruct (Hfinite (x + 1)) as [[m [Hm Hcase]] | [[Hm ?] | [Hm ?]]];
          rewrite Hm in *; cbn [Js.leb Js.ltb] in *; try discriminate.
        apply Z.leb_gt in Hempty. apply Z.ltb_ge in Hend.
        exists r, m. repeat split; lia.
      * cbn [Js.leb Js.ltb] in *.
        apply Z.leb_gt in Hempty.
        exists r, size. repeat split; lia.
  - (* Infinity *)
    injection Hpair as <- <-.
    destruct (truthy re); [|discriminate].
    destruct re as [[x| | |]|]; cbn [num Js.add] in *; try discriminate; try contradiction.
    destruct (Hfinite (x + 1)) as [[m [Hm Hcase]] | [[Hm ?] | [Hm ?]]];
      rewrite Hm in *; discriminate.
  - (* -Infinity *)
    injection Hpair as <- <-. discriminate.
  - (* null *)
    cbn in Hpair. injection Hpair as <- <-.
    destruct (truthy re) eqn:Htruthy.
    + destruct re as [[x| | |]|]; cbn [num Js.add] in *; try discriminate;
        try contradiction.
      destruct (Hfinite (x + 1)) as [[m [Hm Hcase]] | [[Hm ?] | [Hm ?]]];
        rewrite Hm in *; cbn [Js.leb Js.ltb] in *; try discriminate.
      apply Z.leb_gt in Hempty. apply Z.ltb_ge in Hend.
      exists 0, m. repeat split; lia.
    + cbn [Js.leb Js.ltb] in *. apply Z.leb_gt in Hempty.
      exists 0, size. repeat split; lia.
Qed.

Lemma blob_slice_inside (content : list byte) (start end_ : Z) :
  0 <= start -> start <= end_ -> end_ <= Z.of_nat (List.length content) ->
  blob_slice content start end_
    = firstn (Z.to_nat (end_ - start)) (skipn (Z.to_nat start) content)
  /\ Z.of_nat (List.length (blob_slice content start end_)) = end_ - start.
Proof.
  intros H0 Hle Hsize. unfold blob_slice.
  assert (Hs : (start <? 0) = false) by (apply Z.ltb_ge; lia).
  assert (He : (end_ <? 0) = false) by (apply Z.ltb_ge; lia).
  rewrite Hs, He.
  replace (Z.min start (Z.of_nat (List.length content))) with start by lia.
  replace (Z.min end_ (Z.of_nat (List.length content))) with end_ by lia.
  replace (Z.max (end_ - start) 0) with (end_ - start) by lia.
  split; [reflexivity|].
  rewrite length_firstn, length_skipn. lia.
Qed.

(** X8: A 206 of the resolver carries a window of the resolved file that
    lies inside it and is not empty; [content-range] names the window
    with its last byte, out of the size of the file; [content-length] is
    the number of bytes of the window, which is the number of bytes of
    the body. *)
Theorem partial_content_is_a_window_of_the_file {rt : Runtime}
  (w : World) (request : Request) (options : HandleOptions)
  (basePath : string) (cache : bool) (res : Response) :
  serveStatic w request options basePath cache = inr (Some res) ->
  status res = 206 ->
  exists resolved stats start end_,
    body res = Some (BunFileSlice resolved start end_)
    /\ size stats = Z.of_nat (List.length (file_bytes w resolved))
    /\ 0 <= start < end_ /\ end_ <= size stats
    /\ Headers.get (headers res) "content-range"
       = Some ("bytes " ++ Js.show start ++ "-" ++ Js.show (end_ - 1)
               ++ "/" ++ Js.show (size stats))
    /\ Headers.get (headers res) "content-length" = Some (Js.show (end_ - start))
    /\ body_bytes w (body res)
       = firstn (Z.to_nat (end_ - start)) (skipn (Z.to_nat start) (file_bytes w resolved))
    /\ Z.of_nat (List.length (body_bytes w (body res))) = end_ - start.
Proof.
  intros H Hstatus. unfold serveStatic in H.
  walk H;
    try match goal with
        | L : lookup _ _ = (_, Some ?stats),
          P : parseRange _ = (?rs, ?re),
          C : Js.ltb (num ?rs) _ = _,
          G : Js.leb ?E ?S || _ || _ = false |- _ =>
            let lo := fresh "lo" in
            let hi := fresh "hi" in
            pose proof (lookup_safe _ _ _ _ L) as Hsafe;
            destruct (parseRange_numbers _ _ _ P) as [Hrs Hre];
            destruct (window (size stats) rs re S E Hsafe Hrs Hre)
              as (lo & hi & Hlo & Hhi & Hwindow & Hinside);
              [ rewrite C; reflexivity | exact G | ];
            rewrite ?Hlo, ?Hhi in H;
            rewrite !JsFacts.clamp_safe, !JsFacts.sub_finite in H by lia;
            rewrite !JsFacts.show_number_safe in H by lia
        end;
    injection H as <-; cbn [status] in Hstatus; try discriminate Hstatus.
  all: match goal with
       | L : lookup _ _ = (?resolved, Some ?stats),
         Hlo : _ = Js.Finite ?lo, Hhi : _ = Js.Finite ?hi |- _ =>
           destruct (lookup_file _ _ _ _ L) as [Hsize _];
           exists resolved, stats, lo, hi
       end.
  all: cbn [body headers body_bytes].
  all: repeat split; try lia; try exact Hsize.
  all: try (pick; stored).
  all: apply blob_slice_inside; lia.
Qed.

(** What the resolver answers on the sample host, under [/srv/client]
    with the long-lived cache headers, to a [GET] of a URL. *)
Definition answer (request_headers : list (string * string)) (u : string) : Response :=
  match serveStatic (rt := Sample.runtime) Sample.world (Sample.get request_headers)
          (Sample.options u None) "/srv/client" true with
  | inr (Some res) => res
  | _ => Handle.notFound
  end.

(** The theorem for [range: bytes=-3] on the 10 bytes of [/data.txt]. *)
Lemma partial_content_is_a_window_of_the_file_witness :
  let res := answer [("range", "bytes=-3")] "http://localhost/data.txt" in
  exists resolved stats start end_,
    body res = Some (BunFileSlice resolved start end_)
    /\ size stats = Z.of_nat (List.length (file_bytes Sample.world resolved))
    /\ 0 <= start < end_ /\ end_ <= size stats
    /\ Headers.get (headers res) "content-range"
       = Some ("bytes " ++ Js.show start ++ "-" ++ Js.show (end_ - 1)
               ++ "/" ++ Js.show (size stats))
    /\ Headers.get (headers res) "content-length" = Some (Js.show (end_ - start))
    /\ body_bytes Sample.world (body res)
       = firstn (Z.to_nat (end_ - start))
           (skipn (Z.to_nat start) (file_bytes Sample.world resolved))
    /\ Z.of_nat (List.length (body_bytes Sample.world (body res))) = end_ - start.
Proof.
  apply (partial_content_is_a_window_of_the_file (rt := Sample.runtime)
           Sample.world (Sample.get [("range", "bytes=-3")])
           (Sample.options "http://localhost/data.txt" None) "/srv/client" true).
  - vm_compute. reflexivity.
  - vm_compute. reflexivity.
Defined.

(** X9: A 416 of the resolver answers a request that has a [range] header;
    it has no body, its [content-range] is [bytes */] followed by the size
    of the file that [lookup] has found for the path of the request, and
    its [content-length] is 0. *)
Theorem range_not_satisfiable_names_the_size {rt : Runtime}
  (w : World) (request : Request) (options : HandleOptions)
  (basePath : string) (cache : bool) (res : Response) :
  serveStatic w request options basePath cache = inr (Some res) ->
  status res = 416 ->
  exists decoded resolved stats,
    decodeURIComponent (pathname (url options)) = Some decoded
    /\ lookup w (basePath ++ replace_root (path_normalize decoded))
       = (resolved, Some stats)
    /\ Headers.has (req_headers request) "range" = true
    /\ size stats = Z.of_nat (List.length (file_bytes w resolved))
    /\ body res = None
    /\ Headers.get (headers res) "content-range"
       = Some ("bytes */" ++ Js.show (size stats))
    /\ Headers.get (headers res) "content-length" = Some "0".
Proof.
  intros H Hstatus. unfold serveStatic in H.
  walk H; injection H as <-; cbn [status] in Hstatus; try discriminate Hstatus.
  all: match goal with
       | D : decodeURIComponent _ = Some ?decoded,
         L : lookup _ _ = (?resolved, Some ?stats) |- _ =>
           exists decoded, resolved, stats;
           destruct (lookup_file _ _ _ _ L) as [Hsize _]
       end.
  all: cbn [body headers]; repeat split; try assumption.
  all: pick; first [reflexivity | stored].
Qed.

(** The theorem for [range: bytes=20-30] on the 10 bytes of [/data.txt]. *)
Lemma range_not_satisfiable_names_the_size_witness :
  let res := answer [("range", "bytes=20-30")] "http://localhost/data.txt" in
  exists decoded resolved stats,
    Sample.decode "/data.txt" = Some decoded
    /\ lookup Sample.world ("/srv/client" ++ replace_root (Sample.normalize decoded))
       = (resolved, Some stats)
    /\ Headers.has (Headers.of_list [("range", "bytes=20-30")]) "range" = true
    /\ size stats = Z.of_nat (List.length (file_bytes Sample.world resolved))
    /\ body res = None
    /\ Headers.get (headers res) "content-range"
       = Some ("bytes */" ++ Js.show (size stats))
    /\ Headers.get (headers res) "content-length" = Some "0".
Proof.
  apply (range_not_satisfiable_names_the_size (rt := Sample.runtime)
           Sample.world (Sample.get [("range", "bytes=20-30")])
           (Sample.options "http://localhost/data.txt" None) "/srv/client" true).
  - vm_compute. reflexivity.
  - vm_compute. reflexivity.
Defined.

Lemma span_digits_uint (d : Decimal.uint) (rest : string) :
  span_digits (NilEmpty.string_of_uint d ++ rest)
  = (NilEmpty.string_of_uint d ++ fst (span_digits rest), snd (span_digits rest)).
Proof.
  induction d; cbn [NilEmpty.string_of_uint append];
    [destruct (span_digits rest); reflexivity | ..];
    cbn [span_digits]; rewrite IHd; reflexivity.
Qed.

Lemma append_empty (s : string) : s ++ "" = s.
Proof. induction s as [|c s IH]; [reflexivity | cbn [append]; rewrite IH; reflexivity]. Qed.

(** A numeral in front of what is no digit is the whole span of digits. *)
Lemma span_digits_show (n : Z) (rest : string) :
  0 <= n -> fst (span_digits rest) = "" ->
  exists c s, Js.show n = String c s
              /\ span_digits (Js.show n ++ rest) = (String c s, rest).
Proof.
  intros Hn Hrest. destruct (JsFacts.show_digits n Hn) as [d [Hd [Hs _]]].
  assert (Hsnd : snd (span_digits rest) = rest).
  { destruct rest as [|c r]; [reflexivity|]. cbn [span_digits] in *.
    destruct (Js.is_digit c); [|reflexivity].
    destruct (span_digits r). discriminate Hrest. }
  rewrite Hs, span_digits_uint, Hrest, Hsnd, append_empty.
  destruct d; [contradiction | eexists; eexists; split; reflexivity ..].
Qed.

Lemma exec_range_from_to (a b : Z) (rest : string) :
  0 <= a -> 0 <= b -> fst (span_digits rest) = "" ->
  exec_range ("bytes=" ++ Js.show a ++ "-" ++ Js.show b ++ rest)
  = Some (FromTo (Js.show a) (Some (Js.show b))).
Proof.
  intros Ha Hb Hrest. unfold exec_range. cbn [append strip_prefix Ascii.eqb Bool.eqb].
  destruct (span_digits_show a (String "-" (Js.show b ++ rest)) Ha eq_refl)
    as [c [s [Hshow ->]]].
  destruct (span_digits_show b rest Hb Hrest) as [c' [s' [Hshow' ->]]].
  rewrite Hshow, Hshow'. reflexivity.
Qed.

Lemma exec_range_from (a : Z) :
  0 <= a ->
  exec_range ("bytes=" ++ Js.show a ++ "-") = Some (FromTo (Js.show a) None).
Proof.
  intros Ha. unfold exec_range. cbn [append strip_prefix Ascii.eqb Bool.eqb].
  destruct (span_digits_show a "-" Ha eq_refl) as [c [s [Hshow ->]]].
  rewrite Hshow. reflexivity.
Qed.

Lemma exec_range_suffix (n : Z) (rest : string) :
  0 <= n -> fst (span_digits rest) = "" ->
  exec_range ("bytes=-" ++ Js.show n ++ rest) = Some (Suffix ("-" ++ Js.show n)).
Proof.
  intros Hn Hrest. unfold exec_range.
  cbn [append strip_prefix Ascii.eqb Bool.eqb span_digits Js.is_digit].
  change (Js.is_digit "-") with false. cbv iota.
  destruct (span_digits_show n rest Hn Hrest) as [c [s [Hshow ->]]].
  rewrite Hshow. reflexivity.
Qed.

Lemma parseRange_from_to (h : Headers.t) (a b : Z) (rest : string) :
  0 <= a -> 0 <= b -> fst (span_digits rest) = "" ->
  Headers.get h "range" = Some ("bytes=" ++ Js.show a ++ "-" ++ Js.show b ++ rest) ->
  parseRange h = (Some (Js.of_Z a), Some (Js.add (Js.of_Z b) (Js.Finite 1))).
Proof.
  intros Ha Hb Hrest Hget. unfold parseRange.
  rewrite (StaticFacts.get_some_has _ _ _ Hget), Hget. cbn [negb].
  rewrite exec_range_from_to by assumption.
  rewrite !JsFacts.to_number_show. reflexivity.
Qed.

Lemma parseRange_from (h : Headers.t) (a : Z) :
  0 <= a ->
  Headers.get h "range" = Some ("bytes=" ++ Js.show a ++ "-") ->
  parseRange h = (Some (Js.of_Z a), None).
Proof.
  intros Ha Hget. unfold parseRange.
  rewrite (StaticFacts.get_some_has _ _ _ Hget), Hget. cbn [negb].
  rewrite exec_range_from by assumption.
  rewrite !JsFacts.to_number_show. reflexivity.
Qed.

Lemma parseRange_suffix (h : Headers.t) (a : Z) (rest : string) :
  0 <= a -> fst (span_digits rest) = "" ->
  Headers.get h "range" = Some ("bytes=-" ++ Js.show a ++ rest) ->
  parseRange h = (Some (Js.of_Z (- a)), None).
Proof.
  intros Ha Hrest Hget. unfold parseRange.
  rewrite (StaticFacts.get_some_has _ _ _ Hget), Hget. cbn [negb].
  rewrite exec_range_suffix by assumption.
  unfold Js.to_number. cbn [append Js.numeral].
  pose proof (JsFacts.numeral_show a) as Hnum.
  destruct (JsFacts.show_digits a Ha) as [d [_ [Hs _]]].
  rewrite Hs, JsFacts.numeral_digits in Hnum. rewrite Hs, Hnum. reflexivity.
Qed.

(** X7: [parseRange] on the three forms of a byte range, [a] and [b] being
    natural numbers printed in decimal.  [bytes=a-b] gives the Number
    that [a] rounds to and, for the end, the Number that [b] rounds to
    plus 1, rounded again; [bytes=a-] gives the Number of [a] and no end;
    [bytes=-a] gives the Number of [-a] and no end; what follows the first
    range, another range of the list for instance, is not read; without
    a [range] header there is neither start nor end.  Below [2 ^ 53]
    these Numbers are [a], [-a] and [b + 1] themselves; from there on a
    numeral that no double holds is rounded, and one that is too large
    gives an infinity. *)
Theorem parseRange_forms (h : Headers.t) (a b : Z) (rest : string) :
  0 <= a -> 0 <= b -> fst (span_digits rest) = "" ->
  (Headers.get h "range" = Some ("bytes=" ++ Js.show a ++ "-" ++ Js.show b ++ rest) ->
   parseRange h = (Some (Js.of_Z a), Some (Js.add (Js.of_Z b) (Js.Finite 1))))
  /\ (Headers.get h "range" = Some ("bytes=" ++ Js.show a ++ "-") ->
      parseRange h = (Some (Js.of_Z a), None))
  /\ (Headers.get h "range" = Some ("bytes=-" ++ Js.show a ++ rest) ->
      parseRange h = (Some (Js.of_Z (- a)), None))
  /\ (Headers.has h "range" = false -> parseRange h = (None, None))
  /\ (a < Js.safe -> Js.of_Z a = Js.Finite a /\ Js.of_Z (- a) = Js.Finite (- a))
  /\ (b < Js.safe -> Js.add (Js.of_Z b) (Js.Finite 1) = Js.Finite (b + 1))
  /\ Js.of_Z (Js.safe + 1) = Js.Finite Js.safe
  /\ Js.of_Z (Js.huge) = Js.Infinity.
Proof.
  intros Ha Hb Hrest. repeat split; try intros Hget.
  - apply (parseRange_from_to h a b rest); assumption.
  - apply (parseRange_from h a); assumption.
  - apply (parseRange_suffix h a rest); assumption.
  - unfold parseRange. rewrite Hget. reflexivity.
  - apply JsFacts.of_Z_exact. lia.
  - apply JsFacts.of_Z_exact. lia.
  - rewrite JsFacts.of_Z_exact by lia. apply JsFacts.add_finite. lia.
Qed.

(** The theorem at [2], [5] and a second range that follows; and a
    start that no double holds. *)
Lemma parseRange_forms_witness :
  parseRange (Headers.of_list [("range", "bytes=2-5, 7-8")])
  = (Some (Js.Finite 2), Some (Js.Finite 6))
  /\ parseRange (Headers.of_list [("range", "bytes=-2, 7-8")])
     = (Some (Js.Finite (-2)), None)
  /\ parseRange (Headers.of_list [("range", "bytes=9007199254740993-")])
     = (Some (Js.Finite 9007199254740992), None).
Proof.
  split; [|split].
  - apply (proj1 (parseRange_forms (Headers.of_list [("range", "bytes=2-5, 7-8")])
                    2 5 ", 7-8" ltac:(lia) ltac:(lia) eq_refl)).
    reflexivity.
  - apply (proj1 (proj2 (proj2 (parseRange_forms
                    (Headers.of_list [("range", "bytes=-2, 7-8")])
                    2 5 ", 7-8" ltac:(lia) ltac:(lia) eq_refl)))).
    reflexivity.
  - apply (proj1 (proj2 (parseRange_forms
                    (Headers.of_list [("range", "bytes=9007199254740993-")])
                    9007199254740993 5 "" ltac:(lia) ltac:(lia) eq_refl))).
    reflexivity.
Defined.

(** The headers with which [serveStatic] starts a response. *)
Lemma base_content_type (a b c d : string) :
  Headers.get
    (Headers.of_list
       [("content-type", a); ("content-length", b); ("last-modified", c); ("etag", d)])
    "content-type" = Some (Headers.normalize a).
Proof. reflexivity. Qed.

Lemma base_content_length (a b c d : string) :
  Headers.get
    (Headers.of_list
       [("content-type", a); ("content-length", b); ("last-modified", c); ("etag", d)])
    "content-length" = Some (Headers.normalize b).
Proof. reflexivity. Qed.

Lemma base_last_modified (a b c d : string) :
  Headers.get
    (Headers.of_list
       [("content-type", a); ("content-length", b); ("last-modified", c); ("etag", d)])
    "last-modified" = Some (Headers.normalize c).
Proof. reflexivity. Qed.

Lemma base_etag (a b c d : string) :
  Headers.get
    (Headers.of_list
       [("content-type", a); ("content-length", b); ("last-modified", c); ("etag", d)])
    "etag" = Some (Headers.normalize d).
Proof. reflexivity. Qed.

Lemma base_cache_control (a b c d : string) :
  Headers.get
    (Headers.of_list
       [("content-type", a); ("content-length", b); ("last-modified", c); ("etag", d)])
    "cache-control" = None.
Proof. reflexivity. Qed.

Lemma base_content_encoding (a b c d : string) :
  Headers.get
    (Headers.of_list
       [("content-type", a); ("content-length", b); ("last-modified", c); ("etag", d)])
    "content-encoding" = None.
Proof. reflexivity. Qed.

(** The header [name] of a response: past the calls of [set] for other
    names, the value that was set or the value it started with. *)
Ltac base :=
  repeat (rewrite HeadersFacts.get_set_other by (vm_compute; discriminate));
  first [ rewrite HeadersFacts.get_set_same
        | rewrite base_content_type | rewrite base_content_length
        | rewrite base_last_modified | rewrite base_etag
        | rewrite base_cache_control | rewrite base_content_encoding ].

(** The request reaches a file: the conditions under which [serveStatic]
    gets past its guards, its lookup, the redirect of a path that ends
    with a slash and the comparison of the validator. *)
Definition reaches {rt : Runtime} (w : World) (request : Request)
  (options : HandleOptions) (basePath : string)
  (normalized resolved : string) (stats : Stats) : Prop :=
  existsSync w basePath = true
  /\ (req_method request = "GET" \/ req_method request = "HEAD")
  /\ (exists decoded,
        decodeURIComponent (pathname (url options)) = Some decoded
        /\ normalized = replace_root (path_normalize decoded))
  /\ ignored w normalized = false
  /\ lookup w (basePath ++ normalized) = (resolved, Some stats)
  /\ (pathname (url options) = "/" \/ Js.endsWith (pathname (url options)) "/" = false)
  /\ Headers.get (req_headers request) "if-non-match"
     <> Some ("W/" ++ Js.show (size stats) ++ "-" ++ Js.show (mtimeMs stats)).

Lemma header_is_false (h : Headers.t) (name value : string) :
  Headers.get h name <> Some value -> header_is h name value = false.
Proof.
  unfold header_is. destruct (Headers.get h name) as [v|]; [|reflexivity].
  intros Hne. apply String.eqb_neq. congruence.
Qed.

(** Past the guards: the first tests of [serveStatic] are decided. *)
Ltac past Hreach :=
  let Hbase := fresh "Hbase" in
  let Hmethod := fresh "Hmethod" in
  let Hdecode := fresh "Hdecode" in
  let Hignored := fresh "Hignored" in
  let Hlookup := fresh "Hlookup" in
  let Hslash := fresh "Hslash" in
  let Hmatch := fresh "Hmatch" in
  let decoded := fresh "decoded" in
  destruct Hreach as
    (Hbase & Hmethod & (decoded & Hdecode & ->) & Hignored & Hlookup & Hslash & Hmatch);
  unfold serveStatic; rewrite Hbase; cbn [negb];
  replace (negb (String.eqb (req_method _) "GET")
           && negb (String.eqb (req_method _) "HEAD")) with false
    by (destruct Hmethod as [-> | ->]; reflexivity);
  rewrite Hdecode; cbv zeta; rewrite Hignored, Hlookup;
  replace (negb (String.eqb (pathname (url _)) "/")
           && Js.endsWith (pathname (url _)) "/") with false
    by (destruct Hslash as [-> | ->]; [reflexivity | apply eq_sym, andb_false_r]);
  rewrite (header_is_false _ _ _ Hmatch).

(** X4: A [GET] or [HEAD] that reaches a file, without [range] and without
    [accept-encoding], is answered 200 with the whole file as the body
    and the size of the file as [content-length], with the validator
    [W/size-mtimeMs] as [etag]. *)
Theorem plain_request_serves_the_whole_file {rt : Runtime}
  (w : World) (request : Request) (options : HandleOptions)
  (basePath : string) (cache : bool)
  (normalized resolved : string) (stats : Stats) :
  reaches w request options basePath normalized resolved stats ->
  Headers.has (req_headers request) "range" = false ->
  Headers.has (req_headers request) "accept-encoding" = false ->
  exists res,
    serveStatic w request options basePath cache = inr (Some res)
    /\ status res = 200
    /\ body res = Some (BunFile resolved)
    /\ Headers.get (headers res) "content-length" = Some (Js.show (size stats))
    /\ Headers.get (headers res) "etag"
       = Some ("W/" ++ Js.show (size stats) ++ "-" ++ Js.show (mtimeMs stats))
    /\ Headers.get (headers res) "content-encoding" = None
    /\ Z.of_nat (List.length (body_bytes w (body res))) = size stats.
Proof.
  intros Hreach Hrange Hac.
  assert (Hsize := Hreach). destruct Hsize as (_ & _ & _ & _ & Hsize & _).
  apply lookup_file in Hsize. destruct Hsize as [Hsize _].
  past Hreach. rewrite Hrange, Hac.
  destruct (parseRange (req_headers request)) as [rangeStart rangeEnd].
  cbn [negb]. eexists. split; [reflexivity|].
  cbn [status body headers body_bytes].
  repeat split; try (destruct cache; base; stored).
  symmetry. exact Hsize.
Qed.

(** The conditions of [reaches] on the sample host, by evaluation. *)
Ltac at_sample :=
  unfold reaches; repeat split;
  first [ reflexivity | left; reflexivity | right; reflexivity
        | eexists; split; reflexivity | vm_compute; discriminate ].

(** The theorem for [GET /data.txt] on the sample host. *)
Lemma plain_request_serves_the_whole_file_witness :
  exists res,
    serveStatic (rt := Sample.runtime) Sample.world (Sample.get [])
      (Sample.options "http://localhost/data.txt" None) "/srv/client" true
    = inr (Some res)
    /\ status res = 200
    /\ body res = Some (BunFile "/srv/client/data.txt")
    /\ Headers.get (headers res) "content-length" = Some (Js.show 10)
    /\ Headers.get (headers res) "etag" = Some ("W/" ++ Js.show 10 ++ "-" ++ Js.show 1000)
    /\ Headers.get (headers res) "content-encoding" = None
    /\ Z.of_nat (List.length (body_bytes Sample.world (body res))) = 10.
Proof.
  apply (plain_request_serves_the_whole_file (rt := Sample.runtime)
           Sample.world (Sample.get [])
           (Sample.options "http://localhost/data.txt" None) "/srv/client" true
           "/data.txt" "/srv/client/data.txt"
           {| size := 10; mtimeMs := 1000; isFile := true |}).
  - at_sample.
  - reflexivity.
  - reflexivity.
Defined.

(** Past the guards with a [range] header whose start is not zero: the
    window that the code computes, when it is not empty and lies inside
    the file, is served as a 206. *)
Lemma ranged {rt : Runtime}
  (w : World) (request : Request) (options : HandleOptions)
  (basePath : string) (cache : bool)
  (normalized resolved : string) (stats : Stats)
  (rangeStart : Js.number) (rangeEnd : option Js.number) (startBytes endBytes : Z) :
  reaches w request options basePath normalized resolved stats ->
  Headers.has (req_headers request) "range" = true ->
  parseRange (req_headers request) = (Some rangeStart, rangeEnd) ->
  Js.truthy rangeStart = true ->
  (if Js.ltb rangeStart (Js.Finite 0)
   then (Js.add (Js.Finite (size stats)) rangeStart, Js.Finite (size stats))
   else (rangeStart,
         if truthy rangeEnd then Js.add (num rangeEnd) (Js.Finite 1)
         else Js.Finite (size stats)))
  = (Js.Finite startBytes, Js.Finite endBytes) ->
  0 <= startBytes < endBytes -> endBytes <= size stats ->
  exists res,
    serveStatic w request options basePath cache = inr (Some res)
    /\ status res = 206
    /\ body res = Some (BunFileSlice resolved startBytes endBytes)
    /\ Headers.get (headers res) "content-range"
       = Some ("bytes " ++ Js.show startBytes ++ "-" ++ Js.show (endBytes - 1)
               ++ "/" ++ Js.show (size stats))
    /\ Headers.get (headers res) "content-length"
       = Some (Js.show (endBytes - startBytes)).
Proof.
  intros Hreach Hhas Hparse Hstart Hwindow Hinside Hend.
  assert (Hsafe : 0 <= size stats < Js.safe).
  { destruct Hreach as (_ & _ & _ & _ & Hlookup & _).
    apply (lookup_safe _ _ _ _ Hlookup). }
  past Hreach. rewrite Hhas, Hparse. cbv beta iota.
  replace (truthy (Some rangeStart)) with true by (symmetry; exact Hstart).
  cbn [negb num]. rewrite Hwindow.
  replace (Js.leb (Js.Finite endBytes) (Js.Finite startBytes)
           || Js.ltb (Js.Finite startBytes) (Js.Finite 0)
           || Js.ltb (Js.Finite (size stats)) (Js.Finite endBytes)) with false
    by (symmetry; cbn [Js.leb Js.ltb]; rewrite !orb_false_iff; repeat split;
        [apply Z.leb_gt | apply Z.ltb_ge | apply Z.ltb_ge]; lia).
  rewrite !JsFacts.clamp_safe, !JsFacts.sub_finite by lia.
  rewrite !JsFacts.show_number_safe by lia.
  eexists. split; [reflexivity|]. cbn [status body headers].
  repeat split; pick; stored.
Qed.

(** Past the guards with a [range] header whose start is not zero: a
    window that is empty or not inside the file is answered 416. *)
Lemma unsatisfiable {rt : Runtime}
  (w : World) (request : Request) (options : HandleOptions)
  (basePath : string) (cache : bool)
  (normalized resolved : string) (stats : Stats)
  (rangeStart : Js.number) (rangeEnd : option Js.number)
  (startBytes endBytes : Js.number) :
  reaches w request options basePath normalized resolved stats ->
  Headers.has (req_headers request) "range" = true ->
  parseRange (req_headers request) = (Some rangeStart, rangeEnd) ->
  Js.truthy rangeStart = true ->
  (if Js.ltb rangeStart (Js.Finite 0)
   then (Js.add (Js.Finite (size stats)) rangeStart, Js.Finite (size stats))
   else (rangeStart,
         if truthy rangeEnd then Js.add (num rangeEnd) (Js.Finite 1)
         else Js.Finite (size stats)))
  = (startBytes, endBytes) ->
  Js.leb endBytes startBytes || Js.ltb startBytes (Js.Finite 0)
  || Js.ltb (Js.Finite (size stats)) endBytes = true ->
  exists res,
    serveStatic w request options basePath cache = inr (Some res)
    /\ status res = 416.
Proof.
  intros Hreach Hhas Hparse Hstart Hwindow Hguard.
  past Hreach. rewrite Hhas, Hparse. cbv beta iota.
  replace (truthy (Some rangeStart)) with true by (symmetry; exact Hstart).
  cbn [negb num]. rewrite Hwindow, Hguard.
  eexists. split; reflexivity.
Qed.

(** X10: A suffix range [bytes=-n], for [n] from 1 to the size of the file
    that the request reaches, is answered 206 with the last [n] bytes of
    the file: [content-range] runs from [size - n] to [size - 1] and
    [content-length] is [n]; for a larger [n] the answer is 416. *)
Theorem suffix_range_serves_the_last_bytes {rt : Runtime}
  (w : World) (request : Request) (options : HandleOptions)
  (basePath : string) (cache : bool)
  (normalized resolved : string) (stats : Stats) (n : Z) (rest : string) :
  reaches w request options basePath normalized resolved stats ->
  Headers.get (req_headers request) "range" = Some ("bytes=-" ++ Js.show n ++ rest) ->
  fst (span_digits rest) = "" ->
  0 < n ->
  exists res,
    serveStatic w request options basePath cache = inr (Some res)
    /\ if n <=? size stats
       then status res = 206
            /\ body_bytes w (body res)
               = skipn (Z.to_nat (size stats - n)) (file_bytes w resolved)
            /\ Headers.get (headers res) "content-range"
               = Some ("bytes " ++ Js.show (size stats - n) ++ "-"
                       ++ Js.show (size stats - 1) ++ "/" ++ Js.show (size stats))
            /\ Headers.get (headers res) "content-length" = Some (Js.show n)
       else status res = 416.
Proof.
  intros Hreach Hget Hrest Hn.
  assert (Hparse : parseRange (req_headers request) = (Some (Js.of_Z (- n)), None)).
  { apply (parseRange_suffix _ n rest); try lia; assumption. }
  assert (Hsize : size stats = Z.of_nat (List.length (file_bytes w resolved))).
  { destruct Hreach as (_ & _ & _ & _ & Hlookup & _).
    apply (lookup_file _ _ _ _ Hlookup). }
  assert (Hsafe : 0 <= size stats < Js.safe).
  { destruct Hreach as (_ & _ & _ & _ & Hlookup & _).
    apply (lookup_safe _ _ _ _ Hlookup). }
  assert (Htruthy : Js.truthy (Js.of_Z (- n)) = true) by (apply JsFacts.of_Z_truthy; lia).
  assert (Hneg : Js.ltb (Js.of_Z (- n)) (Js.Finite 0) = true)
    by (apply JsFacts.of_Z_negative; lia).
  destruct (n <=? size stats) eqn:Hfit.
  - apply Z.leb_le in Hfit.
    destruct (ranged w request options basePath cache normalized resolved stats
                (Js.of_Z (- n)) None (size stats - n) (size stats) Hreach
                (StaticFacts.get_some_has _ _ _ Hget) Hparse Htruthy)
      as [res (Hres & Hstatus & Hbody & Hcr & Hcl)]; try lia.
    { rewrite Hneg, JsFacts.of_Z_exact by lia.
      rewrite JsFacts.add_finite by lia. reflexivity. }
    exists res. split; [exact Hres|].
    replace (size stats - (size stats - n)) with n in Hcl by lia.
    repeat split; try assumption.
    rewrite Hbody. cbn [body_bytes].
    rewrite (proj1 (blob_slice_inside (file_bytes w resolved) (size stats - n) (size stats)
                      ltac:(lia) ltac:(lia) ltac:(lia))).
    apply firstn_all2. rewrite length_skipn. lia.
  - apply Z.leb_gt in Hfit.
    destruct (unsatisfiable w request options basePath cache normalized resolved stats
                (Js.of_Z (- n)) None
                (Js.add (Js.Finite (size stats)) (Js.of_Z (- n))) (Js.Finite (size stats))
                Hreach (StaticFacts.get_some_has _ _ _ Hget) Hparse Htruthy)
      as [res [Hres Hstatus]].
    { rewrite Hneg. reflexivity. }
    { rewrite (JsFacts.add_of_Z_negative (size stats) n Hsafe Hfit).
      apply orb_true_iff. left. apply orb_true_r. }
    exists res. split; assumption.
Qed.

(** The theorem for [range: bytes=-3] on the 10 bytes of [/data.txt]. *)
Lemma suffix_range_serves_the_last_bytes_witness :
  exists res,
    serveStatic (rt := Sample.runtime) Sample.world (Sample.get [("range", "bytes=-3")])
      (Sample.options "http://localhost/data.txt" None) "/srv/client" true
    = inr (Some res)
    /\ if 3 <=? 10
       then status res = 206
            /\ body_bytes Sample.world (body res)
               = skipn (Z.to_nat (10 - 3)) (file_bytes Sample.world "/srv/client/data.txt")
            /\ Headers.get (headers res) "content-range"
               = Some ("bytes " ++ Js.show (10 - 3) ++ "-"
                       ++ Js.show (10 - 1) ++ "/" ++ Js.show 10)
            /\ Headers.get (headers res) "content-length" = Some (Js.show 3)
       else status res = 416.
Proof.
  apply (suffix_range_serves_the_last_bytes (rt := Sample.runtime)
           Sample.world (Sample.get [("range", "bytes=-3")])
           (Sample.options "http://localhost/data.txt" None) "/srv/client" true
           "/data.txt" "/srv/client/data.txt"
           {| size := 10; mtimeMs := 1000; isFile := true |} 3 "").
  - at_sample.
  - reflexivity.
  - reflexivity.
  - lia.
Defined.

(** X11: An open range [bytes=a-], for [a] from 1 to the size of the file less
    1, is answered 206 with the bytes of the file from [a] on; from the
    size on the answer is 416. *)
Theorem open_range_serves_the_rest {rt : Runtime}
  (w : World) (request : Request) (options : HandleOptions)
  (basePath : string) (cache : bool)
  (normalized resolved : string) (stats : Stats) (a : Z) :
  reaches w request options basePath normalized resolved stats ->
  Headers.get (req_headers request) "range" = Some ("bytes=" ++ Js.show a ++ "-") ->
  0 < a ->
  exists res,
    serveStatic w request options basePath cache = inr (Some res)
    /\ if a <? size stats
       then status res = 206
            /\ body_bytes w (body res) = skipn (Z.to_nat a) (file_bytes w resolved)
            /\ Headers.get (headers res) "content-range"
               = Some ("bytes " ++ Js.show a ++ "-"
                       ++ Js.show (size stats - 1) ++ "/" ++ Js.show (size stats))
            /\ Headers.get (headers res) "content-length" = Some (Js.show (size stats - a))
       else status res = 416.
Proof.
  intros Hreach Hget Ha.
  assert (Hparse : parseRange (req_headers request) = (Some (Js.of_Z a), None)).
  { apply (parseRange_from _ a); [lia | assumption]. }
  assert (Hsize : size stats = Z.of_nat (List.length (file_bytes w resolved))).
  { destruct Hreach as (_ & _ & _ & _ & Hlookup & _).
    apply (lookup_file _ _ _ _ Hlookup). }
  assert (Hsafe : 0 <= size stats < Js.safe).
  { destruct Hreach as (_ & _ & _ & _ & Hlookup & _).
    apply (lookup_safe _ _ _ _ Hlookup). }
  assert (Htruthy : Js.truthy (Js.of_Z a) = true) by (apply JsFacts.of_Z_truthy; lia).
  assert (Hneg : Js.ltb (Js.of_Z a) (Js.Finite 0) = false)
    by (apply JsFacts.of_Z_natural; lia).
  destruct (a <? size stats) eqn:Hfit.
  - apply Z.ltb_lt in Hfit.
    destruct (ranged w request options basePath cache normalized resolved stats
                (Js.of_Z a) None a (size stats) Hreach
                (StaticFacts.get_some_has _ _ _ Hget) Hparse Htruthy)
      as [res (Hres & Hstatus & Hbody & Hcr & Hcl)]; try lia.
    { rewrite Hneg, JsFacts.of_Z_exact by lia. reflexivity. }
    exists res. split; [exact Hres|].
    repeat split; try assumption.
    rewrite Hbody. cbn [body_bytes].
    rewrite (proj1 (blob_slice_inside (file_bytes w resolved) a (size stats)
                      ltac:(lia) ltac:(lia) ltac:(lia))).
    apply firstn_all2. rewrite length_skipn. lia.
  - apply Z.ltb_ge in Hfit.
    destruct (unsatisfiable w request options basePath cache normalized resolved stats
                (Js.of_Z a) None (Js.of_Z a) (Js.Finite (size stats))
                Hreach (StaticFacts.get_some_has _ _ _ Hget) Hparse Htruthy)
      as [res [Hres Hstatus]].
    { rewrite Hneg. reflexivity. }
    { rewrite (JsFacts.of_Z_at_least (size stats) a Hsafe Hfit). reflexivity. }
    exists res. split; assumption.
Qed.

(** The theorem for [range: bytes=4-] on the 10 bytes of [/data.txt]. *)
Lemma open_range_serves_the_rest_witness :
  exists res,
    serveStatic (rt := Sample.runtime) Sample.world (Sample.get [("range", "bytes=4-")])
      (Sample.options "http://localhost/data.txt" None) "/srv/client" true
    = inr (Some res)
    /\ if 4 <? 10
       then status res = 206
            /\ body_bytes Sample.world (body res)
               = skipn (Z.to_nat 4) (file_bytes Sample.world "/srv/client/data.txt")
            /\ Headers.get (headers res) "content-range"
               = Some ("bytes " ++ Js.show 4 ++ "-"
                       ++ Js.show (10 - 1) ++ "/" ++ Js.show 10)
            /\ Headers.get (headers res) "content-length" = Some (Js.show (10 - 4))
       else status res = 416.
Proof.
  apply (open_range_serves_the_rest (rt := Sample.runtime)
           Sample.world (Sample.get [("range", "bytes=4-")])
           (Sample.options "http://localhost/data.txt" None) "/srv/client" true
           "/data.txt" "/srv/client/data.txt"
           {| size := 10; mtimeMs := 1000; isFile := true |} 4).
  - at_sample.
  - reflexivity.
  - lia.
Defined.

(** X5: [cache-control] is set on a 200 that is served with the cache flag,
    and on no other response: [public,max-age=604800,immutable] under
    [/appDir/immutable/], [public,max-age=14400] elsewhere. *)
Theorem cache_control_policy {rt : Runtime}
  (w : World) (request : Request) (options : HandleOptions)
  (basePath : string) (cache : bool) (res : Response) :
  serveStatic w request options basePath cache = inr (Some res) ->
  exists decoded,
    decodeURIComponent (pathname (url options)) = Some decoded
    /\ Headers.get (headers res) "cache-control"
       = if cache && (status res =? 200)
         then Some (if Js.startsWith (replace_root (path_normalize decoded))
                         ("/" ++ appDir w ++ "/immutable/")
                    then "public,max-age=604800,immutable"
                    else "public,max-age=14400")
         else None.
Proof.
  intros H. unfold serveStatic in H.
  walk H; injection H as <-; cbn [status headers Z.eqb Pos.eqb];
    (eexists; split; [reflexivity|]).
  all: rewrite ?andb_false_r.
  all: try reflexivity.
  all: try (destruct cache; cbn [andb append]; base;
            match goal with
            | |- context [if ?c then _ else _] => destruct c; reflexivity
            | _ => reflexivity
            end).
Qed.

(** The theorem for [GET /data.txt] under [/srv/client], with the flag. *)
Lemma cache_control_policy_witness :
  exists decoded,
    Sample.decode "/data.txt" = Some decoded
    /\ Headers.get (headers (answer [] "http://localhost/data.txt")) "cache-control"
       = if true && (status (answer [] "http://localhost/data.txt") =? 200)
         then Some (if Js.startsWith (replace_root (Sample.normalize decoded))
                         ("/" ++ appDir Sample.world ++ "/immutable/")
                    then "public,max-age=604800,immutable"
                    else "public,max-age=14400")
         else None.
Proof.
  apply (cache_control_policy (rt := Sample.runtime) Sample.world (Sample.get [])
           (Sample.options "http://localhost/data.txt" None) "/srv/client" true).
  vm_compute. reflexivity.
Defined.

(** X6: On a 200 the [content-encoding] says which file is the body.  Without
    the header the body is the resolved file and [content-length] is its
    size: that is the case when the request has no [accept-encoding], or
    when neither sibling is there and listed.  [gzip] goes with the
    [.gz] sibling, which exists, which [accept-encoding] lists, and whose
    size is the [content-length].  [br] goes with the [.br] sibling, which
    exists and is listed, and only when the [.gz] sibling is not served. *)
Theorem content_encoding_matches_the_body {rt : Runtime}
  (w : World) (request : Request) (options : HandleOptions)
  (basePath : string) (cache : bool) (res : Response) :
  serveStatic w request options basePath cache = inr (Some res) ->
  status res = 200 ->
  exists resolved stats,
    size stats = Z.of_nat (List.length (file_bytes w resolved))
    /\ ((Headers.get (headers res) "content-encoding" = None
         /\ body res = Some (BunFile resolved)
         /\ Headers.get (headers res) "content-length" = Some (Js.show (size stats))
         /\ (Headers.has (req_headers request) "accept-encoding" = false
             \/ exists ac,
                  Headers.get (req_headers request) "accept-encoding" = Some ac
                  /\ existsSync w (resolved ++ ".gz") && Js.includes ac "gzip" = false
                  /\ existsSync w (resolved ++ ".br") && Js.includes ac "br" = false))
        \/ (Headers.get (headers res) "content-encoding" = Some "gzip"
            /\ body res = Some (BunFile (resolved ++ ".gz"))
            /\ Headers.get (headers res) "content-length"
               = Some (Js.show (file_size w (resolved ++ ".gz")))
            /\ exists ac,
                 Headers.get (req_headers request) "accept-encoding" = Some ac
                 /\ existsSync w (resolved ++ ".gz") = true
                 /\ Js.includes ac "gzip" = true)
        \/ (Headers.get (headers res) "content-encoding" = Some "br"
            /\ body res = Some (BunFile (resolved ++ ".br"))
            /\ exists ac,
                 Headers.get (req_headers request) "accept-encoding" = Some ac
                 /\ existsSync w (resolved ++ ".br") = true
                 /\ Js.includes ac "br" = true
                 /\ existsSync w (resolved ++ ".gz") && Js.includes ac "gzip" = false)).
Proof.
  intros H Hstatus. unfold serveStatic in H.
  walk H; injection H as <-; cbn [status] in Hstatus; try discriminate Hstatus.
  all: match goal with
       | L : lookup _ _ = (?resolved, Some ?stats) |- _ =>
           exists resolved, stats;
           destruct (lookup_file _ _ _ _ L) as [Hsize _]
       end.
  all: (split; [exact Hsize|]); cbn [headers body].
  all: repeat match goal with
         | E : _ && _ = true |- _ => apply andb_true_iff in E; destruct E
         | E : negb _ = true |- _ => apply negb_true_iff in E
         end.
  all: first
         [ left; repeat split;
           first [ destruct cache; base; first [reflexivity | stored]
                 | left; assumption
                 | right; eexists; repeat split; eassumption ]
         | right; left; repeat split;
           first [ destruct cache; base; first [reflexivity | stored]
                 | eexists; repeat split; eassumption ]
         | right; right; repeat split;
           first [ destruct cache; base; first [reflexivity | stored]
                 | eexists; repeat split; eassumption ] ].
Qed.

(** The theorem for [accept-encoding: gzip] on [/data.txt], which has a
    [.gz] sibling of 4 bytes. *)
Lemma content_encoding_matches_the_body_witness :
  let res := answer [("accept-encoding", "gzip")] "http://localhost/data.txt" in
  Headers.get (headers res) "content-encoding" = Some "gzip"
  /\ exists resolved stats,
    size stats = Z.of_nat (List.length (file_bytes Sample.world resolved))
    /\ ((Headers.get (headers res) "content-encoding" = None
         /\ body res = Some (BunFile resolved)
         /\ Headers.get (headers res) "content-length" = Some (Js.show (size stats))
         /\ (Headers.has (Headers.of_list [("accept-encoding", "gzip")])
               "accept-encoding" = false
             \/ exists ac,
                  Headers.get (Headers.of_list [("accept-encoding", "gzip")])
                    "accept-encoding" = Some ac
                  /\ existsSync Sample.world (resolved ++ ".gz")
                     && Js.includes ac "gzip" = false
                  /\ existsSync Sample.world (resolved ++ ".br")
                     && Js.includes ac "br" = false))
        \/ (Headers.get (headers res) "content-encoding" = Some "gzip"
            /\ body res = Some (BunFile (resolved ++ ".gz"))
            /\ Headers.get (headers res) "content-length"
               = Some (Js.show (file_size Sample.world (resolved ++ ".gz")))
            /\ exists ac,
                 Headers.get (Headers.of_list [("accept-encoding", "gzip")])
                   "accept-encoding" = Some ac
                 /\ existsSync Sample.world (resolved ++ ".gz") = true
                 /\ Js.includes ac "gzip" = true)
        \/ (Headers.get (headers res) "content-encoding" = Some "br"
            /\ body res = Some (BunFile (resolved ++ ".br"))
            /\ exists ac,
                 Headers.get (Headers.of_list [("accept-encoding", "gzip")])
                   "accept-encoding" = Some ac
                 /\ existsSync Sample.world (resolved ++ ".br") = true
                 /\ Js.includes ac "br" = true
                 /\ existsSync Sample.world (resolved ++ ".gz")
                    && Js.includes ac "gzip" = false)).
Proof.
  split; [reflexivity|].
  apply (content_encoding_matches_the_body (rt := Sample.runtime) Sample.world
           (Sample.get [("accept-encoding", "gzip")])
           (Sample.options "http://localhost/data.txt" None) "/srv/client" true).
  - vm_compute. reflexivity.
  - vm_compute. reflexivity.
Defined.

End ResolverFacts.

(** ** Dispatcher: the order of the resolvers *)

Module DispatchFacts.

Import Static Handle.
Local Open Scope string_scope.
Local Open Scope nat_scope.

Lemma then_resolved {A B : Type} (now : nat) (a : A) (f : nat -> A -> Async.t B) :
  Async.then_ (Async.resolved now a) f = f now a.
Proof. unfold Async.then_, Async.resolved. simpl. destruct (f now a); reflexivity. Qed.

(** A resolver that is absent, or that finds nothing, at once. *)
Definition passes (now : nat) (r : option (nat -> Async.t (option Response))) : Prop :=
  match r with
  | None => True
  | Some f => f now = Async.resolved now None
  end.

(** X12: [firstResolve] answers with the first match and does not run the
    resolvers after it; when every resolver is absent or finds nothing,
    it answers the 404 with the body [404 Not Found]. *)
Theorem firstResolve_first_match
  (skipped more : list (option (nat -> Async.t (option Response))))
  (resolver : nat -> Async.t (option Response)) (res : Response) (now : nat) :
  Forall (passes now) skipped ->
  resolver now = Async.resolved now (Some res) ->
  firstResolve skipped now = Async.resolved now notFound
  /\ firstResolve (skipped ++ Some resolver :: more) now = Async.resolved now res
  /\ status notFound = 404%Z
  /\ body notFound = Some (Text "404 Not Found").
Proof.
  intros Hskipped Hresolver.
  repeat split.
  - induction Hskipped as [|r rs Hr _ IH]; [reflexivity|].
    destruct r as [f|]; cbn [firstResolve]; [|exact IH].
    simpl in Hr. rewrite Hr, then_resolved. exact IH.
  - induction Hskipped as [|r rs Hr _ IH]; cbn [app firstResolve].
    + rewrite Hresolver, then_resolved. reflexivity.
    + destruct r as [f|]; [|exact IH].
      simpl in Hr. rewrite Hr, then_resolved. exact IH.
Qed.

(** The theorem for an absent resolver and one that finds nothing, in
    front of one that answers. *)
Lemma firstResolve_first_match_witness :
  let nothing := fun t : nat => Async.resolved t (@None Response) in
  let hello := fun t : nat => Async.resolved t (Some Sample.hello) in
  firstResolve [None; Some nothing] 7 = Async.resolved 7 notFound
  /\ firstResolve ([None; Some nothing] ++ Some hello :: [Some nothing]) 7
     = Async.resolved 7 Sample.hello
  /\ status notFound = 404%Z
  /\ body notFound = Some (Text "404 Not Found").
Proof.
  apply (firstResolve_first_match [None; Some (fun t => Async.resolved t None)]
           [Some (fun t => Async.resolved t None)]
           (fun t => Async.resolved t (Some Sample.hello)) Sample.hello 7).
  - repeat constructor.
  - reflexivity.
Defined.

(** A resolver that does not wait: it throws, answers, or passes. *)
Lemma firstResolve_sync (r : Js.exn + option Response)
  (more : list (option (nat -> Async.t (option Response)))) (now : nat) :
  firstResolve (Some (fun t => Async.pending t r) :: more) now
  = match r with
    | inl e => Async.rejected now e
    | inr (Some res) => Async.resolved now res
    | inr None => firstResolve more now
    end.
Proof.
  cbn [firstResolve]. unfold Async.then_, Async.pending.
  cbn [Async.result Async.settles Async.effects].
  destruct r as [e|[res|]]; [reflexivity | reflexivity |].
  destruct (firstResolve more now); reflexivity.
Qed.

Section Framework.

Context {rt : Runtime}.
Variable server : Framework.

(** The framework as the last resolver: it answers when [init] and
    [respond] fulfil, after the ticks that both take. *)
Lemma framework_answers (request : Request) (pipe : Pipe)
  (options : HandleOptions) (now : nat) (res : Response) :
  Async.result (firstResolve [Some (respond_with server request pipe options)] now)
  = inr res ->
  outcome (init server) = inr tt
  /\ outcome (respond server request pipe (getClientAddress options)) = inr res
  /\ Async.settles (firstResolve [Some (respond_with server request pipe options)] now)
     = now + after (init server)
       + after (respond server request pipe (getClientAddress options)).
Proof.
  cbn [firstResolve].
  unfold respond_with, start, Async.then_, Async.pending, Async.resolved.
  cbn [Async.result Async.settles Async.effects].
  destruct (outcome (init server)) as [e|[]];
    cbn [Async.result Async.settles Async.effects]; [discriminate|].
  destruct (outcome (respond server request pipe (getClientAddress options)))
    as [e|r]; cbn [Async.result Async.settles Async.effects]; [discriminate|].
  intros [= <-]. repeat split.
Qed.

End Framework.

(** X13: A response of [serve] comes from the first resolver that has one,
    in the order: the client directory, when static serving is on; the
    prerendered directory; the framework, once it is ready.  The two
    directories answer at once and without an effect.  The 404 of
    [firstResolve] is never the answer of [serve], as the framework
    answers or throws. *)
Theorem serve_answers_in_order {rt : Runtime}
  (w : World) (server : Framework) (request : Request) (pipe : Pipe)
  (options : HandleOptions) (now : nat) (res : Response) :
  let client :=
    if static options
    then serveStatic w request options (SYM_BASE_PATH w ++ "/client") true
    else inr None in
  let prerendered :=
    serveStatic w request options (SYM_BASE_PATH w ++ "/prerendered") false in
  Async.result (serve w server request pipe options now) = inr res ->
  (client = inr (Some res)
   /\ serve w server request pipe options now = Async.resolved now res)
  \/ (client = inr None /\ prerendered = inr (Some res)
      /\ serve w server request pipe options now = Async.resolved now res)
  \/ (client = inr None /\ prerendered = inr None
      /\ outcome (init server) = inr tt
      /\ outcome (respond server request pipe (getClientAddress options)) = inr res
      /\ Async.settles (serve w server request pipe options now)
         = now + after (init server)
           + after (respond server request pipe (getClientAddress options))).
Proof.
  intros client prerendered Hres.
  assert (Hserve : serve w server request pipe options now
                   = firstResolve
                       [ (if static options
                          then Some (fun t => Async.pending t client)
                          else None);
                         Some (fun t => Async.pending t prerendered);
                         Some (respond_with server request pipe options) ] now).
  { unfold serve, client. destruct (static options); reflexivity. }
  rewrite Hserve in *. clear Hserve.
  assert (Hfirst :
    firstResolve
      [ (if static options then Some (fun t => Async.pending t client) else None);
        Some (fun t => Async.pending t prerendered);
        Some (respond_with server request pipe options) ] now
    = match client with
      | inl e => Async.rejected now e
      | inr (Some r) => Async.resolved now r
      | inr None =>
          firstResolve
            [ Some (fun t => Async.pending t prerendered);
              Some (respond_with server request pipe options) ] now
      end).
  { unfold client. destruct (static options).
    - apply firstResolve_sync.
    - reflexivity. }
  rewrite Hfirst in *. clear Hfirst.
  destruct client as [e|[r|]].
  - discriminate Hres.
  - injection Hres as ->. left. split; reflexivity.
  - right. rewrite firstResolve_sync in *.
    destruct prerendered as [e|[r|]].
    + discriminate Hres.
    + injection Hres as ->. left. repeat split.
    + right. split; [reflexivity|]. split; [reflexivity|].
      apply framework_answers. exact Hres.
Qed.

(** The theorem on the sample host for [/api], which neither directory
    has: the framework answers, 1 tick and 2 ticks after the start. *)
Lemma serve_answers_in_order_witness :
  let options := Sample.options "http://localhost/api" None in
  let request := Sample.get [] in
  let client :=
    if static options
    then serveStatic (rt := Sample.runtime) Sample.world request options
           (SYM_BASE_PATH Sample.world ++ "/client") true
    else inr None in
  let prerendered :=
    serveStatic (rt := Sample.runtime) Sample.world request options
      (SYM_BASE_PATH Sample.world ++ "/prerendered") false in
  let served :=
    serve (rt := Sample.runtime) Sample.world (Sample.framework 1) request
      Sample.no_body options 0 in
  (client = inr (Some Sample.hello) /\ served = Async.resolved 0 Sample.hello)
  \/ (client = inr None /\ prerendered = inr (Some Sample.hello)
      /\ served = Async.resolved 0 Sample.hello)
  \/ (client = inr None /\ prerendered = inr None
      /\ outcome (init (Sample.framework 1)) = inr tt
      /\ outcome (respond (Sample.framework 1) request Sample.no_body
                    (getClientAddress options)) = inr Sample.hello
      /\ Async.settles served
         = 0 + after (init (Sample.framework 1))
           + after (respond (Sample.framework 1) request Sample.no_body
                      (getClientAddress options))).
Proof.
  apply (serve_answers_in_order (rt := Sample.runtime) Sample.world
           (Sample.framework 1) (Sample.get []) Sample.no_body
           (Sample.options "http://localhost/api" None) 0 Sample.hello).
  vm_compute. reflexivity.
Defined.

Lemma then_ext {A B : Type} (p : Async.t A) (f g : nat -> A -> Async.t B) :
  (forall t a, f t a = g t a) -> Async.then_ p f = Async.then_ p g.
Proof.
  intros Hfg. unfold Async.then_. destruct (Async.result p); [reflexivity|].
  rewrite Hfg. reflexivity.
Qed.

Lemma then_assoc {A B C : Type} (p : Async.t A)
  (f : nat -> A -> Async.t B) (g : nat -> B -> Async.t C) :
  Async.then_ (Async.then_ p f) g = Async.then_ p (fun t a => Async.then_ (f t a) g).
Proof.
  unfold Async.then_. destruct (Async.result p) as [e|a];
    cbn [Async.result Async.settles Async.effects]; [reflexivity|].
  destruct (Async.result (f (Async.settles p) a));
    cbn [Async.result Async.settles Async.effects]; rewrite ?app_assoc; reflexivity.
Qed.

Lemma then_done (p : Async.t unit) :
  Async.then_ p (fun t _ => Async.resolved t tt) = p.
Proof.
  unfold Async.then_, Async.resolved. destruct p as [s [e|[]] eff];
    cbn [Async.result Async.settles Async.effects]; rewrite ?app_nil_r; reflexivity.
Qed.

Section Serializer.

Context {rt : Runtime}.
Variable w : World.
Variable host : Host.

(** The lines of a response on the outbound stream: the status, a line
    for each header in the order of [forEach], [start-body], a [data]
    line for each chunk of the body unless the body is absent or to be
    ignored, and [end-body]. *)
Definition frame (res : Response) (ignoreBody : bool) : list (list Js.atom) :=
  ([Js.Str "status"; Js.Num (status res); Js.Str (statusText res)]
     :: map (fun e => [Js.Str "header"; Js.Str (fst e); Js.Str (snd e)])
            (forEach (Static.headers res)))
  ++ [Js.Str "start-body"]
  :: match body res with
     | None => []
     | Some b =>
         if ignoreBody then []
         else map (fun value => [Js.Str "data"; Js.Str (base64_encode value)])
                  (stream_chunks (body_bytes w (Some b)))
     end
  ++ [[Js.Str "end-body"]].

(** Lines written one after the other, each once the one before has
    been accepted. *)
Fixpoint write_all (lines : list (list Js.atom)) (now : nat) : Async.t unit :=
  match lines with
  | [] => Async.resolved now tt
  | line :: more =>
      Async.then_ (writeOut host line now) (fun t _ => write_all more t)
  end.

Lemma write_all_app (l1 l2 : list (list Js.atom)) (now : nat) :
  write_all (l1 ++ l2) now
  = Async.then_ (write_all l1 now) (fun t _ => write_all l2 t).
Proof.
  revert now. induction l1 as [|line l1 IH]; intros now; cbn [app write_all].
  - rewrite then_resolved. reflexivity.
  - rewrite then_assoc. apply then_ext. intros t _. apply IH.
Qed.

Lemma write_headers_all (entries : list (string * string)) (now : nat) :
  write_headers host entries now
  = write_all (map (fun e => [Js.Str "header"; Js.Str (fst e); Js.Str (snd e)]) entries) now.
Proof.
  revert now. induction entries as [|[key val] more IH]; intros now;
    cbn [write_headers map write_all fst snd]; [reflexivity|].
  apply then_ext. intros t _. apply IH.
Qed.

Lemma write_body_all (reads : list (list byte)) (now : nat) :
  write_body host reads now
  = write_all (map (fun value => [Js.Str "data"; Js.Str (base64_encode value)]) reads
               ++ [[Js.Str "end-body"]]) now.
Proof.
  revert now. induction reads as [|value more IH]; intros now;
    cbn [write_body map app write_all].
  - rewrite then_done. reflexivity.
  - apply then_ext. intros t _. apply IH.
Qed.

Lemma writeResponse_all (res : Response) (ignoreBody : bool) (now : nat) :
  writeResponse w host res ignoreBody now = write_all (frame res ignoreBody) now.
Proof.
  unfold writeResponse, frame. cbn [app write_all].
  apply then_ext. intros t1 _.
  rewrite write_all_app, write_headers_all.
  apply then_ext. intros t2 _. cbn [write_all].
  apply then_ext. intros t3 _.
  destruct (body res) as [b|]; [destruct ignoreBody|]; cbn [app write_all];
    rewrite ?then_done; try reflexivity.
  apply write_body_all.
Qed.

Lemma write_all_prefix (lines : list (list Js.atom)) (now : nat) :
  exists k,
    map snd (Async.effects (write_all lines now)) = map Async.Stdout (firstn k lines)
    /\ (forall i, i < k -> write_error host (now + i * write_takes host) = None)
    /\ match Async.result (write_all lines now) with
       | inr _ =>
           k = List.length lines
           /\ Async.settles (write_all lines now) = now + k * write_takes host
       | inl err =>
           k < List.length lines
           /\ write_error host (now + k * write_takes host) = Some err
       end.
Proof.
  revert now. induction lines as [|line more IH]; intros now; cbn [write_all].
  - exists 0. repeat split; simpl; intros; lia.
  - unfold Async.then_, writeOut.
    destruct (write_error host now) as [err|] eqn:Hnow;
      cbn [Async.result Async.settles Async.effects Async.rejected].
    + exists 0. repeat split; simpl; intros; try lia.
      rewrite Nat.add_0_r. exact Hnow.
    + destruct (IH (now + write_takes host)) as [k [Heff [Hok Hend]]].
      exists (S k). cbn [map app firstn snd]. rewrite Heff.
      split; [reflexivity|]. split.
      * intros [|i] Hi.
        -- rewrite Nat.mul_0_l, Nat.add_0_r. exact Hnow.
        -- replace (now + S i * write_takes host)
             with (now + write_takes host + i * write_takes host) by (simpl; lia).
           apply Hok. lia.
      * replace (now + S k * write_takes host)
          with (now + write_takes host + k * write_takes host) by (simpl; lia).
        destruct (Async.result (write_all more (now + write_takes host)));
          cbn [List.length]; destruct Hend as [Hk Hrest]; split; try lia; exact Hrest.
Qed.

End Serializer.

(** [forEach] on a response with two cookies: the names in sorted order
    and combined, the cookies last and apart. *)
Example set_cookie_is_visited_last :
  forEach
    (Headers.of_list
       [("x-b", "1"); ("set-cookie", "a=1"); ("x-a", "2"); ("Set-Cookie", "b=2");
        ("x-b", "3")])
  = [("x-a", "2"); ("x-b", "1, 3"); ("set-cookie", "a=1"); ("set-cookie", "b=2")].
Proof. vm_compute. reflexivity. Qed.

(** X14: What [writeResponse] writes is the beginning of the frame of the
    response: the lines come in the order of the frame, each write is
    made when the one before has been accepted, and the first write that
    fails ends the writing and rejects with its error; when no write
    fails the whole frame is written, [end-body] last. *)
Theorem writeResponse_writes_the_frame_in_order {rt : Runtime}
  (w : World) (host : Host) (res : Response) (ignoreBody : bool) (now : nat) :
  let lines := frame w res ignoreBody in
  let written := writeResponse w host res ignoreBody now in
  exists k,
    map snd (Async.effects written) = map Async.Stdout (firstn k lines)
    /\ (forall i, i < k -> write_error host (now + i * write_takes host) = None)
    /\ match Async.result written with
       | inr _ =>
           k = List.length lines
           /\ Async.settles written = now + k * write_takes host
       | inl err =>
           k < List.length lines
           /\ write_error host (now + k * write_takes host) = Some err
       end.
Proof.
  intros lines written. unfold written, lines.
  rewrite writeResponse_all. apply write_all_prefix.
Qed.

End DispatchFacts.

(** ** Request assembler: the commands of the inbound stream *)

Module AssemblerFacts.

Import Static Handle.
Local Open Scope string_scope.
Local Open Scope nat_scope.

(** The line of a [header] command, of a [data] command. *)
Definition header_line (e : string * string) : option (list string) :=
  Some ["header"; fst e; snd e].

Definition data_line (payload : string) : option (list string) :=
  Some ["data"; payload].

Section Commands.

Context {rt : Runtime}.
Variable options : HandleOptions.

Lemma run_headers (hs : list (string * string)) (a : Assembler) :
  bodyStart a = false ->
  Forall (fun e => Headers.valid_name (fst e) && Headers.valid_value (snd e) = true) hs ->
  run options (map header_line hs) a
  = ({| Handle.headers := fold_left (fun h e => Headers.append h (fst e) (snd e)) hs
                            (Handle.headers a);
        bodyStart := false; Handle.pipe := Handle.pipe a; served := served a |}, None).
Proof.
  intros Hstart Hvalid. revert a Hstart.
  induction Hvalid as [|e hs He _ IH]; intros a Hstart; cbn [map run fold_left].
  - destruct a; simpl in *; subst; reflexivity.
  - unfold header_line at 1, listener.
    cbn [hd_error tl is_cmd nth_error to_string].
    rewrite Hstart. cbn [negb].
    change ("header" =? "header")%string with true. cbv iota.
    rewrite He. rewrite IH by reflexivity. reflexivity.
Qed.

Lemma run_data (payloads : list string) (a : Assembler) :
  bodyStart a = true -> aborted (Handle.pipe a) = false ->
  ended (Handle.pipe a) = false -> errored (Handle.pipe a) = false ->
  run options (map data_line payloads) a
  = ({| Handle.headers := Handle.headers a; bodyStart := true;
        Handle.pipe := {| chunks := chunks (Handle.pipe a) ++ map base64_decode payloads;
                          ended := false; errored := false; aborted := false |};
        served := served a |}, None).
Proof.
  revert a. induction payloads as [|payload more IH]; intros a Hstart Habort Hend Herr;
    cbn [map run].
  - rewrite app_nil_r. destruct a as [h b [c e er ab] s]; simpl in *; subst; reflexivity.
  - unfold data_line at 1, listener.
    cbn [hd_error tl is_cmd nth_error].
    rewrite Hstart, Habort. cbn [negb].
    change ("data" =? "data")%string with true. cbv iota.
    rewrite IH; cbn [bodyStart Handle.pipe served Handle.headers]; unfold pipe_write;
      rewrite ?Hend, ?Herr; cbn [chunks ended errored aborted];
      try reflexivity; try assumption.
    rewrite <- app_assoc. reflexivity.
Qed.

End Commands.

(** X16: A well-formed exchange.  With valid [header] commands followed by
    [start-body], the request passed to [serve] carries the method of the
    options and the headers of the commands, in their order, and it is the
    only one; with the [data] commands that follow and [end-body], the
    body stream has received the decoded payloads, in order, and has
    ended; no exception ends the process.  A [header] command whose name
    is no token, or whose value is no byte string or holds a NUL, a line
    feed or a carriage return inside, makes the listener throw. *)
Theorem exchange_builds_the_request {rt : Runtime}
  (options : HandleOptions) (hs : list (string * string))
  (payloads : list string) (params params' : list string) :
  Forall (fun e => Headers.valid_name (fst e) && Headers.valid_value (snd e) = true) hs ->
  let request := {| req_method := method options; req_headers := Headers.of_list hs |} in
  handle options (map header_line hs ++ [Some ("start-body" :: params)])
  = ({| Handle.headers := Headers.of_list hs; bodyStart := true;
        Handle.pipe := {| chunks := []; ended := false; errored := false;
                          aborted := false |};
        served := [request] |}, None)
  /\ handle options
       (map header_line hs ++ Some ("start-body" :: params)
          :: map data_line payloads ++ [Some ("end-body" :: params')])
     = ({| Handle.headers := Headers.of_list hs; bodyStart := true;
           Handle.pipe := {| chunks := map base64_decode payloads;
                             ended := true; errored := false; aborted := false |};
           served := [request] |}, None)
  /\ (forall (a : Assembler) (name value : string),
        bodyStart a = false ->
        Headers.valid_name name && Headers.valid_value value = false ->
        listener options (Some ["header"; name; value]) a = inl "TypeError").
Proof.
  intros Hvalid request. unfold handle.
  assert (Hthrows : forall (a : Assembler) (name value : string),
    bodyStart a = false ->
    Headers.valid_name name && Headers.valid_value value = false ->
    listener options (Some ["header"; name; value]) a = inl "TypeError").
  { intros a name value Hstart Hbad. unfold listener.
    cbn [hd_error tl is_cmd nth_error to_string]. rewrite Hstart. cbn [negb].
    change ("header" =? "header")%string with true. cbv iota.
    rewrite Hbad. reflexivity. }
  refine ((fun H => conj (proj1 H) (conj (proj2 H) Hthrows)) _).
  rewrite !HandleFacts.run_app, (run_headers options hs assembler0 eq_refl Hvalid).
  cbn [assembler0 Handle.headers Handle.pipe served].
  fold (Headers.of_list hs).
  split; [reflexivity|].
  cbn [run]. unfold listener at 1.
  cbn [hd_error tl is_cmd bodyStart negb Handle.headers Handle.pipe served app].
  change ("start-body" =? "header")%string with false.
  change ("start-body" =? "start-body")%string with true. cbv iota.
  rewrite HandleFacts.run_app, run_data by reflexivity.
  cbn [run Handle.headers Handle.pipe served bodyStart chunks app].
  reflexivity.
Qed.

(** The euro sign, U+20AC, in UTF-8. *)
Definition euro : string :=
  String "226"%char (String "130"%char (String "172"%char EmptyString)).

(** The theorem for two headers and two payloads on the sample host;
    and the euro sign, which is no byte, as the value of a header. *)
Lemma exchange_builds_the_request_witness :
  let options := Sample.options "http://localhost/api" None in
  let hs := [("Accept", "text/html"); ("x-id", " 7 ")] in
  let request := {| req_method := method options; req_headers := Headers.of_list hs |} in
  Headers.of_list hs = [("accept", "text/html"); ("x-id", "7")]
  /\ (handle (rt := Sample.runtime) options
        (map header_line hs ++ [Some ["start-body"]])
      = ({| Handle.headers := Headers.of_list hs; bodyStart := true;
            Handle.pipe := {| chunks := []; ended := false; errored := false;
                          aborted := false |};
            served := [request] |}, None)
      /\ handle (rt := Sample.runtime) options
           (map header_line hs ++ Some ["start-body"]
              :: map data_line ["aGVs"; "bG8="] ++ [Some ["end-body"]])
         = ({| Handle.headers := Headers.of_list hs; bodyStart := true;
               Handle.pipe := {| chunks := map (base64_decode (Runtime := Sample.runtime))
                                             ["aGVs"; "bG8="];
                                 ended := true; errored := false; aborted := false |};
               served := [request] |}, None))
  /\ listener (rt := Sample.runtime) options (Some ["header"; "x-price"; euro]) assembler0
     = inl "TypeError".
Proof.
  intros options hs request.
  destruct (exchange_builds_the_request (rt := Sample.runtime)
              (Sample.options "http://localhost/api" None)
              [("Accept", "text/html"); ("x-id", " 7 ")] ["aGVs"; "bG8="] [] [])
    as (Hstart & Hbody & Hthrows).
  - repeat constructor.
  - split; [reflexivity|]. split; [split; [exact Hstart | exact Hbody]|].
    apply Hthrows; reflexivity.
Defined.

Section Terminal.

Context {rt : Runtime}.
Variable options : HandleOptions.

Lemma run_aborted (lines : list (option (list string))) (a : Assembler) :
  bodyStart a = true -> aborted (Handle.pipe a) = true ->
  fst (run options lines a) = a.
Proof.
  intros Hstart Habort. induction lines as [|line more IH]; cbn [run]; [reflexivity|].
  destruct line as [array|]; unfold listener; [|reflexivity].
  rewrite Hstart, Habort. cbn [negb]. exact IH.
Qed.

End Terminal.

(** X17: [abort] while the body is streaming ends the body stream, sets the
    abort signal and keeps the chunks received so far; from then on no
    line changes anything. *)
Theorem abort_is_final {rt : Runtime}
  (options : HandleOptions) (a : Assembler)
  (params : list string) (lines : list (option (list string))) :
  bodyStart a = true ->
  aborted (Handle.pipe a) = false ->
  let stopped :=
    {| Handle.headers := Handle.headers a; bodyStart := true;
       Handle.pipe := {| chunks := chunks (Handle.pipe a); ended := true;
                         errored := errored (Handle.pipe a); aborted := true |};
       served := served a |} in
  listener options (Some ("abort" :: params)) a = inr stopped
  /\ fst (run options (Some ("abort" :: params) :: lines) a) = stopped.
Proof.
  intros Hstart Habort stopped.
  assert (Hline : listener options (Some ("abort" :: params)) a = inr stopped).
  { unfold listener. cbn [hd_error tl is_cmd]. rewrite Hstart, Habort. cbn [negb].
    change ("abort" =? "data")%string with false.
    change ("abort" =? "end-body")%string with false.
    change ("abort" =? "abort")%string with true. cbv iota.
    unfold stopped, abort_abort, pipe_end. cbn [chunks ended errored aborted].
    reflexivity. }
  split; [exact Hline|].
  cbn [run]. rewrite Hline. apply run_aborted; reflexivity.
Qed.

(** The theorem after one chunk, with lines that follow the [abort]. *)
Lemma abort_is_final_witness :
  let a := {| Handle.headers := Headers.empty; bodyStart := true;
              Handle.pipe := {| chunks := [[x68]]; ended := false; errored := false;
                                aborted := false |};
              served := [] |} in
  let stopped :=
    {| Handle.headers := Headers.empty; bodyStart := true;
       Handle.pipe := {| chunks := [[x68]]; ended := true; errored := false;
                         aborted := true |};
       served := [] |} in
  listener (rt := Sample.runtime) (Sample.options "http://localhost/api" None)
    (Some ["abort"]) a = inr stopped
  /\ fst (run (rt := Sample.runtime) (Sample.options "http://localhost/api" None)
            (Some ["abort"] :: [Some ["data"; "aGVs"]; Some ["end-body"]; None]) a)
     = stopped.
Proof.
  apply (abort_is_final (rt := Sample.runtime)
           (Sample.options "http://localhost/api" None)
           {| Handle.headers := Headers.empty; bodyStart := true;
              Handle.pipe := {| chunks := [[x68]]; ended := false; errored := false;
                                aborted := false |};
              served := [] |}
           [] [Some ["data"; "aGVs"]; Some ["end-body"]; None]);
    reflexivity.
Defined.

(** X18: A command that the state does not expect is ignored: before
    [start-body], every command but [header] and [start-body]; after it,
    every command but [data], [end-body] and [abort]; an empty array at
    any time.  Nothing is thrown and no variable changes. *)
Theorem unexpected_commands_are_ignored {rt : Runtime}
  (options : HandleOptions) (a : Assembler) (cmd : string) (params : list string) :
  (if bodyStart a
   then ~ In cmd ["data"; "end-body"; "abort"]
   else ~ In cmd ["header"; "start-body"]) ->
  listener options (Some (cmd :: params)) a = inr a
  /\ listener options (Some []) a = inr a.
Proof.
  intros Hcmd. unfold listener. cbn [hd_error tl is_cmd].
  destruct (bodyStart a); cbn [negb].
  - destruct (aborted (Handle.pipe a)); cbn [negb]; [split; reflexivity|].
    assert (H1 : (cmd =? "data")%string = false)
      by (apply String.eqb_neq; intros ->; apply Hcmd; simpl; tauto).
    assert (H2 : (cmd =? "end-body")%string = false)
      by (apply String.eqb_neq; intros ->; apply Hcmd; simpl; tauto).
    assert (H3 : (cmd =? "abort")%string = false)
      by (apply String.eqb_neq; intros ->; apply Hcmd; simpl; tauto).
    rewrite H1, H2, H3. split; reflexivity.
  - assert (H1 : (cmd =? "header")%string = false)
      by (apply String.eqb_neq; intros ->; apply Hcmd; simpl; tauto).
    assert (H2 : (cmd =? "start-body")%string = false)
      by (apply String.eqb_neq; intros ->; apply Hcmd; simpl; tauto).
    rewrite H1, H2. split; reflexivity.
Qed.

(** The theorem for a [data] command before [start-body]. *)
Lemma unexpected_commands_are_ignored_witness :
  listener (rt := Sample.runtime) (Sample.options "http://localhost/api" None)
    (Some ("data" :: ["aGVs"])) assembler0 = inr assembler0
  /\ listener (rt := Sample.runtime) (Sample.options "http://localhost/api" None)
       (Some []) assembler0 = inr assembler0.
Proof.
  apply (unexpected_commands_are_ignored (rt := Sample.runtime)
           (Sample.options "http://localhost/api" None) assembler0 "data" ["aGVs"]).
  simpl. intros [H|[H|[]]]; discriminate H.
Defined.

End AssemblerFacts.

(** ** The options of a request, the method [HEAD], the redirect *)

Module RequestFacts.

Import Static.
Local Open Scope string_scope.
Local Open Scope Z_scope.

(** X19: With a URL that parses and a method among the six, in any case of
    letters, the [render] action calls [handle] with the parsed URL, the
    method in upper case, static serving on unless [opts.static] is falsy,
    and the client address that was given: the resolver returns it when it
    is not empty and throws when it is empty. *)
Theorem render_options {rt : Runtime}
  (opts : Cli.Opts) (u m ip : string) (parsed : URL) :
  Cli.url opts = Cli.Text u ->
  URL_parse u = Some parsed ->
  Cli.method opts = Cli.Text m ->
  In (toUpperCase m) Cli.methods ->
  Cli.clientIp opts = Cli.Text ip ->
  exists options,
    Cli.action opts = inr options
    /\ url options = parsed
    /\ method options = toUpperCase m
    /\ static options = Cli.Boolean (Cli.static opts)
    /\ Handle.getClientAddress options tt
       = if String.eqb ip "" then inl "Unable to determine client IP." else inr ip.
Proof.
  intros Hurl Hparse Hmethod Hin Hip. unfold Cli.action.
  rewrite Hurl, Hparse, Hmethod.
  apply HandleFacts.methods_member in Hin. rewrite Hin. cbn [negb].
  eexists. split; [reflexivity|]. cbn [url method static].
  repeat split.
  unfold Handle.getClientAddress. cbn [clientIP]. rewrite Hip. cbn [Cli.interpolate].
  unfold Js.truthy_string. destruct (String.eqb ip ""); reflexivity.
Qed.

(** The theorem for [render -u http://localhost/a?b=1 -m head -i 10.0.0.7
    --no-static] on the sample host. *)
Lemma render_options_witness :
  let opts := {| Cli.url := Cli.Text "http://localhost/a?b=1";
                 Cli.method := Cli.Text "head";
                 Cli.clientIp := Cli.Text "10.0.0.7";
                 Cli.static := Cli.Flag false |} in
  exists options,
    Cli.action (rt := Sample.runtime) opts = inr options
    /\ url options = {| href := "http://localhost/a?b=1"; pathname := "/a";
                        search := "?b=1" |}
    /\ method options = Sample.upper "head"
    /\ static options = Cli.Boolean (Cli.Flag false)
    /\ Handle.getClientAddress options tt
       = if String.eqb "10.0.0.7" "" then inl "Unable to determine client IP."
         else inr "10.0.0.7".
Proof.
  apply (render_options (rt := Sample.runtime)
           {| Cli.url := Cli.Text "http://localhost/a?b=1";
              Cli.method := Cli.Text "head";
              Cli.clientIp := Cli.Text "10.0.0.7";
              Cli.static := Cli.Flag false |}
           "http://localhost/a?b=1" "head" "10.0.0.7").
  - reflexivity.
  - reflexivity.
  - reflexivity.
  - vm_compute. tauto.
  - reflexivity.
Defined.

(** X3: The resolver redirects exactly the requests whose path ends with a
    slash and is not the root: a response to such a request is a 302, and
    a response to any other request is not. *)
Theorem redirect_only_for_trailing_slash {rt : Runtime}
  (w : World) (request : Request) (options : HandleOptions)
  (basePath : string) (cache : bool) (res : Response) :
  serveStatic w request options basePath cache = inr (Some res) ->
  (status res = 302
   <-> pathname (url options) <> "/"
       /\ Js.endsWith (pathname (url options)) "/" = true).
Proof.
  intros H. split.
  - intros Hstatus. unfold serveStatic in H.
    ResolverFacts.walk H; injection H as <-; cbn [status] in Hstatus;
      try discriminate Hstatus.
    match goal with
    | E : negb (String.eqb _ "/") && _ = true |- _ =>
        apply andb_true_iff in E; destruct E as [Hroot Hslash]
    end.
    apply negb_true_iff, String.eqb_neq in Hroot. split; assumption.
  - intros [Hroot Hslash].
    unfold serveStatic in H.
    apply String.eqb_neq in Hroot.
    ResolverFacts.head H. ResolverFacts.head H. ResolverFacts.head H.
    ResolverFacts.head H. ResolverFacts.head H. ResolverFacts.head H.
    rewrite Hroot, Hslash in H. cbn [negb andb] in H.
    ResolverFacts.head H. injection H as <-. reflexivity.
Qed.

(** The theorem for [/foo/] on the sample host. *)
Lemma redirect_only_for_trailing_slash_witness :
  status (ResolverFacts.answer [] "http://localhost/foo/") = 302
  <-> pathname (url (Sample.options "http://localhost/foo/" None)) <> "/"
      /\ Js.endsWith (pathname (url (Sample.options "http://localhost/foo/" None))) "/"
         = true.
Proof.
  apply (redirect_only_for_trailing_slash (rt := Sample.runtime) Sample.world
           (Sample.get []) (Sample.options "http://localhost/foo/" None)
           "/srv/client" true).
  vm_compute. reflexivity.
Defined.

(** A line of the outbound stream that is a [data] command. *)
Definition is_data (line : list Js.atom) : bool :=
  match line with
  | Js.Str name :: _ => String.eqb name "data"
  | _ => false
  end.

(** An effect that is the writing of a [data] command. *)
Definition writes_data (ev : Async.Event) : bool :=
  match ev with
  | Async.Stdout line => is_data line
  | _ => false
  end.

(** When no write fails, the whole frame is written. *)
Lemma writeResponse_complete {rt : Runtime}
  (w : World) (host : Handle.Host) (res : Response) (ignoreBody : bool) (now : nat) :
  (forall t, Handle.write_error host t = None) ->
  map snd (Async.effects (Handle.writeResponse w host res ignoreBody now))
  = map Async.Stdout (DispatchFacts.frame w res ignoreBody).
Proof.
  intros Hok. rewrite DispatchFacts.writeResponse_all.
  destruct (DispatchFacts.write_all_prefix host (DispatchFacts.frame w res ignoreBody) now)
    as [k [Heff [_ Hend]]].
  rewrite Heff.
  destruct (Async.result (DispatchFacts.write_all host
                            (DispatchFacts.frame w res ignoreBody) now)) as [err|u].
  - destruct Hend as [_ Herr]. rewrite Hok in Herr. discriminate Herr.
  - destruct Hend as [-> _]. rewrite firstn_all. reflexivity.
Qed.

(** X15: [HEAD] is [GET] without the data: the resolver gives a [HEAD] the
    response that it gives the same request as a [GET], and what is
    written for a response with the body ignored, when no write fails, is
    what is written for it otherwise, without the [data] lines. *)
Theorem head_is_get_without_data {rt : Runtime}
  (w : World) (host : Handle.Host) (request_headers : Headers.t)
  (options : HandleOptions) (basePath : string) (cache : bool)
  (res : Response) (now : nat) :
  (forall t, Handle.write_error host t = None) ->
  serveStatic w {| req_method := "HEAD"; req_headers := request_headers |}
    options basePath cache
  = serveStatic w {| req_method := "GET"; req_headers := request_headers |}
      options basePath cache
  /\ map snd (Async.effects (Handle.writeResponse w host res true now))
     = filter (fun ev => negb (writes_data ev))
         (map snd (Async.effects (Handle.writeResponse w host res false now)))
  /\ filter writes_data
       (map snd (Async.effects (Handle.writeResponse w host res true now))) = [].
Proof.
  intros Hok. split; [reflexivity|].
  rewrite !(writeResponse_complete w host res _ now Hok).
  assert (Hmap : forall (P : list Js.atom -> bool) (lines : list (list Js.atom)),
    filter (fun ev => match ev with Async.Stdout line => P line | _ => false end)
      (map Async.Stdout lines) = map Async.Stdout (filter P lines)).
  { intros P lines. induction lines as [|line lines IH]; [reflexivity|].
    cbn [map filter]. destruct (P line); cbn [map]; rewrite IH; reflexivity. }
  assert (Hneg : forall lines : list (list Js.atom),
    filter (fun ev => negb (writes_data ev)) (map Async.Stdout lines)
    = map Async.Stdout (filter (fun line => negb (is_data line)) lines)).
  { intros lines. induction lines as [|line lines IH]; [reflexivity|].
    cbn [map filter writes_data]. destruct (is_data line); cbn [negb map];
      rewrite IH; reflexivity. }
  assert (Hheaders : forall entries : list (string * string),
    filter (fun line => negb (is_data line))
      (map (fun e => [Js.Str "header"; Js.Str (fst e); Js.Str (snd e)]) entries)
    = map (fun e => [Js.Str "header"; Js.Str (fst e); Js.Str (snd e)]) entries
    /\ filter is_data
         (map (fun e => [Js.Str "header"; Js.Str (fst e); Js.Str (snd e)]) entries) = []).
  { induction entries as [|e entries [IH1 IH2]]; [split; reflexivity|].
    cbn [map filter is_data]. change ("header" =? "data")%string with false.
    cbn [negb]. rewrite IH1, IH2. split; reflexivity. }
  assert (Hdata : forall values : list (list byte),
    filter (fun line => negb (is_data line))
      (map (fun value => [Js.Str "data"; Js.Str (base64_encode value)]) values) = []).
  { induction values as [|v values IH]; [reflexivity|].
    cbn [map filter is_data]. change ("data" =? "data")%string with true.
    cbn [negb]. exact IH. }
  rewrite Hneg. unfold writes_data. rewrite (Hmap is_data).
  unfold DispatchFacts.frame.
  split.
  - f_equal. rewrite filter_app. cbn [filter is_data].
    change ("status" =? "data")%string with false.
    change ("start-body" =? "data")%string with false. cbn [negb].
    rewrite (proj1 (Hheaders _)).
    destruct (body res) as [b|]; cbn [app filter is_data];
      rewrite ?filter_app, ?Hdata; cbn [app filter is_data];
      change ("end-body" =? "data")%string with false; reflexivity.
  - rewrite filter_app. cbn [filter is_data].
    change ("status" =? "data")%string with false.
    change ("start-body" =? "data")%string with false.
    rewrite (proj2 (Hheaders _)).
    destruct (body res); cbn [app filter is_data map];
      change ("end-body" =? "data")%string with false; reflexivity.
Qed.

(** The theorem for the response [hello] on the sample host. *)
Lemma head_is_get_without_data_witness :
  serveStatic (rt := Sample.runtime) Sample.world
    {| req_method := "HEAD"; req_headers := Headers.empty |}
    (Sample.options "http://localhost/data.txt" None) "/srv/client" true
  = serveStatic (rt := Sample.runtime) Sample.world
      {| req_method := "GET"; req_headers := Headers.empty |}
      (Sample.options "http://localhost/data.txt" None) "/srv/client" true
  /\ map snd (Async.effects
                (Handle.writeResponse (rt := Sample.runtime) Sample.world Sample.host
                   Sample.hello true 0))
     = filter (fun ev => negb (writes_data ev))
         (map snd (Async.effects
                     (Handle.writeResponse (rt := Sample.runtime) Sample.world
                        Sample.host Sample.hello false 0)))
  /\ filter writes_data
       (map snd (Async.effects
                   (Handle.writeResponse (rt := Sample.runtime) Sample.world
                      Sample.host Sample.hello true 0))) = [].
Proof.
  apply (head_is_get_without_data (rt := Sample.runtime) Sample.world Sample.host
           Headers.empty (Sample.options "http://localhost/data.txt" None)
           "/srv/client" true Sample.hello 0).
  intros t. reflexivity.
Defined.

End RequestFacts.
